(** * Local_Map_View: tile addressing, batch download and tile serving

    A shallow embedding of the downloader script (download-tiles.js: the
    command line, zoom parsing, Web-Mercator tile indices, bounding box,
    tile loop, URLs and files of the tiles, per-tile download, exit
    status), of the tile server's request handler (tileserver.js) and of
    the web server's page rewriting, together with the properties the
    specification states about them and further properties of the code.

    JavaScript numbers are IEEE-754 binary64 values.  They are embedded as
    the Standard Library's [spec_float] at precision 53 and maximal exponent
    1024, whose operations round to nearest, ties to even, exactly as the
    language prescribes; everything below computes inside Rocq. *)

From Stdlib Require Import ZArith Lia List Bool String Ascii SpecFloat DecimalString.
From Stdlib Require Import Sorted FinFun DecimalPos.
Import ListNotations.
Local Open Scope Z_scope.

(* ================================================================== *)
(** ** JavaScript numbers *)
(* ================================================================== *)

Module Num.

Definition num : Type := spec_float.

Definition prec : Z := 53.
Definition emax : Z := 1024.

Definition NaN : num := S754_nan.
Definition Infinity : num := S754_infinity false.

Definition add : num -> num -> num := SFadd prec emax.
Definition sub : num -> num -> num := SFsub prec emax.
Definition mul : num -> num -> num := SFmul prec emax.
Definition div : num -> num -> num := SFdiv prec emax.
Definition neg : num -> num := SFopp.

(** Relational operators [<], [<=]: false as soon as an operand is NaN. *)
Definition ltb (a b : num) : bool := SFltb a b.
Definition leb (a b : num) : bool := SFleb a b.

(** The number nearest to the integer [k] (exact when [|k| < 2^53]). *)
Definition of_Z (k : Z) : num := binary_normalize prec emax k 0 false.

(** A decimal literal [m * 10^-k] of the source text, [m] and [10^k] below
    [2^53]: the correctly rounded quotient of two exact integers is the
    double nearest to the decimal value. *)
Definition decimal (m : Z) (k : Z) : num := div (of_Z m) (of_Z (10 ^ k)).

(** [2 ** z] for an integer exponent [z]. *)
Definition pow2 (z : Z) : num := SFldexp prec emax (of_Z 1) z.

Definition isNaN (v : num) : bool :=
  match v with S754_nan => true | _ => false end.

(** [Number.isFinite]. *)
Definition isFinite (v : num) : bool :=
  match v with
  | S754_zero _ | S754_finite _ _ _ => true
  | _ => false
  end.

(** [Math.max] and [Math.min] on two arguments: NaN when an operand is NaN,
    and [+0] counts as larger than [-0]. *)
Definition Math_max (a b : num) : num :=
  match SFcompare a b with
  | None => NaN
  | Some Lt => b
  | Some Gt => a
  | Some Eq => match a with S754_zero true => b | _ => a end
  end.

Definition Math_min (a b : num) : num :=
  match SFcompare a b with
  | None => NaN
  | Some Lt => a
  | Some Gt => b
  | Some Eq => match a with S754_zero false => b | _ => a end
  end.

(** The mathematical floor of a finite number, as an integer. *)
Definition floorZ (s : bool) (m : positive) (e : Z) : Z :=
  Z.shiftl (cond_Zopp s (Zpos m)) e.

(** [Math.floor]: NaN, the zeros and the infinities are returned as they
    are; a finite [n] gives the number of [floor (n)]. *)
Definition Math_floor (v : num) : num :=
  match v with
  | S754_finite s m e => of_Z (floorZ s m e)
  | _ => v
  end.

(** The integer a number with an integer value denotes (in general, the
    floor of a finite number). *)
Definition to_Z (v : num) : Z :=
  match v with
  | S754_finite s m e => floorZ s m e
  | _ => 0
  end.

(** [Math.PI]. *)
Definition Math_PI : num := decimal 3141592653589793 15.

(** The exact value of a number, when it is an integer. *)
Definition integerValue (v : num) : option Z :=
  match v with
  | S754_zero _ => Some 0
  | S754_finite s m e =>
      if 0 <=? e then Some (cond_Zopp s (Zpos m) * 2 ^ e)
      else if Zpos m mod 2 ^ (- e) =? 0
           then Some (cond_Zopp s (Zpos m / 2 ^ (- e)))
           else None
  | _ => None
  end.

End Num.

Declare Scope num_scope.
Delimit Scope num_scope with num.
Bind Scope num_scope with Num.num.
Infix "+" := Num.add : num_scope.
Infix "-" := Num.sub : num_scope.
Infix "*" := Num.mul : num_scope.
Infix "/" := Num.div : num_scope.
Notation "- x" := (Num.neg x) : num_scope.
Infix "<=?" := Num.leb : num_scope.
Infix "<?" := Num.ltb : num_scope.
Notation "# k" := (Num.of_Z k) (at level 1, format "# k") : num_scope.

Local Open Scope num_scope.

(* ================================================================== *)
(** ** The host's numeric library *)
(* ================================================================== *)

(** [Math.cos], [Math.tan] and [Math.log] are "implementation-approximated"
    in the language standard: their results are whatever the engine's
    mathematical library returns.  [StringToNumber] is the conversion
    [Number(...)] applies to a string.  [maxArrayLength] is the number of
    elements an array can hold: [push] on an array of that length throws
    [RangeError: Invalid array length] (the language puts it at 2^32 - 1,
    engines stop earlier).  The model is parametric in them. *)
Record Host : Type := {
  Math_cos : Num.num -> Num.num;
  Math_tan : Num.num -> Num.num;
  Math_log : Num.num -> Num.num;
  StringToNumber : string -> Num.num;
  maxArrayLength : nat
}.

(* ================================================================== *)
(** ** Geodesy (download-tiles.js) *)
(* ================================================================== *)

Definition EARTH_RADIUS_METERS : Num.num := Num.decimal 63710088 1.
Definition DEFAULT_RADIUS_METERS : Num.num := #5000.
Definition DEFAULT_ZOOMS : list Z := [12%Z].

(** The literal [85.05112878]. *)
Definition MAX_LAT : Num.num := Num.decimal 8505112878 8.

Definition clampLat (lat : Num.num) : Num.num :=
  Num.Math_max (Num.Math_min lat MAX_LAT) (- MAX_LAT).

Record TileXY : Type := { x : Num.num; y : Num.num }.

Record BoundingBox : Type := {
  minLat : Num.num; maxLat : Num.num; minLon : Num.num; maxLon : Num.num
}.

Section Geodesy.
Variable host : Host.

(** The argument of [Math.floor] in the [y] coordinate, up to the factor
    [n]: [Math.log(Math.tan(latRad) + 1 / Math.cos(latRad))]. *)
Definition mercatorLog (latRad : Num.num) : Num.num :=
  Math_log host (Math_tan host latRad + #1 / Math_cos host latRad).

Definition latLonToTile (lat lon : Num.num) (zoom : Z) : TileXY :=
  let latRad := (clampLat lat * Num.Math_PI) / #180 in
  let n := Num.pow2 zoom in
  let x := Num.Math_floor (((lon + #180) / #360) * n) in
  let y := Num.Math_floor ((#1 - mercatorLog latRad / Num.Math_PI) / #2 * n) in
  let maxIndex := n - #1 in
  {| x := Num.Math_min (Num.Math_max x #0) maxIndex;
     y := Num.Math_min (Num.Math_max y #0) maxIndex |}.

Definition computeBoundingBox (lat lon radiusMeters : Num.num) : BoundingBox :=
  let angularRadius := radiusMeters / EARTH_RADIUS_METERS in
  let latDelta := (angularRadius * #180) / Num.Math_PI in
  let lonDelta :=
    (angularRadius * #180)
    / (Num.Math_PI * Num.Math_max (Math_cos host ((lat * Num.Math_PI) / #180))
                                  (Num.decimal 1 6)) in
  {| minLat := lat - latDelta;
     maxLat := lat + latDelta;
     minLon := lon - lonDelta;
     maxLon := lon + lonDelta |}.
End Geodesy.

(* ================================================================== *)
(** ** Strings *)
(* ================================================================== *)

(** Strings are sequences of ASCII characters, which is what command-line
    zoom specifications and tile coordinates are made of; the white space
    of [trim] and [parseInt] is the ASCII part of the language's set. *)

Definition isEmpty (s : string) : bool :=
  match s with EmptyString => true | _ => false end.

Definition isWhiteSpace (c : ascii) : bool :=
  let n := nat_of_ascii c in
  ((9 <=? n) && (n <=? 13) || (n =? 32))%nat.

Definition isDigit (c : ascii) : bool :=
  let n := nat_of_ascii c in ((48 <=? n) && (n <=? 57))%nat.

Definition digitValue (c : ascii) : Z := (Z.of_nat (nat_of_ascii c) - 48)%Z.

Fixpoint trimStart (s : string) : string :=
  match s with
  | String c r => if isWhiteSpace c then trimStart r else s
  | EmptyString => EmptyString
  end.

Fixpoint trimEnd (s : string) : string :=
  match s with
  | String c r =>
      let r' := trimEnd r in
      if isWhiteSpace c && isEmpty r' then EmptyString else String c r'
  | EmptyString => EmptyString
  end.

Definition trim (s : string) : string := trimEnd (trimStart s).

(** [s.includes(c)] for a one-character [c]. *)
Fixpoint includes (c : ascii) (s : string) : bool :=
  match s with
  | String d r => Ascii.eqb d c || includes c r
  | EmptyString => false
  end.

(** [s.split(c)] for a one-character separator: never the empty list. *)
Fixpoint split (sep : ascii) (s : string) : list string :=
  match s with
  | EmptyString => [EmptyString]
  | String c r =>
      if Ascii.eqb c sep then EmptyString :: split sep r
      else match split sep r with
           | h :: t => String c h :: t
           | [] => [String c EmptyString]
           end
  end.

(** [s.startsWith(p)]. *)
Fixpoint startsWith (s p : string) : bool :=
  match p, s with
  | EmptyString, _ => true
  | String a p', String b s' => Ascii.eqb a b && startsWith s' p'
  | String _ _, EmptyString => false
  end.

(** The longest prefix of decimal digits, read as an integer, and whether
    there was a digit at all. *)
Fixpoint readDigits (acc : Z) (seen : bool) (s : string) : option Z :=
  match s with
  | String c r =>
      if isDigit c then readDigits (10 * acc + digitValue c)%Z true r
      else if seen then Some acc else None
  | EmptyString => if seen then Some acc else None
  end.

(** [parseInt(s, 10)]: leading white space and one sign are skipped, the
    digits that follow are read, anything after them is ignored.  Without a
    digit the result is NaN; otherwise it is the number nearest to the
    integer read, with the sign ([-0] for a negative sign before zeros).
    (Beyond 20 significant digits the language lets an engine read the
    further digits as zeros; the nearest number is what engines return.) *)
Definition parseInt (s : string) : Num.num :=
  let number (negative : bool) (r : string) :=
    match readDigits 0 false r with
    | Some mathInt => if negative then - #mathInt else #mathInt
    | None => Num.NaN
    end in
  match trimStart s with
  | String "-"%char r => number true r
  | String "+"%char r => number false r
  | r => number false r
  end.

(* ================================================================== *)
(** ** Loops *)
(* ================================================================== *)

(** [for (let i = lo; i <= hi; i += 1) body(i)] with a number as counter.
    Every test of the loop condition takes one unit of [fuel]; [None] means
    the fuel ran out before the loop ended. *)
Fixpoint forNum {S : Type} (fuel : nat) (i hi : Num.num)
    (body : Num.num -> S -> option S) (st : S) : option S :=
  match fuel with
  | O => None
  | Datatypes.S fuel' =>
      if i <=? hi then
        match body i st with
        | Some st' => forNum fuel' (i + #1) hi body st'
        | None => None
        end
      else Some st
  end.

(** [for (const zoom of zoomLevels) body(zoom)]. *)
Fixpoint forOf {A S : Type} (l : list A) (body : A -> S -> option S) (st : S)
  : option S :=
  match l with
  | [] => Some st
  | a :: t => match body a st with
              | Some st' => forOf t body st'
              | None => None
              end
  end.

(** How a piece of code ends: normally with a result, or by throwing. *)
Inductive Completion (A X : Type) : Type :=
| Normal (a : A)
| Throw (x : X).
Arguments Normal {A X}.
Arguments Throw {A X}.

(** The two loops with a body that may throw: a throw ends the loop at
    once.  [None] still means that the fuel ran out. *)
Fixpoint forNumT {S X : Type} (fuel : nat) (i hi : Num.num)
    (body : Num.num -> S -> option (Completion S X)) (st : S)
  : option (Completion S X) :=
  match fuel with
  | O => None
  | Datatypes.S fuel' =>
      if i <=? hi then
        match body i st with
        | Some (Normal st') => forNumT fuel' (i + #1) hi body st'
        | Some (Throw e) => Some (Throw e)
        | None => None
        end
      else Some (Normal st)
  end.

Fixpoint forOfT {A S X : Type} (l : list A)
    (body : A -> S -> option (Completion S X)) (st : S)
  : option (Completion S X) :=
  match l with
  | [] => Some (Normal st)
  | a :: t =>
      match body a st with
      | Some (Normal st') => forOfT t body st'
      | Some (Throw e) => Some (Throw e)
      | None => None
      end
  end.

(** [arr.flatMap(f)] for an [f] that may throw or not return: the
    elements are mapped from left to right. *)
Section FlatMap.
Context {A B X : Type}.
Variable f : A -> option (Completion (list B) X).

Fixpoint flatMap (arr : list A) : option (Completion (list B) X) :=
  match arr with
  | [] => Some (Normal [])
  | a :: t =>
      match f a with
      | Some (Normal r) =>
          match flatMap t with
          | Some (Normal r') => Some (Normal (r ++ r')%list)
          | other => other
          end
      | Some (Throw e) => Some (Throw e)
      | None => None
      end
  end.
End FlatMap.

(* ================================================================== *)
(** ** Command-line values and zoom parsing (download-tiles.js) *)
(* ================================================================== *)

(** The values an option can hold: absent, the bare flag ([true]), a
    string, and (for [parseZooms]) an array of such values. *)
#[warnings="-register-all"]
Inductive value : Type :=
| VUndefined
| VTrue
| VString (s : string)
| VArray (l : list value).

Fixpoint joinStrings (sep : string) (l : list string) : string :=
  match l with
  | [] => EmptyString
  | [s] => s
  | s :: t => (s ++ sep ++ joinStrings sep t)%string
  end.

(** [String(v)]; inside an array [undefined] prints as the empty string. *)
Fixpoint ToString (v : value) : string :=
  match v with
  | VUndefined => "undefined"%string
  | VTrue => "true"%string
  | VString s => s
  | VArray l =>
      joinStrings ","%string
        (map (fun e => match e with VUndefined => EmptyString | _ => ToString e end) l)
  end.

(** [!value]. *)
Definition falsy (v : value) : bool :=
  match v with
  | VUndefined => true
  | VString s => isEmpty s
  | _ => false
  end.

(** [value.length === 0]. *)
Definition lengthIsZero (v : value) : bool :=
  match v with
  | VString s => isEmpty s
  | VArray [] => true
  | _ => false
  end.

(** [arr.indexOf(z)]. *)
Fixpoint indexOf (z : Z) (arr : list Z) : option nat :=
  match arr with
  | [] => None
  | a :: t => if (a =? z)%Z then Some O else option_map S (indexOf z t)
  end.

(** [arr.filter((zoom, index, arr) => arr.indexOf(zoom) === index)]. *)
Definition keepFirstOccurrences (arr : list Z) : list Z :=
  map fst
    (filter (fun zi => match indexOf (fst zi) arr with
                       | Some j => (j =? snd zi)%nat
                       | None => false
                       end)
            (combine arr (seq 0 (List.length arr)))).

(** [arr.sort((a, b) => a - b)]. *)
Fixpoint insertSorted (z : Z) (l : list Z) : list Z :=
  match l with
  | [] => [z]
  | a :: t => if (z <? a)%Z then z :: l else a :: insertSorted z t
  end.

Definition sortAscending (l : list Z) : list Z :=
  fold_right insertSorted [] l.

(** Zoom levels are numbers with an integer value: results of [parseInt]
    that passed [Number.isFinite], and the counter of a loop that starts
    from one of them and adds 1.  An array of zoom levels is kept as the
    list of the integers they denote. *)
Definition zoomValues (arr : list Num.num) : list Z := map Num.to_Z arr.

(** The last statement of [parseZooms]:
    [stringValue.split(',').map((part) => parseInt(part.trim(), 10))
    .filter(Number.isFinite)]. *)
Definition commaList (stringValue : string) : list Z :=
  zoomValues
    (filter Num.isFinite
       (map (fun part => parseInt (trim part)) (split ","%char stringValue))).

(** The error that [parseZooms] can throw: [RangeError: Invalid array
    length]. *)
Inductive Thrown : Type :=
| RangeError.

(** [arr.push(a)] on an array that can hold [limit] elements: on a full
    array it throws [RangeError: Invalid array length]. *)
Definition push {A : Type} (limit : nat) (arr : list A) (a : A)
  : Completion (list A) Thrown :=
  if (List.length arr <? limit)%nat then Normal (arr ++ [a])%list
  else Throw RangeError.

(** The part of [parseZooms] that handles one string.  The loop that fills
    [range] takes its tests from [fuel]; it ends with the range, or with
    the error that [push] throws when the array is full. *)
Definition parseZoomString (limit fuel : nat) (stringValue : string)
  : option (Completion (list Z) Thrown) :=
  if includes "-"%char stringValue then
    match map parseInt (split "-"%char stringValue) with
    | start :: end_ :: _ =>
        if Num.isFinite start && Num.isFinite end_ && (start <=? end_) then
          match forNumT fuel start end_ (fun z range => Some (push limit range z)) [] with
          | Some (Normal range) => Some (Normal (zoomValues range))
          | Some (Throw e) => Some (Throw e)
          | None => None
          end
        else Some (Normal (commaList stringValue))
    | _ => Some (Normal (commaList stringValue))
    end
  else Some (Normal (commaList stringValue)).

(** [parseZooms], on a host whose arrays hold [limit] elements; [None]
    when the fuel did not suffice. *)
Fixpoint parseZooms (limit fuel : nat) (v : value)
  : option (Completion (list Z) Thrown) :=
  if falsy v || lengthIsZero v then Some (Normal DEFAULT_ZOOMS)
  else match v with
       | VArray l =>
           match flatMap (parseZooms limit fuel) l with
           | Some (Normal zooms) =>
               Some (Normal (sortAscending (keepFirstOccurrences zooms)))
           | other => other
           end
       | _ => parseZoomString limit fuel (trim (ToString v))
       end.

(* ================================================================== *)
(** ** The tile loop (download-tiles.js, [main]) *)
(* ================================================================== *)

(** A tile address: zoom, x, y. *)
Definition TileCoord : Type := (Z * Num.num * Num.num)%type.

Section TileLoop.
Variable host : Host.
Context {S : Type}.

(** The body of the loop over zoom levels: the tiles of the two corners
    of the box, the rectangle they span, and the walk over it, columns
    first ([x] ascending), each column top to bottom ([y] ascending). *)
Definition zoomBody (fuel : nat) (bbox : BoundingBox)
    (tileBody : TileCoord -> S -> S) (zoom : Z) (st : S) : option S :=
  let southWest := latLonToTile host (minLat bbox) (minLon bbox) zoom in
  let northEast := latLonToTile host (maxLat bbox) (maxLon bbox) zoom in
  let minX := Num.Math_min (x southWest) (x northEast) in
  let maxX := Num.Math_max (x southWest) (x northEast) in
  let minY := Num.Math_min (y southWest) (y northEast) in
  let maxY := Num.Math_max (y southWest) (y northEast) in
  forNum fuel minX maxX
    (fun x st =>
       forNum fuel minY maxY
         (fun y st => Some (tileBody (zoom, x, y) st)) st)
    st.

Definition tileLoop (fuel : nat) (bbox : BoundingBox) (zoomLevels : list Z)
    (tileBody : TileCoord -> S -> S) (st : S) : option S :=
  forOf zoomLevels (zoomBody fuel bbox tileBody) st.
End TileLoop.

(** The enumerator: the loop above with a body that only records the
    address it is given. *)
Definition enumerateTiles (host : Host) (fuel : nat) (bbox : BoundingBox)
    (zoomLevels : list Z) : option (list TileCoord) :=
  tileLoop host fuel bbox zoomLevels (fun t acc => acc ++ [t])%list [].

(* ================================================================== *)
(** ** Downloading one tile (download-tiles.js, [downloadTile]) *)
(* ================================================================== *)

(** A thrown error, as [downloadTile] looks at it: [error.message] and
    [String(error)]. *)
Record JsError : Type := { message : string; asString : string }.

(** [new Error(msg)]. *)
Definition newError (msg : string) : JsError :=
  {| message := msg; asString := ("Error: " ++ msg)%string |}.

Inductive Body : Type :=
| BodyBytes (bytes : list Byte.byte)
| BodyError (e : JsError).

(** What [await fetch(url)] gives: a rejection (transport error) or a
    response with its status line, and what [response.arrayBuffer()] gives
    in turn. *)
Inductive FetchOutcome : Type :=
| FetchRejected (e : JsError)
| FetchResponse (status : Z) (statusText : string) (body : Body).

(** [response.ok]. *)
Definition responseOk (status : Z) : bool :=
  ((200 <=? status) && (status <=? 299))%Z.

Record DownloadResult : Type := { success : bool; error : option string }.

(** The [catch] clause: [error.message || String(error)]. *)
Definition failed (e : JsError) : DownloadResult :=
  {| success := false;
     error := Some (if isEmpty (message e) then asString e else message e) |}.

Definition decimalOfZ (z : Z) : string :=
  DecimalString.NilZero.string_of_int (Z.to_int z).

(** The file system and the network are the environment's: a type of file
    system states with the two operations the downloader uses, each of
    which may change the state and may throw, and the outcome of the [n]-th
    request of the run. *)
Record Environment : Type := {
  FS : Type;
  mkdirRecursive : string -> FS -> FS * option JsError;
  writeFile : string -> list Byte.byte -> FS -> FS * option JsError;
  dirname : string -> string;
  fetch : nat -> string -> FetchOutcome
}.

Section DownloadTile.
Variable E : Environment.

(** [n] is the number of requests made before this one. *)
Definition downloadTile (n : nat) (url outputPath : string) (fs : FS E)
  : FS E * DownloadResult :=
  match fetch E n url with
  | FetchRejected e => (fs, failed e)
  | FetchResponse status statusText body =>
      if negb (responseOk status) then
        (fs, failed (newError ("HTTP " ++ decimalOfZ status ++ " " ++ statusText)%string))
      else
        match body with
        | BodyError e => (fs, failed e)
        | BodyBytes buffer =>
            match mkdirRecursive E (dirname E outputPath) fs with
            | (fs1, Some e) => (fs1, failed e)
            | (fs1, None) =>
                match writeFile E outputPath buffer fs1 with
                | (fs2, Some e) => (fs2, failed e)
                | (fs2, None) => (fs2, {| success := true; error := None |})
                end
            end
        end
  end.
End DownloadTile.

(* ================================================================== *)
(** ** Options and the state of the batch (download-tiles.js, [main]) *)
(* ================================================================== *)

(** [process.argv] after [parseArgs], and [process.env]. *)
Record Process : Type := {
  args : string -> value;
  env : string -> option string
}.

Definition getArg (p : Process) (name envName : string) : value :=
  match args p name with
  | VUndefined =>
      match env p envName with
      | Some s => VString s
      | None => VUndefined
      end
  | v => v
  end.

(** [args.zoom ?? process.env.DOWNLOAD_ZOOM_LEVELS]. *)
Definition zoomArgument (p : Process) : value :=
  match args p "zoom" with
  | VUndefined =>
      match env p "DOWNLOAD_ZOOM_LEVELS" with
      | Some s => VString s
      | None => VUndefined
      end
  | v => v
  end.

(** [Number(value)]. *)
Definition ToNumber (host : Host) (v : value) : Num.num :=
  match v with
  | VUndefined => Num.NaN
  | VTrue => #1
  | VString s => StringToNumber host s
  | VArray _ => StringToNumber host (ToString v)
  end.

(** [parseNumber]; [None] is [undefined]. *)
Definition parseNumber (host : Host) (v : value) (fallback : option Num.num)
  : option Num.num :=
  let number := ToNumber host v in
  if Num.isFinite number then Some number else fallback.

(** The radius option: [parseNumber(getArg("radius", ...), 5000)]. *)
Definition radiusArgument (host : Host) (p : Process) : Num.num :=
  match parseNumber host (getArg p "radius" "DOWNLOAD_RADIUS_METERS")
          (Some DEFAULT_RADIUS_METERS) with
  | Some r => r
  | None => DEFAULT_RADIUS_METERS
  end.

(** [Number.isFinite] on a value that may be [undefined]. *)
Definition Number_isFinite (v : option Num.num) : bool :=
  match v with
  | Some n => Num.isFinite n
  | None => false
  end.

(** The local variables of [main] that change, the file system, and a
    record of the calls of [downloadTile] with their results, in order. *)
Record Run (E : Environment) : Type := {
  fileSystem : FS E;
  requests : nat;
  successCount : Z;
  failureCount : Z;
  log : list (TileCoord * DownloadResult)
}.
Arguments fileSystem {E}.
Arguments requests {E}.
Arguments successCount {E}.
Arguments failureCount {E}.
Arguments log {E}.

(** What is left when [main] has returned. *)
Record Exit (E : Environment) : Type := {
  exitCode : Z;
  run : Run E
}.
Arguments exitCode {E}.
Arguments run {E}.

Section Main.
Variable E : Environment.
(** The request and the file name of a tile, which the body of the loop
    builds with [renderUrl] and [path.join] and hands to [downloadTile]. *)
Variable tileUrl : TileCoord -> string.
Variable tilePath : TileCoord -> string.

Definition start (fs : FS E) : Run E :=
  {| fileSystem := fs; requests := O; successCount := 0%Z;
     failureCount := 0%Z; log := [] |}.

(** The body of the innermost loop once the request and the file name
    are built: the download, and the counters. *)
Definition tileStep (t : TileCoord) (r : Run E) : Run E :=
  let '(fs', result) :=
    downloadTile E (requests r) (tileUrl t) (tilePath t) (fileSystem r) in
  {| fileSystem := fs';
     requests := Datatypes.S (requests r);
     successCount := if success result then (successCount r + 1)%Z else successCount r;
     failureCount := if success result then failureCount r else (failureCount r + 1)%Z;
     log := (log r ++ [(t, result)])%list |}.

End Main.

(* ================================================================== *)
(** ** Paths (Node's [path] module, POSIX flavour) *)
(* ================================================================== *)

Local Open Scope string_scope.

(** [normalizeString]: the segments between slashes are read from left to
    right; empty segments and ["."] are dropped, [".."] removes the segment
    before it (unless there is none or it is itself [".."], in which case
    it is kept when [allowAboveRoot] and dropped otherwise).  The stack is
    kept in reverse. *)
Definition normalizeStep (allowAboveRoot : bool) (stack : list string)
    (seg : string) : list string :=
  if isEmpty seg || String.eqb seg "." then stack
  else if String.eqb seg ".." then
    match stack with
    | top :: rest =>
        if String.eqb top ".." then
          (if allowAboveRoot then ".." :: stack else stack)
        else rest
    | [] => if allowAboveRoot then [".."] else []
    end
  else seg :: stack.

Definition normalizeSegments (allowAboveRoot : bool) (segs : list string)
  : list string :=
  rev (fold_left (normalizeStep allowAboveRoot) segs []).

Definition normalizeString (path : string) (allowAboveRoot : bool) : string :=
  joinStrings "/" (normalizeSegments allowAboveRoot (split "/"%char path)).

Definition isAbsolute (path : string) : bool := startsWith path "/".

Fixpoint endsWithSlash (path : string) : bool :=
  match path with
  | EmptyString => false
  | String c EmptyString => Ascii.eqb c "/"%char
  | String _ r => endsWithSlash r
  end.

(** [path.normalize]. *)
Definition path_normalize (path : string) : string :=
  if isEmpty path then "."
  else
    let trailingSeparator := endsWithSlash path in
    let p := normalizeString path (negb (isAbsolute path)) in
    if isEmpty p then
      (if isAbsolute path then "/" else if trailingSeparator then "./" else ".")
    else
      let p := if trailingSeparator then p ++ "/" else p in
      if isAbsolute path then "/" ++ p else p.

(** [path.join]. *)
Definition path_join (parts : list string) : string :=
  let joined := joinStrings "/" (filter (fun s => negb (isEmpty s)) parts) in
  if isEmpty joined then "." else path_normalize joined.

(** [path.resolve(p)] in the working directory [cwd] (an absolute path). *)
Definition path_resolve (cwd p : string) : string :=
  let resolvedPath :=
    if isEmpty p then cwd ++ "/"
    else if isAbsolute p then p ++ "/"
    else cwd ++ "/" ++ p ++ "/" in
  "/" ++ normalizeString resolvedPath false.

(* ================================================================== *)
(** ** The tile endpoint (tileserver.js) *)
(* ================================================================== *)

Definition ALLOWED_EXTENSIONS : list string := ["png"; "jpg"; "jpeg"; "webp"].

Fixpoint allDigits (s : string) : bool :=
  match s with
  | EmptyString => true
  | String c r => isDigit c && allDigits r
  end.

(** [/^\d+$/.test(value)]. *)
Definition isValidCoordinate (v : string) : bool :=
  negb (isEmpty v) && allDigits v.

Definition lowerChar (c : ascii) : ascii :=
  let n := nat_of_ascii c in
  if ((65 <=? n) && (n <=? 90))%nat then ascii_of_nat (n + 32) else c.

Fixpoint toLowerCase (s : string) : string :=
  match s with
  | EmptyString => EmptyString
  | String c r => String (lowerChar c) (toLowerCase r)
  end.

(** [ALLOWED_EXTENSIONS.has(extension)]. *)
Definition allowedExtension (extension : string) : bool :=
  existsb (String.eqb extension) ALLOWED_EXTENSIONS.

(** The outcome of [fs.access(path, R_OK)]: no error, or an error with its
    code. *)
Inductive AccessOutcome : Type :=
| AccessOk
| AccessError (code : string).

(** How [res.sendFile(path, options)] ends when it is called without a
    callback, as the handler calls it: the file is sent; or the path is a
    directory, and Express calls [next()]; or sending fails with another
    error, which Express passes to [next(err)]; or the connection is gone
    (an aborted request, a failed write) and nothing more happens. *)
Inductive SendOutcome : Type :=
| SendOk (bytes : list Byte.byte)
| SendIsDirectory
| SendError
| SendAborted.

(** What the server is started with and what it reads: the working
    directory, the directory of the script, the [TILE_SERVER_ROOT] setting,
    and the tile store, as [fs.access] and [res.sendFile] find it. *)
Record Server : Type := {
  cwd : string;
  scriptDir : string;
  TILE_SERVER_ROOT : option string;
  access : string -> AccessOutcome;
  sendFile : string -> SendOutcome
}.

Definition TILE_ROOT (srv : Server) : string :=
  path_resolve (cwd srv)
    match TILE_SERVER_ROOT srv with
    | Some s => if isEmpty s then path_join [scriptDir srv; "tiles"] else s
    | None => path_join [scriptDir srv; "tiles"]
    end.

(** The responses: a JSON object with an [error] field, the bytes of a
    tile, the page with which Express answers a request that no route has
    answered ([Cannot GET ...], status 404, HTML), and none at all. *)
Inductive Response : Type :=
| JsonError (status : Z) (error : string)
| TileBytes (status : Z) (bytes : list Byte.byte) (cacheControl : string)
| HtmlNotFound
| NoResponse.

(** What follows [fs.access] without an error: [res.sendFile] either
    sends the file; or calls [next()], after which no route is left and
    Express answers with its own 404 page; or calls [next(err)], which
    the error middleware answers with status 500. *)
Definition sendTile (srv : Server) (normalizedTilePath : string) : Response :=
  match sendFile srv normalizedTilePath with
  | SendOk bytes => TileBytes 200 bytes "public, max-age=86400, immutable"
  | SendIsDirectory => HtmlNotFound
  | SendError => JsonError 500 "Internal server error."
  | SendAborted => NoResponse
  end.

(** The handler of [GET /tiles/:z/:x/:y.:ext], the error middleware
    included: an error of [fs.access] other than [ENOENT] is passed to
    [next], and the middleware answers it with status 500. *)
Definition serveTile (srv : Server) (z x y ext : string) : Response :=
  if negb (isValidCoordinate z) || negb (isValidCoordinate x)
     || negb (isValidCoordinate y) then
    JsonError 400 "Coordinates must be non-negative integers."
  else
    let extension := toLowerCase ext in
    if negb (allowedExtension extension) then
      JsonError 415
        ("Unsupported tile extension '" ++ extension ++ "'. Allowed: "
         ++ joinStrings ", " ALLOWED_EXTENSIONS ++ ".")
    else
      let tilePath := path_join [TILE_ROOT srv; z; x; y ++ "." ++ extension] in
      let normalizedTilePath := path_normalize tilePath in
      if negb (startsWith normalizedTilePath (TILE_ROOT srv)) then
        JsonError 403 "Tile path escapes root directory."
      else
        match access srv normalizedTilePath with
        | AccessError code =>
            if String.eqb code "ENOENT" then JsonError 404 "Tile not found."
            else JsonError 500 "Internal server error."
        | AccessOk => sendTile srv normalizedTilePath
        end.

Local Open Scope num_scope.
Local Close Scope string_scope.

(* ================================================================== *)
(** ** A sample host *)
(* ================================================================== *)

(** One host to evaluate the model with: cosine, sine and logarithm by
    truncated power series (accurate on the latitudes of the projection),
    a reader of plain decimal numerals, and arrays of up to 65536
    elements.  It stands for no particular engine; the theorems hold for
    every host. *)

Fixpoint powerSeries (n : nat) (j : Z) (x2 term acc : Num.num) : Num.num :=
  match n with
  | O => acc
  | S n' =>
      let term' := - (term * x2 / #((j + 1) * (j + 2))) in
      powerSeries n' (j + 2)%Z x2 term' (acc + term')
  end.

Definition seriesCos (v : Num.num) : Num.num := powerSeries 14 0 (v * v) #1 #1.
Definition seriesSin (v : Num.num) : Num.num := powerSeries 14 1 (v * v) v v.
Definition seriesTan (v : Num.num) : Num.num := seriesSin v / seriesCos v.

Fixpoint atanhSeries (n : nat) (j : Z) (t2 power acc : Num.num) : Num.num :=
  match n with
  | O => acc
  | S n' =>
      let power' := power * t2 in
      atanhSeries n' (j + 2)%Z t2 power' (acc + power' / #(j + 2))
  end.

Definition LN2 : Num.num := Num.decimal 6931471805599453 16.

Definition seriesLog (v : Num.num) : Num.num :=
  match v with
  | S754_nan => Num.NaN
  | S754_zero _ => - Num.Infinity
  | S754_infinity false => Num.Infinity
  | S754_infinity true => Num.NaN
  | S754_finite true _ _ => Num.NaN
  | S754_finite false m e =>
      let d := Zpos (digits2_pos m) in
      let f := S754_finite false m (1 - d) in
      let t := (f - #1) / (f + #1) in
      #(e + d - 1) * LN2 + #2 * atanhSeries 24 1 (t * t) t t
  end.

Fixpoint countDigits (s : string) : Z :=
  match s with
  | String c r => if isDigit c then (1 + countDigits r)%Z else 0%Z
  | EmptyString => 0%Z
  end.

Fixpoint dropDigits (s : string) : string :=
  match s with
  | String c r => if isDigit c then dropDigits r else s
  | EmptyString => EmptyString
  end.

Definition unsignedDecimal (s : string) : Num.num :=
  match readDigits 0 false s with
  | None => Num.NaN
  | Some whole =>
      match dropDigits s with
      | EmptyString => #whole
      | String "."%char frac =>
          match readDigits whole true frac, dropDigits frac with
          | Some m, EmptyString =>
              if ((m <? 2 ^ 53) && (countDigits frac <=? 22))%Z
              then Num.decimal m (countDigits frac) else Num.NaN
          | _, _ => Num.NaN
          end
      | _ => Num.NaN
      end
  end.

Definition sampleStringToNumber (s : string) : Num.num :=
  match trim s with
  | EmptyString => #0
  | String "-"%char r => - unsignedDecimal r
  | String "+"%char r => unsignedDecimal r
  | t => unsignedDecimal t
  end.

Definition sampleHost : Host :=
  {| Math_cos := seriesCos; Math_tan := seriesTan; Math_log := seriesLog;
     StringToNumber := sampleStringToNumber;
     maxArrayLength := Nat.pow 2 16 |}.

(* ================================================================== *)
(** ** A sample environment *)
(* ================================================================== *)

Local Open Scope string_scope.

(** A file system that is a list of written files (newest first) and never
    fails, and a network whose second request is answered with 503 and all
    others with 200 and a one-byte body. *)
Definition sampleEnvironment : Environment :=
  {| FS := list (string * list Byte.byte);
     mkdirRecursive := fun _ fs => (fs, None);
     writeFile := fun path bytes fs => ((path, bytes) :: fs, None);
     dirname := fun path => joinStrings "/" (removelast (split "/"%char path));
     fetch := fun n _ =>
       if (n =? 1)%nat
       then FetchResponse 503 "Service Unavailable" (BodyBytes [])
       else FetchResponse 200 "OK" (BodyBytes [Byte.x89]) |}.

(** A network on which nothing can be reached. *)
Definition offlineEnvironment : Environment :=
  {| FS := list (string * list Byte.byte);
     mkdirRecursive := fun _ fs => (fs, None);
     writeFile := fun path bytes fs => ((path, bytes) :: fs, None);
     dirname := fun path => joinStrings "/" (removelast (split "/"%char path));
     fetch := fun _ _ => FetchRejected (newError "fetch failed") |}.



(** A tile store with one tile, 0/0/0.png, and a directory where a tile
    would be, 0/0/1.png. *)
Definition sampleServer : Server :=
  {| cwd := "/srv/app";
     scriptDir := "/srv/app";
     TILE_SERVER_ROOT := None;
     access := fun path =>
       if String.eqb path "/srv/app/tiles/0/0/0.png" then AccessOk
       else if String.eqb path "/srv/app/tiles/0/0/1.png" then AccessOk
       else AccessError "ENOENT";
     sendFile := fun path =>
       if String.eqb path "/srv/app/tiles/0/0/1.png" then SendIsDirectory
       else SendOk [Byte.x89] |}.

Local Close Scope string_scope.
Local Close Scope num_scope.

(* ================================================================== *)
(** ** The command line (download-tiles.js, [parseArgs]) *)
(* ================================================================== *)

Local Close Scope Z_scope.
Local Open Scope string_scope.

(** [s.slice(n)] for [n >= 0]. *)
Fixpoint slice (n : nat) (s : string) : string :=
  match n, s with
  | O, _ => s
  | S n', String _ r => slice n' r
  | S _, EmptyString => EmptyString
  end.

(** The own properties of the object that [parseArgs] fills: a name is
    mapped to its value, [VUndefined] when there is none. *)
Definition Properties : Type := string -> value.

Definition emptyObject : Properties := fun _ => VUndefined.

(** [result[key] = v] on an object created by [{}]: the assignment defines
    or overwrites an own property, except for the key [__proto__], where it
    runs the setter of [Object.prototype], which ignores a value that is
    neither an object nor null. *)
Definition setProperty (result : Properties) (key : string) (v : value) : Properties :=
  if String.eqb key "__proto__" then result
  else fun name => if String.eqb name key then v else result name.

(** The loop of [parseArgs] over the arguments that are left. *)
Fixpoint parseArgsLoop (args : list string) (result : Properties) : Properties :=
  match args with
  | [] => result
  | arg :: rest =>
      if negb (startsWith arg "--") then parseArgsLoop rest result
      else
        let keyValue := split "="%char (slice 2 arg) in
        let key := hd EmptyString keyValue in
        if (1 <? List.length keyValue)%nat then
          parseArgsLoop rest
            (setProperty result key (VString (joinStrings "=" (tl keyValue))))
        else
          match rest with
          | next :: rest' =>
              if isEmpty next || startsWith next "--" then
                parseArgsLoop rest (setProperty result key VTrue)
              else parseArgsLoop rest' (setProperty result key (VString next))
          | [] => setProperty result key VTrue
          end
  end.

(** [parseArgs()], given [process.argv]: the own properties of the
    object it returns. *)
Definition parseArgs (argv : list string) : Properties :=
  parseArgsLoop (skipn 2 argv) emptyObject.

(** The names that [Object.prototype] defines; an object created by [{}]
    inherits them. *)
Definition OBJECT_PROTOTYPE_KEYS : list string :=
  ["constructor"; "__defineGetter__"; "__defineSetter__"; "hasOwnProperty";
   "__lookupGetter__"; "__lookupSetter__"; "isPrototypeOf";
   "propertyIsEnumerable"; "toString"; "valueOf"; "__proto__"; "toLocaleString"].

Definition inherited (name : string) : bool :=
  existsb (String.eqb name) OBJECT_PROTOTYPE_KEYS.

(** What [result[name]] gives: the own property when there is one;
    otherwise the member of [Object.prototype] of that name (a function,
    or the prototype itself for [__proto__]), which is not [undefined];
    and [undefined] when there is neither. *)
Inductive Read : Type :=
| Value (v : value)
| PrototypeMember.

Definition readProperty (result : Properties) (name : string) : Read :=
  match result name with
  | VUndefined => if inherited name then PrototypeMember else Value VUndefined
  | v => Value v
  end.

(** The names at which the script reads the parsed arguments. *)
Definition OPTION_NAMES : list string :=
  ["lat"; "lon"; "radius"; "zoom"; "source"; "output"; "ext"; "subdomains"].

(** The process of a command line and an environment.  The script reads
    the parsed arguments at the names of [OPTION_NAMES] only, none of
    which [Object.prototype] defines, so what it reads is the own
    property or [undefined]. *)
Definition processOf (argv : list string) (environment : string -> option string)
  : Process :=
  {| args := parseArgs argv; env := environment |}.

(* ================================================================== *)
(** ** Requests and files of the tiles (download-tiles.js, [renderUrl], [main]) *)
(* ================================================================== *)

Definition DEFAULT_SOURCE : string := "https://tile.openstreetmap.org/{z}/{x}/{y}.png".
Definition DEFAULT_EXT : string := "png".

(** [String(v)] for a number [v].  A safe integer (below 2^53 in magnitude)
    prints as its decimal digits; [other] stands for the digits of the
    finite numbers that are left (fractions, and integers from 2^53 on,
    which print through their shortest round-trip digits). *)
Definition numberToString (other : Num.num -> string) (v : Num.num) : string :=
  match v with
  | S754_nan => "NaN"
  | S754_infinity false => "Infinity"
  | S754_infinity true => "-Infinity"
  | S754_zero _ => "0"
  | S754_finite _ _ _ =>
      match Num.integerValue v with
      | Some k => if (Z.abs k <? 2 ^ 53)%Z then decimalOfZ k else other v
      | None => other v
      end
  end.

(** [GetSubstitution] for a pattern that is a string (no captures): in
    the replacement, [$$] is a dollar sign, [$&] the matched text, [$`]
    the text before the match and [$'] the text after it; every other
    character, a dollar sign before anything else included, stands for
    itself. *)
Fixpoint getSubstitution (matched before after replacement : string) : string :=
  match replacement with
  | EmptyString => EmptyString
  | String c r =>
      if Ascii.eqb c "$" then
        match r with
        | String d r' =>
            if Ascii.eqb d "$" then String "$" (getSubstitution matched before after r')
            else if Ascii.eqb d "`" then before ++ getSubstitution matched before after r'
            else if Ascii.eqb d "&" then matched ++ getSubstitution matched before after r'
            else if Ascii.eqb d "'" then after ++ getSubstitution matched before after r'
            else String c (getSubstitution matched before after r)
        | EmptyString => String c EmptyString
        end
      else String c (getSubstitution matched before after r)
  end.

(** The scan of [replace] and [replaceAll] for a non-empty search string:
    [before] is the text already passed, [skip] the number of characters
    of a match that are still to be dropped, [active] whether a match is
    still looked for. *)
Fixpoint replaceScan (search replaceValue : string) (all : bool)
    (before : string) (skip : nat) (active : bool) (s : string) : string :=
  match s with
  | EmptyString => EmptyString
  | String c r =>
      match skip with
      | S skip' =>
          replaceScan search replaceValue all (before ++ String c EmptyString) skip' active r
      | O =>
          if active && startsWith s search then
            getSubstitution search before (slice (String.length search) s) replaceValue
            ++ replaceScan search replaceValue all (before ++ String c EmptyString)
                 (String.length search - 1) all r
          else
            String c
              (replaceScan search replaceValue all (before ++ String c EmptyString) 0 active r)
      end
  end.

(** [s.replaceAll(search, replaceValue)] and [s.replace(search, replaceValue)]
    for strings [search] (not empty) and [replaceValue]. *)
Definition replaceAll (s search replaceValue : string) : string :=
  replaceScan search replaceValue true EmptyString 0 true s.

Definition replaceFirst (s search replaceValue : string) : string :=
  replaceScan search replaceValue false EmptyString 0 true s.

(** [renderUrl(template, { z, x, y, s, ext })]; [s] is [None] for
    [undefined]. *)
Definition renderUrl (other : Num.num -> string) (template : string)
    (z : Z) (x y : Num.num) (s : option string) (ext : string) : string :=
  replaceAll
    (replaceAll
       (replaceAll
          (replaceAll
             (replaceAll template "{z}" (numberToString other (Num.of_Z z)))
             "{x}" (numberToString other x))
          "{y}" (numberToString other y))
       "{s}" (match s with Some v => v | None => EmptyString end))
    "{ext}" ext.

(** [arr.indexOf(v)] on strings. *)
Fixpoint indexOfString (v : string) (arr : list string) : option nat :=
  match arr with
  | [] => None
  | a :: t => if String.eqb a v then Some O else option_map S (indexOfString v t)
  end.

(** [arr.filter(unique)], where
    [unique = (value, index, array) => array.indexOf(value) === index]. *)
Definition unique (arr : list string) : list string :=
  map fst
    (filter (fun vi => match indexOfString (fst vi) arr with
                       | Some j => (j =? snd vi)%nat
                       | None => false
                       end)
            (combine arr (seq 0 (List.length arr)))).

(** The subdomains of [main]:
    [s.split(',').map((value) => value.trim()).filter(Boolean).filter(unique)]. *)
Definition subdomainsOf (s : string) : list string :=
  unique (filter (fun v => negb (isEmpty v)) (map trim (split ","%char s))).

(** [a % b]. *)
Definition remainder (a b : Num.num) : Num.num :=
  match a, b with
  | S754_nan, _ | _, S754_nan => Num.NaN
  | S754_infinity _, _ => Num.NaN
  | _, S754_zero _ => Num.NaN
  | S754_zero _, _ => a
  | S754_finite _ _ _, S754_infinity _ => a
  | S754_finite sa ma ea, S754_finite _ mb eb =>
      let e := Z.min ea eb in
      let r := ((Zpos ma * 2 ^ (ea - e)) mod (Zpos mb * 2 ^ (eb - e)))%Z in
      if (r =? 0)%Z then S754_zero sa
      else binary_normalize Num.prec Num.emax (cond_Zopp sa r) e false
  end.

(** [arr[index]] for a number [index]: the element when the index is an
    integer within the array, [undefined] otherwise. *)
Definition elementAt (arr : list string) (index : Num.num) : option string :=
  match Num.integerValue index with
  | Some k => if (0 <=? k)%Z then nth_error arr (Z.to_nat k) else None
  | None => None
  end.

(** The subdomain of a tile:
    [subdomains.length > 0 ? subdomains[(x + y) % subdomains.length] : undefined]. *)
Definition subdomainOf (subdomains : list string) (x y : Num.num) : option string :=
  if (0 <? List.length subdomains)%nat then
    elementAt subdomains
      (remainder (Num.add x y) (Num.of_Z (Z.of_nat (List.length subdomains))))
  else None.

(** The file of a tile:
    [path.join(outputDir, String(zoom), String(x), `${y}.${tileExt}`)]. *)
Definition outputPathOf (other : Num.num -> string) (outputDir tileExt : string)
    (zoom : Z) (x y : Num.num) : string :=
  path_join [outputDir; numberToString other (Num.of_Z zoom); numberToString other x;
             numberToString other y ++ "." ++ tileExt].

(* ================================================================== *)
(** ** The downloader as a script (download-tiles.js) *)
(* ================================================================== *)

(** [v || d] for a string [d]. *)
Definition orDefault (v : value) (d : string) : value :=
  if falsy v then VString d else v.

(** The options that [main] resolves after the zoom levels. *)
Record Options : Type := {
  sourceTemplate : value;
  outputDir : string;
  tileExt : string;
  subdomains : list string
}.

Section Script.
Variable host : Host.
Variable E : Environment.
(** The digits of the numbers that are not safe integers. *)
Variable other : Num.num -> string.
(** [process.cwd()] and [__dirname]. *)
Variable cwd scriptDir : string.

Definition DEFAULT_OUTPUT_DIR : string := path_join [scriptDir; ".."; "tiles"].

(** The four options; [None] when one of the calls throws a TypeError:
    [path.resolve], [.replace] and [.split] on a value that is not a
    string. *)
Definition resolveOptions (p : Process) : option Options :=
  let source := orDefault (getArg p "source" "DOWNLOAD_SOURCE_URL_TEMPLATE") DEFAULT_SOURCE in
  match orDefault (getArg p "output" "DOWNLOAD_OUTPUT_DIR") DEFAULT_OUTPUT_DIR,
        orDefault (getArg p "ext" "DOWNLOAD_TILE_EXT") DEFAULT_EXT,
        orDefault (getArg p "subdomains" "DOWNLOAD_SUBDOMAINS") EmptyString with
  | VString output, VString ext, VString subs =>
      Some {| sourceTemplate := source;
              outputDir := path_resolve cwd output;
              tileExt := replaceFirst ext "." EmptyString;
              subdomains := subdomainsOf subs |}
  | _, _, _ => None
  end.

(** The request and the file of a tile, for a template that is a string. *)
Definition tileUrlOf (template : string) (o : Options) (t : TileCoord) : string :=
  let '(zoom, x, y) := t in
  renderUrl other template zoom x y (subdomainOf (subdomains o) x y) (tileExt o).

Definition tilePathOf (o : Options) (t : TileCoord) : string :=
  let '(zoom, x, y) := t in
  outputPathOf other (outputDir o) (tileExt o) zoom x y.

(** The body of the innermost loop: [renderUrl] throws a TypeError when
    the template is not a string, before anything is requested. *)
Definition tileBody (o : Options) (t : TileCoord) (r : Run E)
  : Completion (Run E) (Run E) :=
  match sourceTemplate o with
  | VString template => Normal (tileStep E (tileUrlOf template o) (tilePathOf o) t r)
  | _ => Throw r
  end.

Definition zoomBodyT (fuel : nat) (bbox : BoundingBox) (o : Options)
    (zoom : Z) (st : Run E) : option (Completion (Run E) (Run E)) :=
  let southWest := latLonToTile host (minLat bbox) (minLon bbox) zoom in
  let northEast := latLonToTile host (maxLat bbox) (maxLon bbox) zoom in
  let minX := Num.Math_min (x southWest) (x northEast) in
  let maxX := Num.Math_max (x southWest) (x northEast) in
  let minY := Num.Math_min (y southWest) (y northEast) in
  let maxY := Num.Math_max (y southWest) (y northEast) in
  forNumT fuel minX maxX
    (fun x st =>
       forNumT fuel minY maxY
         (fun y st => Some (tileBody o (zoom, x, y) st)) st)
    st.

(** [main].  It ends normally, with [process.exitCode] as it leaves it
    (status 0 when it is left unset: the coordinates are usable, there is
    a zoom level and no tile failed), or it throws, with the run as far
    as it got: an error thrown by [parseZooms], by the calls on an option
    that is not a string, or by [renderUrl]. *)
Definition main (fuel : nat) (p : Process) (fs : FS E)
  : option (Completion (Exit E) (Run E)) :=
  let lat := parseNumber host (getArg p "lat" "DOWNLOAD_LAT") None in
  let lon := parseNumber host (getArg p "lon" "DOWNLOAD_LON") None in
  if negb (Number_isFinite lat) || negb (Number_isFinite lon) then
    Some (Normal {| exitCode := 1%Z; run := start E fs |})
  else
    match lat, lon with
    | Some lat, Some lon =>
        let radiusMeters := radiusArgument host p in
        match parseZooms (maxArrayLength host) fuel (zoomArgument p) with
        | Some (Normal zoomLevels) =>
            if (List.length zoomLevels =? 0)%nat then
              Some (Normal {| exitCode := 1%Z; run := start E fs |})
            else
              match resolveOptions p with
              | None => Some (Throw (start E fs))
              | Some o =>
                  let bbox := computeBoundingBox host lat lon radiusMeters in
                  match forOfT zoomLevels (zoomBodyT fuel bbox o) (start E fs) with
                  | Some (Normal r) =>
                      Some (Normal
                              {| exitCode := if (0 <? failureCount r)%Z then 1%Z else 0%Z;
                                 run := r |})
                  | Some (Throw r) => Some (Throw r)
                  | None => None
                  end
              end
        | Some (Throw _) => Some (Throw (start E fs))
        | None => None
        end
    | _, _ => Some (Normal {| exitCode := 1%Z; run := start E fs |})
    end.

(** [main().catch(...)]: the handler sets exit code 1. *)
Definition script (fuel : nat) (p : Process) (fs : FS E) : option (Exit E) :=
  match main fuel p fs with
  | Some (Normal e) => Some e
  | Some (Throw r) => Some {| exitCode := 1%Z; run := r |}
  | None => None
  end.

End Script.

(* ================================================================== *)
(** ** The page of the web server ([injectConfigScript]) *)
(* ================================================================== *)

(** [s.includes(p)] for a string [p]. *)
Fixpoint includesString (s p : string) : bool :=
  startsWith s p
  || match s with
     | String _ r => includesString r p
     | EmptyString => false
     end.

(** The line feed and the double quote of the script tags. *)
Definition lineFeed : string := String (ascii_of_nat 10) EmptyString.
Definition doubleQuote : string := String (ascii_of_nat 34) EmptyString.

Definition scriptTag (src : string) : string :=
  "<script src=" ++ doubleQuote ++ src ++ doubleQuote ++ "></script>".

(** [injectConfigScript(html)]. *)
Definition injectConfigScript (html : string) : string :=
  if includesString html "/config.js" then html
  else
    replaceFirst html (scriptTag "./renderer.js")
      (scriptTag "/config.js" ++ lineFeed ++ "    " ++ scriptTag "./renderer.js").

Local Close Scope string_scope.
Local Open Scope Z_scope.

(* ================================================================== *)
(** ** Notions used in the statements and proofs *)
(* ================================================================== *)

(** The representation of a non-zero integer [k] below [2^53] in
    magnitude: a mantissa of exactly 53 bits and the matching exponent. *)
Definition mant53 (k : Z) : positive :=
  Z.to_pos (Z.abs k * 2 ^ (52 - Z.log2 (Z.abs k))).

Definition exp53 (k : Z) : Z := Z.log2 (Z.abs k) - 52.

Definition canon (k : Z) : Num.num :=
  if k =? 0 then S754_zero false else S754_finite (k <? 0) (mant53 k) (exp53 k).

Definition isFiniteNonzero (v : Num.num) : bool :=
  match v with S754_finite _ _ _ => true | _ => false end.

(** A number that is not NaN and has sign [s]. *)
Definition signed (s : bool) (v : Num.num) : Prop :=
  v = S754_zero s \/ v = S754_infinity s \/ exists m e, v = S754_finite s m e.

Definition num_eq_dec (a b : Num.num) : {a = b} + {a <> b}.
Proof.
  decide equality; try apply Bool.bool_dec; try apply Z.eq_dec; apply Pos.eq_dec.
Defined.

Definition num_eqb (a b : Num.num) : bool := if num_eq_dec a b then true else false.

(** The zoom levels at which [2 ** zoom - 1] is exact. *)
Definition pow2_check (z : Z) : bool :=
  isFiniteNonzero (Num.pow2 z)
  && num_eqb (Num.sub (Num.pow2 z) (Num.of_Z 1)) (Num.of_Z (2 ^ z - 1)).

(** The integers from [start] to [end_], both included, in ascending
    order. *)
Definition rangeInclusive (start end_ : Z) : list Z :=
  map (fun i => (start + Z.of_nat i)%Z) (seq 0 (Z.to_nat (end_ - start + 1))).

(** Whether the first two dash-separated parts of a string are the ends of
    an ascending range: the test of [parseZooms] before it fills [range]. *)
Definition ascendingRange (stringValue : string) : bool :=
  match map parseInt (split "-"%char stringValue) with
  | start :: end_ :: _ =>
      Num.isFinite start && Num.isFinite end_ && Num.leb start end_
  | _ => false
  end.

(** Modelled from the spec: the tiles of an inclusive rectangle of indices,
    every pair once, in ascending x then ascending y order: columns
    by ascending [x], each column by ascending [y]. *)
Definition rectangle (zoom x0 x1 y0 y1 : Z) : list TileCoord :=
  flat_map (fun i => map (fun j => (zoom, Num.of_Z i, Num.of_Z j)) (rangeInclusive y0 y1))
           (rangeInclusive x0 x1).

(** Modelled from the spec: the bounding box of the formula, given the cosine of
    the centre latitude. *)
Definition boundingBox_spec (cosLat lat lon radiusMeters : Num.num) : BoundingBox :=
  let angularRadius := (radiusMeters / Num.decimal 63710088 1)%num in
  let latDelta := (angularRadius * Num.of_Z 180 / Num.Math_PI)%num in
  let lonDelta :=
    (angularRadius * Num.of_Z 180
     / (Num.Math_PI * Num.Math_max cosLat (Num.decimal 1 6)))%num in
  {| minLat := (lat - latDelta)%num; maxLat := (lat + latDelta)%num;
     minLon := (lon - lonDelta)%num; maxLon := (lon + lonDelta)%num |}.



(** A path segment that normalisation keeps as it is. *)
Definition plainSegment (seg : string) : bool :=
  negb (isEmpty seg) && negb (String.eqb seg ".") && negb (String.eqb seg "..")
  && negb (includes "/"%char seg).

(** What the language prescribes of [Math.tan] and [Math.cos] at the two
    zeros: [Math.tan] returns its argument and [Math.cos] returns 1. *)
Definition exactAtZero (host : Host) : Prop :=
  forall s : bool,
    Math_tan host (S754_zero s) = S754_zero s /\
    Math_cos host (S754_zero s) = Num.of_Z 1.

(** Inputs for the examples: a centre in San Francisco, the box of 5000 m
    around it, and a box that is one point on the antimeridian. *)
Definition sampleLat : Num.num := Num.decimal 377749 4.
Definition sampleLon : Num.num := Num.neg (Num.decimal 1224194 4).
Definition sampleBox : BoundingBox :=
  computeBoundingBox sampleHost sampleLat sampleLon (Num.of_Z 5000).
Definition antimeridianBox : BoundingBox :=
  {| minLat := Num.of_Z 0; maxLat := Num.of_Z 0;
     minLon := Num.of_Z 180; maxLon := Num.of_Z 180 |}.

Local Open Scope string_scope.

(** The response in terms of the file of a tile: what [fs.access] and
    then [res.sendFile] make of it. *)
Definition tileResponse (srv : Server) (file : string) : Response :=
  match access srv file with
  | AccessError code =>
      if String.eqb code "ENOENT" then JsonError 404 "Tile not found."
      else JsonError 500 "Internal server error."
  | AccessOk =>
      match sendFile srv file with
      | SendOk bytes => TileBytes 200 bytes "public, max-age=86400, immutable"
      | SendIsDirectory => HtmlNotFound
      | SendError => JsonError 500 "Internal server error."
      | SendAborted => NoResponse
      end
  end.

(** A string of white space only. *)
Fixpoint allWhiteSpace (s : string) : bool :=
  match s with
  | EmptyString => true
  | String c r => isWhiteSpace c && allWhiteSpace r
  end.

(** The values that [parseArgs] stores: [true] or a string. *)
Definition notArray (v : value) : Prop :=
  v = VUndefined \/ v = VTrue \/ exists s, v = VString s.

(** An argument that is a flag. *)
Definition isFlag (arg : string) : bool := startsWith arg "--".

(** The key that a flag names. *)
Definition flagKey (arg : string) : string :=
  hd EmptyString (split "="%char (slice 2 arg)).

(** The argument is a flag for [key]. *)
Definition names (key : string) (arg : string) : bool :=
  isFlag arg && String.eqb (flagKey arg) key.


(** The two tags that take the place of the renderer tag. *)
Definition CONFIG_AND_RENDERER : string :=
  scriptTag "/config.js" ++ lineFeed ++ "    " ++ scriptTag "./renderer.js".

(** Inputs for the examples: the command line of the example, a printer
    for the numbers that are not safe integers, and the options that the
    command line resolves to in /home/user/app. *)
Definition sampleArgv : list string :=
  ["node"; "scripts/download-tiles.js"; "--lat"; "37.7749"; "--lon"; "-122.4194";
   "--radius"; "5000"; "--zoom"; "12"; "--zoom"; "13"].

Definition noDigits : Num.num -> string := fun _ => EmptyString.




Local Close Scope string_scope.

(* ================================================================== *)
(** * Properties *)
(* ================================================================== *)

Import Num.

(** ** Rounding of binary64 values *)

Lemma digits2_pos_bounds (p : positive) :
  2 ^ (Zpos (digits2_pos p) - 1) <= Zpos p < 2 ^ Zpos (digits2_pos p).
Proof.
  induction p as [p IH | p IH | ]; cbn [digits2_pos].
  - rewrite Pos2Z.inj_succ.
    replace (Z.succ (Zpos (digits2_pos p)) - 1) with (Z.succ (Zpos (digits2_pos p) - 1)) by lia.
    rewrite !Z.pow_succ_r by lia. lia.
  - rewrite Pos2Z.inj_succ.
    replace (Z.succ (Zpos (digits2_pos p)) - 1) with (Z.succ (Zpos (digits2_pos p) - 1)) by lia.
    rewrite !Z.pow_succ_r by lia. lia.
  - cbn. lia.
Qed.

Lemma digits2_pos_log2 (p : positive) :
  Zpos (digits2_pos p) = Z.log2 (Zpos p) + 1.
Proof.
  pose proof (digits2_pos_bounds p) as [Hl Hu].
  assert (Z.log2 (Zpos p) = Zpos (digits2_pos p) - 1); [ | lia ].
  apply Z.log2_unique; [ lia | ].
  replace (Z.succ (Zpos (digits2_pos p) - 1)) with (Zpos (digits2_pos p)) by lia.
  split; assumption.
Qed.

Lemma iter_pos_nat {A} (f : A -> A) (p : positive) (x : A) :
  iter_pos f p x = Nat.iter (Pos.to_nat p) f x.
Proof.
  revert x. induction p as [p IH | p IH | ]; intro x; cbn [iter_pos].
  - rewrite !IH, Pos2Nat.inj_xI.
    replace (S (2 * Pos.to_nat p))%nat with (Pos.to_nat p + (Pos.to_nat p + 1))%nat by lia.
    rewrite !Nat.iter_add. reflexivity.
  - rewrite !IH, Pos2Nat.inj_xO.
    replace (2 * Pos.to_nat p)%nat with (Pos.to_nat p + Pos.to_nat p)%nat by lia.
    rewrite Nat.iter_add. reflexivity.
  - reflexivity.
Qed.

Lemma shr_1_m (r : shr_record) :
  0 <= shr_m r -> shr_m (shr_1 r) = Z.div2 (shr_m r).
Proof.
  destruct r as [m b s]; cbn [shr_m]. intro H.
  destruct m as [ | [p | p | ] | p ]; cbn; try reflexivity; lia.
Qed.

Lemma shr_iter_m (n : nat) (r : shr_record) :
  0 <= shr_m r -> shr_m (Nat.iter n shr_1 r) = shr_m r / 2 ^ Z.of_nat n.
Proof.
  intro H. induction n as [ | n IH ].
  - cbn. rewrite Z.div_1_r. reflexivity.
  - rewrite Nat.iter_succ, shr_1_m.
    + rewrite IH, Z.div2_div, Z.div_div by lia.
      rewrite Nat2Z.inj_succ, Z.pow_succ_r by lia.
      f_equal. lia.
    + rewrite IH. apply Z.div_pos; lia.
Qed.

Lemma shr_1_double (q : Z) :
  0 <= q ->
  shr_1 (Build_shr_record (2 * q) false false) = Build_shr_record q false false.
Proof. intro H. destruct q as [ | q | q ]; [ reflexivity | reflexivity | lia ]. Qed.

Lemma shr_iter_exact (n : nat) (m : Z) :
  0 <= m ->
  Nat.iter n shr_1 (Build_shr_record (m * 2 ^ Z.of_nat n) false false)
  = Build_shr_record m false false.
Proof.
  intro H. induction n as [ | n IH ].
  - cbn. f_equal. lia.
  - rewrite Nat2Z.inj_succ, Z.pow_succ_r by lia.
    replace (S n) with (n + 1)%nat by lia.
    rewrite Nat.iter_add.
    change (Nat.iter 1 shr_1 ?r) with (shr_1 r).
    replace (m * (2 * 2 ^ Z.of_nat n)) with (2 * (m * 2 ^ Z.of_nat n)) by lia.
    rewrite shr_1_double by lia. exact IH.
Qed.

Lemma shr_record_of_loc_m (m : Z) (l : location) :
  shr_m (shr_record_of_loc m l) = m.
Proof. destruct l as [ | [ | | ] ]; reflexivity. Qed.

Lemma shr_nonneg (r : shr_record) (e n : Z) :
  0 <= shr_m r -> 0 <= shr_m (fst (shr r e n)).
Proof.
  intro H. destruct n as [ | p | p ]; cbn [shr fst]; try assumption.
  rewrite iter_pos_nat, shr_iter_m by assumption.
  apply Z.div_pos; lia.
Qed.

Lemma shr_fexp_nonneg (m e : Z) (l : location) :
  0 <= m -> 0 <= shr_m (fst (shr_fexp prec emax m e l)).
Proof.
  intro H. unfold shr_fexp. apply shr_nonneg.
  rewrite shr_record_of_loc_m. assumption.
Qed.

Lemma round_nearest_even_bounds (m : Z) (l : location) :
  m <= round_nearest_even m l <= m + 1.
Proof.
  destruct l as [ | [ | | ] ]; cbn; try lia.
  destruct (Z.even m); lia.
Qed.

(** Rounding a non-negative mantissa never produces NaN. *)
Lemma binary_round_aux_not_nan (s : bool) (m e : Z) (l : location) :
  0 <= m -> isNaN (binary_round_aux prec emax s m e l) = false.
Proof.
  intro H. unfold binary_round_aux.
  pose proof (shr_fexp_nonneg m e l H) as H1.
  destruct (shr_fexp prec emax m e l) as [r1 e1]. cbn [fst] in H1.
  pose proof (round_nearest_even_bounds (shr_m r1) (loc_of_shr_record r1)) as Hr.
  pose proof (shr_fexp_nonneg (round_nearest_even (shr_m r1) (loc_of_shr_record r1))
                e1 loc_Exact ltac:(lia)) as H2.
  destruct (shr_fexp prec emax _ e1 loc_Exact) as [r2 e2]. cbn [fst] in H2.
  destruct (shr_m r2) as [ | q | q ]; [ reflexivity | | lia ].
  destruct (e2 <=? emax - prec); reflexivity.
Qed.

Lemma binary_round_not_nan (s : bool) (m : positive) (e : Z) :
  isNaN (binary_round prec emax s m e) = false.
Proof.
  unfold binary_round.
  destruct (shl_align m e _) as [mz ez].
  apply binary_round_aux_not_nan. lia.
Qed.

Lemma binary_normalize_not_nan (m e : Z) (sz : bool) :
  isNaN (binary_normalize prec emax m e sz) = false.
Proof.
  destruct m; cbn [binary_normalize]; [ reflexivity | | ]; apply binary_round_not_nan.
Qed.

Lemma of_Z_not_nan (k : Z) : isNaN (of_Z k) = false.
Proof. apply binary_normalize_not_nan. Qed.

(** Sums, differences, products and quotients: NaN only comes from NaN
    operands or from the indeterminate forms. *)
Lemma add_not_nan (a b : num) :
  isNaN a = false -> isNaN b = false -> isFinite a || isFinite b = true ->
  isNaN (add a b) = false.
Proof.
  destruct a as [sa | sa | | sa ma ea], b as [sb | sb | | sb mb eb];
    cbn; try discriminate; try reflexivity; intros _ _ _.
  - destruct sa, sb; reflexivity.
  - apply binary_normalize_not_nan.
Qed.

Lemma sub_not_nan (a b : num) :
  isNaN a = false -> isNaN b = false -> isFinite a || isFinite b = true ->
  isNaN (sub a b) = false.
Proof.
  destruct a as [sa | sa | | sa ma ea], b as [sb | sb | | sb mb eb];
    cbn; try discriminate; try reflexivity; intros _ _ _.
  - destruct sa, sb; reflexivity.
  - apply binary_normalize_not_nan.
Qed.

Lemma mul_not_nan (a : num) (sb : bool) (mb : positive) (eb : Z) :
  isNaN a = false -> isNaN (mul a (S754_finite sb mb eb)) = false.
Proof.
  destruct a as [sa | sa | | sa ma ea]; cbn; try discriminate; try reflexivity.
  intros _. apply binary_round_aux_not_nan. lia.
Qed.

Lemma SFdiv_core_nonneg (m1 m2 : positive) (e1 e2 : Z) :
  0 <= fst (fst (SFdiv_core_binary prec emax (Zpos m1) e1 (Zpos m2) e2)).
Proof.
  unfold SFdiv_core_binary.
  set (s := _ - _ - _).
  set (m' := match s with Z0 => _ | Zpos _ => _ | Zneg _ => _ end).
  assert (Hm' : 0 <= m').
  { subst m'. destruct s; try lia. apply Z.shiftl_nonneg. lia. }
  pose proof (Z_div_mod m' (Zpos m2) ltac:(lia)) as Hd.
  destruct (Z.div_eucl m' (Zpos m2)) as [q r]. cbn [fst].
  destruct Hd as [Hq Hr]. nia.
Qed.

Lemma div_not_nan (a : num) (sb : bool) (mb : positive) (eb : Z) :
  isNaN a = false -> isNaN (div a (S754_finite sb mb eb)) = false.
Proof.
  destruct a as [sa | sa | | sa ma ea]; cbn -[SFdiv_core_binary]; try discriminate; try reflexivity.
  intros _.
  pose proof (SFdiv_core_nonneg ma mb ea eb) as H.
  destruct (SFdiv_core_binary prec emax (Zpos ma) ea (Zpos mb) eb) as [[q e'] l].
  cbn [fst] in H. apply binary_round_aux_not_nan. assumption.
Qed.

Lemma iter_xO_value (p n : positive) :
  Zpos (Pos.iter xO p n) = Zpos p * 2 ^ Zpos n.
Proof.
  induction n as [ | n IH ] using Pos.peano_ind.
  - cbn. lia.
  - rewrite Pos.iter_succ, Pos2Z.inj_xO, IH, Pos2Z.inj_succ, Z.pow_succ_r by lia. lia.
Qed.

Lemma iter_xO_digits (p n : positive) :
  digits2_pos (Pos.iter xO p n) = (digits2_pos p + n)%positive.
Proof.
  induction n as [ | n IH ] using Pos.peano_ind.
  - cbn. lia.
  - rewrite Pos.iter_succ. cbn [digits2_pos]. rewrite IH. lia.
Qed.

(** A mantissa of exactly 53 bits with an exponent in range is left alone. *)
Lemma binary_round_aux_canonical (s : bool) (m : positive) (e : Z) :
  Zpos (digits2_pos m) = 53 -> -1074 <= e <= 971 ->
  binary_round_aux prec emax s (Zpos m) e loc_Exact = S754_finite s m e.
Proof.
  intros Hd He. unfold binary_round_aux, shr_fexp, fexp, emin, prec, emax.
  cbn [Zdigits2]. rewrite Hd.
  replace (Z.max (53 + e - 53) (3 - 1024 - 53) - e) with 0 by lia.
  cbn [shr shr_record_of_loc shr_m loc_of_shr_record round_nearest_even Zdigits2].
  rewrite Hd.
  replace (Z.max (53 + e - 53) (3 - 1024 - 53) - e) with 0 by lia.
  cbn [shr shr_record_of_loc shr_m].
  replace (e <=? 1024 - 53) with true by (symmetry; apply Z.leb_le; lia).
  reflexivity.
Qed.

(** Rounding a short mantissa: it is shifted left to 53 bits, exactly. *)
Lemma binary_round_short (s : bool) (p : positive) (e : Z) :
  let d := Zpos (digits2_pos p) in
  d <= 53 -> -1074 <= e + d - 53 <= 971 ->
  exists m, Zpos m = Zpos p * 2 ^ (53 - d) /\
            binary_round prec emax s p e = S754_finite s m (e + d - 53).
Proof.
  intros d Hd He. unfold binary_round, fexp, emin, prec, emax, shl_align.
  fold d.
  replace (Z.max (d + e - 53) (3 - 1024 - 53) - e) with (d - 53) by lia.
  replace (Z.max (d + e - 53) (3 - 1024 - 53)) with (e + d - 53) by lia.
  destruct (d - 53) as [ | k | k ] eqn:Ek; [ | lia | ].
  - exists p. split.
    + replace (53 - d) with 0 by lia. lia.
    + replace (e + d - 53) with e by lia.
      apply binary_round_aux_canonical; lia.
  - exists (Pos.iter xO p k). split.
    + rewrite iter_xO_value. f_equal. f_equal. lia.
    + apply binary_round_aux_canonical; [ | lia ].
      rewrite iter_xO_digits, Pos2Z.inj_add. fold d. lia.
Qed.

(** Rounding a mantissa of more than 53 bits whose low bits are all zero:
    the zeros are shifted out, exactly. *)
Lemma binary_round_long (s : bool) (n q : positive) (j e : Z) :
  Zpos (digits2_pos q) = 53 -> 0 < j -> Zpos n = Zpos q * 2 ^ j ->
  -1074 <= e + j <= 971 ->
  binary_round prec emax s n e = S754_finite s q (e + j).
Proof.
  intros Hq Hj Hn He.
  assert (Hdn : Zpos (digits2_pos n) = 53 + j).
  { rewrite !digits2_pos_log2 in *. rewrite Hn, Z.log2_mul_pow2 by lia. lia. }
  unfold binary_round, fexp, emin, prec, emax, shl_align.
  rewrite Hdn.
  replace (Z.max (53 + j + e - 53) (3 - 1024 - 53) - e) with j by lia.
  destruct j as [ | jp | jp ] eqn:Ej; [ lia | | lia ].
  unfold binary_round_aux, shr_fexp, fexp, emin, prec, emax.
  cbn [Zdigits2]. rewrite Hdn.
  replace (Z.max (53 + Zpos jp + e - 53) (3 - 1024 - 53) - e) with (Zpos jp) by lia.
  assert (Hit : iter_pos shr_1 jp (Build_shr_record (Zpos n) false false)
                = Build_shr_record (Zpos q) false false).
  { rewrite iter_pos_nat, Hn.
    replace (Zpos jp) with (Z.of_nat (Pos.to_nat jp)) by lia.
    apply shr_iter_exact. lia. }
  cbn [shr shr_record_of_loc]. rewrite Hit.
  cbn [shr_m loc_of_shr_record round_nearest_even Zdigits2]. rewrite Hq.
  replace (Z.max (53 + (e + Zpos jp) - 53) (3 - 1024 - 53) - (e + Zpos jp)) with 0 by lia.
  cbn [shr shr_record_of_loc shr_m].
  replace (e + Zpos jp <=? 1024 - 53) with true by (symmetry; apply Z.leb_le; lia).
  reflexivity.
Qed.

Lemma log2_small (k : Z) : 0 < k < 2 ^ 53 -> 0 <= Z.log2 k <= 52.
Proof.
  intro H. split; [ apply Z.log2_nonneg | ].
  assert (Z.log2 k < 53); [ | lia ].
  apply Z.log2_lt_pow2; lia.
Qed.

Lemma mant53_value (k : Z) :
  0 < Z.abs k < 2 ^ 53 ->
  Zpos (mant53 k) = Z.abs k * 2 ^ (52 - Z.log2 (Z.abs k)).
Proof.
  intro H. unfold mant53. pose proof (log2_small _ H).
  rewrite Z2Pos.id; [ reflexivity | ].
  apply Z.mul_pos_pos; [ lia | apply Z.pow_pos_nonneg; lia ].
Qed.

Lemma mant53_digits (k : Z) :
  0 < Z.abs k < 2 ^ 53 -> Zpos (digits2_pos (mant53 k)) = 53.
Proof.
  intro H. pose proof (log2_small _ H).
  rewrite digits2_pos_log2, mant53_value, Z.log2_mul_pow2 by lia. lia.
Qed.

Lemma binary_round_exact (s : bool) (n q : positive) (j e : Z) :
  Zpos (digits2_pos q) = 53 -> 0 <= j -> Zpos n = Zpos q * 2 ^ j ->
  -1074 <= e + j <= 971 ->
  binary_round prec emax s n e = S754_finite s q (e + j).
Proof.
  intros Hq Hj Hn He.
  destruct (Z.eq_dec j 0) as [-> | Hj0].
  - rewrite Z.pow_0_r, Z.mul_1_r in Hn. injection Hn as ->.
    destruct (binary_round_short s q e) as (m & Hm & ->); rewrite ?Hq; try lia.
    rewrite Hq in Hm. change (2 ^ (53 - 53)) with 1 in Hm.
    rewrite Z.mul_1_r in Hm. injection Hm as ->.
    f_equal; lia.
  - apply binary_round_long; auto; lia.
Qed.

(** The number of a small integer, spelled out. *)
Lemma of_Z_canon (k : Z) : Z.abs k < 2 ^ 53 -> of_Z k = canon k.
Proof.
  intro H. unfold of_Z, canon.
  destruct k as [ | p | p ]; cbn [binary_normalize Z.eqb Z.ltb Z.compare].
  - reflexivity.
  - assert (Hp : 0 < Z.abs (Zpos p) < 2 ^ 53) by lia.
    pose proof (log2_small _ Hp) as Hl.
    destruct (binary_round_short false p 0) as (m & Hm & ->).
    + rewrite digits2_pos_log2. cbn [Z.abs] in Hl. lia.
    + rewrite digits2_pos_log2. cbn [Z.abs] in Hl. lia.
    + f_equal.
      * apply Pos2Z.inj. rewrite Hm, mant53_value by assumption.
        rewrite digits2_pos_log2. cbn [Z.abs]. f_equal. f_equal. lia.
      * unfold exp53. rewrite digits2_pos_log2. cbn [Z.abs]. lia.
  - assert (Hp : 0 < Z.abs (Zneg p) < 2 ^ 53) by lia.
    pose proof (log2_small _ Hp) as Hl.
    destruct (binary_round_short true p 0) as (m & Hm & ->).
    + rewrite digits2_pos_log2. cbn [Z.abs] in Hl. lia.
    + rewrite digits2_pos_log2. cbn [Z.abs] in Hl. lia.
    + f_equal.
      * apply Pos2Z.inj. rewrite Hm, mant53_value by assumption.
        rewrite digits2_pos_log2. cbn [Z.abs]. f_equal. f_equal. lia.
      * unfold exp53. rewrite digits2_pos_log2. cbn [Z.abs]. lia.
Qed.

Lemma canon_compare_pos (a b : Z) :
  0 < a < 2 ^ 53 -> 0 < b < 2 ^ 53 ->
  match exp53 a ?= exp53 b with
  | Lt => Lt
  | Gt => Gt
  | Eq => Pos.compare_cont Eq (mant53 a) (mant53 b)
  end = (a ?= b).
Proof.
  intros Ha Hb. unfold exp53.
  rewrite (Z.abs_eq a), (Z.abs_eq b) by lia.
  destruct (Z.compare_spec (Z.log2 a - 52) (Z.log2 b - 52)) as [E | E | E].
  - change (Pos.compare_cont Eq (mant53 a) (mant53 b))
      with (Zpos (mant53 a) ?= Zpos (mant53 b)).
    rewrite !mant53_value by (rewrite Z.abs_eq; lia).
    rewrite (Z.abs_eq a), (Z.abs_eq b) by lia.
    replace (Z.log2 b) with (Z.log2 a) by lia.
    symmetry. apply Zmult_compare_compat_r. apply Z.lt_gt.
    apply Z.pow_pos_nonneg; [ lia | ].
    pose proof (log2_small a Ha). lia.
  - symmetry. apply Z.compare_lt_iff. apply Z.log2_lt_cancel. lia.
  - symmetry. apply Z.compare_gt_iff. apply Z.log2_lt_cancel. lia.
Qed.

(** Comparison of small integers is comparison in [Z]. *)
Lemma compare_of_Z (a b : Z) :
  Z.abs a < 2 ^ 53 -> Z.abs b < 2 ^ 53 ->
  SFcompare (of_Z a) (of_Z b) = Some (a ?= b).
Proof.
  intros Ha Hb. rewrite !of_Z_canon by assumption. unfold canon.
  destruct a as [ | p | p ], b as [ | q | q ]; try reflexivity.
  - cbn [Z.eqb Z.ltb SFcompare]. change (Zpos p <? 0) with false.
    change (Zpos q <? 0) with false. cbv iota. f_equal.
    apply canon_compare_pos; lia.
  - cbn [Z.eqb Z.ltb SFcompare]. change (Zneg p <? 0) with true.
    change (Zneg q <? 0) with true. cbv iota. f_equal.
    change (Zneg p ?= Zneg q) with (CompOpp (Zpos p ?= Zpos q)).
    rewrite <- (canon_compare_pos (Zpos p) (Zpos q)) by lia.
    unfold exp53, mant53. cbn [Z.abs].
    destruct (Z.log2 (Zpos p) - 52 ?= Z.log2 (Zpos q) - 52); reflexivity.
Qed.

Lemma Zdigits2_log2 (m : Z) : 0 < m -> Zdigits2 m = Z.log2 m + 1.
Proof. destruct m as [ | p | p ]; try lia. intros _. apply digits2_pos_log2. Qed.

Lemma shr_fexp_spec (m e : Z) (l : location) :
  0 <= m ->
  let n := Z.max 0 (fexp prec emax (Zdigits2 m + e) - e) in
  shr_m (fst (shr_fexp prec emax m e l)) = m / 2 ^ n /\
  snd (shr_fexp prec emax m e l) = e + n.
Proof.
  intros Hm n. unfold shr_fexp. subst n.
  destruct (fexp prec emax (Zdigits2 m + e) - e) as [ | p | p ]; cbn [shr fst snd].
  - rewrite shr_record_of_loc_m. cbn. rewrite Z.div_1_r. lia.
  - rewrite iter_pos_nat, shr_iter_m by (rewrite shr_record_of_loc_m; assumption).
    rewrite shr_record_of_loc_m, positive_nat_Z.
    rewrite Z.max_r by lia. split; reflexivity.
  - rewrite shr_record_of_loc_m. cbn. rewrite Z.div_1_r. lia.
Qed.

(** The number of a large positive integer is positive with a positive
    exponent (or overflows to [+Infinity]). *)
Lemma of_Z_big (k : Z) :
  2 ^ 53 <= k ->
  of_Z k = S754_infinity false \/
  exists m e, of_Z k = S754_finite false m e /\ 1 <= e.
Proof.
  intro Hk. destruct k as [ | p | p ]; try lia.
  assert (Hl : 53 <= Z.log2 (Zpos p)) by (apply Z.log2_le_pow2; lia).
  pose proof (digits2_pos_log2 p) as Hd.
  unfold of_Z. cbn [binary_normalize]. unfold binary_round.
  assert (Hal : shl_align p 0 (fexp prec emax (Zpos (digits2_pos p) + 0)) = (p, 0)).
  { unfold shl_align, fexp, emin, prec, emax.
    destruct (Z.max (Zpos (digits2_pos p) + 0 - 53) (3 - 1024 - 53) - 0) eqn:E;
      try reflexivity; lia. }
  rewrite Hal. unfold binary_round_aux.
  destruct (shr_fexp_spec (Zpos p) 0 loc_Exact ltac:(lia)) as [Hm1 He1].
  destruct (shr_fexp prec emax (Zpos p) 0 loc_Exact) as [r1 e1].
  cbn [fst snd] in Hm1, He1.
  set (n1 := Z.max 0 (fexp prec emax (Zdigits2 (Zpos p) + 0) - 0)) in *.
  assert (Hn1 : n1 = Z.log2 (Zpos p) - 52).
  { subst n1. cbn [Zdigits2]. unfold fexp, emin, prec, emax. lia. }
  assert (Hr1 : 2 ^ 52 <= shr_m r1).
  { rewrite Hm1, Hn1. apply Z.div_le_lower_bound.
    - apply Z.pow_pos_nonneg; lia.
    - rewrite <- Z.pow_add_r by lia.
      replace (Z.log2 (Zpos p) - 52 + 52) with (Z.log2 (Zpos p)) by lia.
      apply Z.log2_spec. lia. }
  set (m2 := round_nearest_even (shr_m r1) (loc_of_shr_record r1)).
  assert (Hm2 : 2 ^ 52 <= m2).
  { pose proof (round_nearest_even_bounds (shr_m r1) (loc_of_shr_record r1)).
    subst m2. lia. }
  destruct (shr_fexp_spec m2 e1 loc_Exact ltac:(lia)) as [Hm3 He3].
  destruct (shr_fexp prec emax m2 e1 loc_Exact) as [r2 e2].
  cbn [fst snd] in Hm3, He3.
  set (n2 := Z.max 0 (fexp prec emax (Zdigits2 m2 + e1) - e1)) in *.
  assert (Hl2 : 52 <= Z.log2 m2) by (apply Z.log2_le_pow2; lia).
  assert (Hn2 : 0 <= n2 <= Z.log2 m2).
  { subst n2. rewrite Zdigits2_log2 by lia. unfold fexp, emin, prec, emax. lia. }
  assert (Hr2 : 1 <= shr_m r2).
  { rewrite Hm3. apply Z.div_le_lower_bound.
    - apply Z.pow_pos_nonneg; lia.
    - rewrite Z.mul_1_r.
      apply Z.le_trans with (2 ^ Z.log2 m2).
      + apply Z.pow_le_mono_r; lia.
      + apply Z.log2_spec. lia. }
  destruct (shr_m r2) as [ | q | q ]; try lia.
  destruct (e2 <=? emax - prec); [ right | left; reflexivity ].
  exists q, e2. split; [ reflexivity | lia ].
Qed.

Lemma shl_align_value (m : positive) (e ez : Z) :
  ez <= e -> Zpos (fst (shl_align m e ez)) = Zpos m * 2 ^ (e - ez).
Proof.
  intro H. unfold shl_align.
  destruct (ez - e) as [ | k | k ] eqn:E; cbn [fst]; try lia.
  - replace (e - ez) with 0 by lia. lia.
  - rewrite iter_xO_value. f_equal. f_equal. lia.
Qed.

(** Adding small non-negative integers is exact. *)
Lemma add_of_Z (a b : Z) :
  0 <= a -> 0 <= b -> a + b < 2 ^ 53 ->
  add (of_Z a) (of_Z b) = of_Z (a + b).
Proof.
  intros Ha Hb Hab.
  destruct (Z.eq_dec a 0) as [-> | Ha0].
  { rewrite Z.add_0_l. change (of_Z 0) with (S754_zero false).
    destruct (of_Z b) as [ [ | ] | | | ] eqn:E; try reflexivity.
    (* b is never the negative zero *)
    rewrite of_Z_canon in E by lia. unfold canon in E.
    destruct (b =? 0); discriminate. }
  destruct (Z.eq_dec b 0) as [-> | Hb0].
  { rewrite Z.add_0_r. change (of_Z 0) with (S754_zero false).
    rewrite of_Z_canon by lia. unfold canon.
    replace (a =? 0) with false by (symmetry; apply Z.eqb_neq; assumption).
    reflexivity. }
  rewrite !of_Z_canon by lia. unfold canon.
  replace (a =? 0) with false by (symmetry; apply Z.eqb_neq; assumption).
  replace (b =? 0) with false by (symmetry; apply Z.eqb_neq; assumption).
  replace (a + b =? 0) with false by (symmetry; apply Z.eqb_neq; lia).
  replace (a <? 0) with false by (symmetry; apply Z.ltb_ge; lia).
  replace (b <? 0) with false by (symmetry; apply Z.ltb_ge; lia).
  replace (a + b <? 0) with false by (symmetry; apply Z.ltb_ge; lia).
  unfold add, SFadd. cbn [cond_Zopp].
  set (ez := Z.min (exp53 a) (exp53 b)).
  assert (Hla : 0 <= Z.log2 a <= 52) by (apply log2_small; lia).
  assert (Hlb : 0 <= Z.log2 b <= 52) by (apply log2_small; lia).
  assert (Hlab : 0 <= Z.log2 (a + b) <= 52) by (apply log2_small; lia).
  assert (Hmono_a : Z.log2 a <= Z.log2 (a + b)) by (apply Z.log2_le_mono; lia).
  assert (Hmono_b : Z.log2 b <= Z.log2 (a + b)) by (apply Z.log2_le_mono; lia).
  assert (Hez : ez = Z.min (Z.log2 a) (Z.log2 b) - 52).
  { subst ez. unfold exp53. rewrite !Z.abs_eq by lia. lia. }
  rewrite !shl_align_value by (subst ez; lia).
  rewrite !mant53_value by (rewrite Z.abs_eq; lia).
  unfold exp53. rewrite !Z.abs_eq by lia.
  assert (Hsum : a * 2 ^ (52 - Z.log2 a) * 2 ^ (Z.log2 a - 52 - ez)
                 + b * 2 ^ (52 - Z.log2 b) * 2 ^ (Z.log2 b - 52 - ez)
                 = Zpos (mant53 (a + b)) * 2 ^ (Z.log2 (a + b) - 52 - ez)).
  { rewrite mant53_value by (rewrite Z.abs_eq; lia).
    rewrite Z.abs_eq by lia.
    rewrite <- !Z.mul_assoc, <- !Z.pow_add_r by lia.
    replace (52 - Z.log2 a + (Z.log2 a - 52 - ez)) with (- ez) by lia.
    replace (52 - Z.log2 b + (Z.log2 b - 52 - ez)) with (- ez) by lia.
    replace (52 - Z.log2 (a + b) + (Z.log2 (a + b) - 52 - ez)) with (- ez) by lia.
    lia. }
  rewrite Hsum.
  assert (Hpos : 0 < Zpos (mant53 (a + b)) * 2 ^ (Z.log2 (a + b) - 52 - ez)).
  { apply Z.mul_pos_pos; [ lia | apply Z.pow_pos_nonneg; lia ]. }
  destruct (Zpos (mant53 (a + b)) * 2 ^ (Z.log2 (a + b) - 52 - ez)) as [ | n | n ] eqn:En;
    try lia.
  cbn [binary_normalize].
  rewrite (binary_round_exact false n (mant53 (a + b)) (Z.log2 (a + b) - 52 - ez) ez).
  - f_equal. lia.
  - apply mant53_digits. rewrite Z.abs_eq; lia.
  - lia.
  - symmetry. exact En.
  - lia.
Qed.

Lemma binary_round_aux_signed (s : bool) (m e : Z) (l : location) :
  0 <= m -> signed s (binary_round_aux prec emax s m e l).
Proof.
  intro H. unfold binary_round_aux.
  pose proof (shr_fexp_nonneg m e l H) as H1.
  destruct (shr_fexp prec emax m e l) as [r1 e1]. cbn [fst] in H1.
  pose proof (round_nearest_even_bounds (shr_m r1) (loc_of_shr_record r1)) as Hr.
  pose proof (shr_fexp_nonneg (round_nearest_even (shr_m r1) (loc_of_shr_record r1))
                e1 loc_Exact ltac:(lia)) as H2.
  destruct (shr_fexp prec emax _ e1 loc_Exact) as [r2 e2]. cbn [fst] in H2.
  destruct (shr_m r2) as [ | q | q ]; [ left; reflexivity | | lia ].
  destruct (e2 <=? emax - prec); right; [ right; eauto | left; reflexivity ].
Qed.

Lemma of_Z_neg_signed (k : Z) : k < 0 -> signed true (of_Z k).
Proof.
  intro H. destruct k as [ | p | p ]; try lia.
  unfold of_Z. cbn [binary_normalize]. unfold binary_round.
  destruct (shl_align p 0 _) as [mz ez].
  apply binary_round_aux_signed. lia.
Qed.

Lemma div_not_nan' (a b : num) :
  isNaN a = false -> isFiniteNonzero b = true -> isNaN (div a b) = false.
Proof.
  intros Ha Hb. destruct b; try discriminate. apply div_not_nan. assumption.
Qed.

Lemma mul_not_nan' (a b : num) :
  isNaN a = false -> isFiniteNonzero b = true -> isNaN (mul a b) = false.
Proof.
  intros Ha Hb. destruct b; try discriminate. apply mul_not_nan. assumption.
Qed.

Lemma Math_max_of_Z (a b : Z) :
  Z.abs a < 2 ^ 53 -> Z.abs b < 2 ^ 53 ->
  Math_max (of_Z a) (of_Z b) = of_Z (Z.max a b).
Proof.
  intros Ha Hb. unfold Math_max. rewrite compare_of_Z by assumption.
  destruct (Z.compare_spec a b) as [E | E | E].
  - subst b. rewrite Z.max_id. destruct (of_Z a) as [ [ | ] | | | ]; reflexivity.
  - rewrite Z.max_r by lia. reflexivity.
  - rewrite Z.max_l by lia. reflexivity.
Qed.

Lemma Math_min_of_Z (a b : Z) :
  Z.abs a < 2 ^ 53 -> Z.abs b < 2 ^ 53 ->
  Math_min (of_Z a) (of_Z b) = of_Z (Z.min a b).
Proof.
  intros Ha Hb. unfold Math_min. rewrite compare_of_Z by assumption.
  destruct (Z.compare_spec a b) as [E | E | E].
  - subst b. rewrite Z.min_id. destruct (of_Z a) as [ [ | ] | | | ]; reflexivity.
  - rewrite Z.min_l by lia. reflexivity.
  - rewrite Z.min_r by lia. reflexivity.
Qed.

(** [Math.max(v, 0)] for a [v] that is zero, infinite or below zero. *)
Lemma Math_max_signed_neg (v : num) :
  signed true v -> Math_max v (of_Z 0) = of_Z 0.
Proof.
  intros [-> | [-> | (m & e & ->)]]; reflexivity.
Qed.

Lemma of_Z_small_shape (K : Z) :
  0 <= K < 2 ^ 53 ->
  of_Z K = S754_zero false \/
  exists m e, of_Z K = S754_finite false m e /\ e <= 0.
Proof.
  intro H. rewrite of_Z_canon by lia. unfold canon.
  destruct (Z.eqb_spec K 0) as [-> | Hn]; [ left; reflexivity | right ].
  replace (K <? 0) with false by (symmetry; apply Z.ltb_ge; lia).
  exists (mant53 K), (exp53 K). split; [ reflexivity | ].
  unfold exp53. rewrite Z.abs_eq by lia.
  pose proof (log2_small K ltac:(lia)). lia.
Qed.

Lemma Math_min_inf (K : Z) :
  0 <= K < 2 ^ 53 -> Math_min (S754_infinity false) (of_Z K) = of_Z K.
Proof.
  intro H. destruct (of_Z_small_shape K H) as [-> | (m & e & -> & _)]; reflexivity.
Qed.

Lemma Math_min_big (m : positive) (e K : Z) :
  1 <= e -> 0 <= K < 2 ^ 53 ->
  Math_min (S754_finite false m e) (of_Z K) = of_Z K.
Proof.
  intros He H. destruct (of_Z_small_shape K H) as [-> | (mK & eK & -> & HeK)].
  - reflexivity.
  - unfold Math_min. cbn [SFcompare].
    replace (e ?= eK) with Gt by (symmetry; apply Z.compare_gt_iff; lia).
    reflexivity.
Qed.

(** What [Math.floor] returns on a number. *)
Lemma Math_floor_cases (v : num) :
  isNaN v = false ->
  (exists s, Math_floor v = S754_zero s) \/
  (exists s, Math_floor v = S754_infinity s) \/
  (exists k, Math_floor v = of_Z k).
Proof.
  destruct v as [s | s | | s m e]; cbn [isNaN Math_floor]; intro H;
    [ left | right; left | discriminate | right; right ]; eauto.
Qed.

(** The clamp [Math.min(Math.max(v, 0), maxIndex)] of a floored number. *)
Lemma clamp_index (v : num) (K : Z) :
  isNaN v = false -> 0 <= K < 2 ^ 53 ->
  exists k, 0 <= k <= K /\
            Math_min (Math_max (Math_floor v) (of_Z 0)) (of_Z K) = of_Z k.
Proof.
  intros Hv HK.
  destruct (Math_floor_cases v Hv) as [(s & ->) | [(s & ->) | (k & ->)]].
  - exists 0. split; [ lia | ].
    replace (Math_max (S754_zero s) (of_Z 0)) with (of_Z 0) by (destruct s; reflexivity).
    rewrite Math_min_of_Z by lia. f_equal. lia.
  - destruct s.
    + exists 0. split; [ lia | ].
      change (Math_max (S754_infinity true) (of_Z 0)) with (of_Z 0).
      rewrite Math_min_of_Z by lia. f_equal. lia.
    + exists K. split; [ lia | ].
      change (Math_max (S754_infinity false) (of_Z 0)) with (S754_infinity false).
      apply Math_min_inf. assumption.
  - destruct (Z_lt_le_dec k (2 ^ 53)) as [Hlt | Hge];
      [ destruct (Z_lt_le_dec (- 2 ^ 53) k) as [Hgt | Hle] | ].
    + exists (Z.min (Z.max k 0) K). split; [ lia | ].
      rewrite Math_max_of_Z, Math_min_of_Z by lia. reflexivity.
    + exists 0. split; [ lia | ].
      rewrite Math_max_signed_neg by (apply of_Z_neg_signed; lia).
      rewrite Math_min_of_Z by lia. f_equal. lia.
    + exists K. split; [ lia | ].
      destruct (of_Z_big k Hge) as [-> | (m & e & -> & He)].
      * change (Math_max (S754_infinity false) (of_Z 0)) with (S754_infinity false).
        apply Math_min_inf. assumption.
      * change (Math_max (S754_finite false m e) (of_Z 0)) with (S754_finite false m e).
        apply Math_min_big; assumption.
Qed.

(** Rounding a mantissa of at least 53 bits never underflows. *)
Lemma binary_round_aux_large (s : bool) (m e : Z) (l : location) :
  2 ^ 52 <= m -> -1074 <= e ->
  binary_round_aux prec emax s m e l = S754_infinity s \/
  exists q e', binary_round_aux prec emax s m e l = S754_finite s q e' /\
               e + Z.log2 m - 52 <= e'.
Proof.
  intros Hm He.
  assert (Hl : 52 <= Z.log2 m) by (apply Z.log2_le_pow2; lia).
  unfold binary_round_aux.
  destruct (shr_fexp_spec m e l ltac:(lia)) as [Hm1 He1].
  destruct (shr_fexp prec emax m e l) as [r1 e1].
  cbn [fst snd] in Hm1, He1.
  set (n1 := Z.max 0 (fexp prec emax (Zdigits2 m + e) - e)) in *.
  assert (Hn1 : n1 = Z.log2 m - 52).
  { subst n1. rewrite Zdigits2_log2 by lia. unfold fexp, emin, prec, emax. lia. }
  assert (Hr1 : 2 ^ 52 <= shr_m r1).
  { rewrite Hm1, Hn1. apply Z.div_le_lower_bound.
    - apply Z.pow_pos_nonneg; lia.
    - rewrite <- Z.pow_add_r by lia.
      replace (Z.log2 m - 52 + 52) with (Z.log2 m) by lia.
      apply Z.log2_spec. lia. }
  set (m2 := round_nearest_even (shr_m r1) (loc_of_shr_record r1)).
  assert (Hm2 : 2 ^ 52 <= m2).
  { pose proof (round_nearest_even_bounds (shr_m r1) (loc_of_shr_record r1)).
    subst m2. lia. }
  destruct (shr_fexp_spec m2 e1 loc_Exact ltac:(lia)) as [Hm3 He3].
  destruct (shr_fexp prec emax m2 e1 loc_Exact) as [r2 e2].
  cbn [fst snd] in Hm3, He3.
  set (n2 := Z.max 0 (fexp prec emax (Zdigits2 m2 + e1) - e1)) in *.
  assert (Hl2 : 52 <= Z.log2 m2) by (apply Z.log2_le_pow2; lia).
  assert (Hn2 : 0 <= n2 <= Z.log2 m2).
  { subst n2. rewrite Zdigits2_log2 by lia. unfold fexp, emin, prec, emax. lia. }
  assert (Hr2 : 1 <= shr_m r2).
  { rewrite Hm3. apply Z.div_le_lower_bound.
    - apply Z.pow_pos_nonneg; lia.
    - rewrite Z.mul_1_r.
      apply Z.le_trans with (2 ^ Z.log2 m2).
      + apply Z.pow_le_mono_r; lia.
      + apply Z.log2_spec. lia. }
  destruct (shr_m r2) as [ | q | q ]; try lia.
  destruct (e2 <=? emax - prec); [ right | left; reflexivity ].
  exists q, e2. split; [ reflexivity | lia ].
Qed.

(** ** Powers of two, comparison, [clampLat] *)

Lemma num_eqb_eq (a b : num) : num_eqb a b = true -> a = b.
Proof. unfold num_eqb. destruct (num_eq_dec a b); [ auto | discriminate ]. Qed.

Lemma pow2_check_all : forallb pow2_check (map Z.of_nat (seq 0 54)) = true.
Proof. vm_compute. reflexivity. Qed.

Lemma pow2_small (z : Z) :
  0 <= z <= 53 ->
  isFiniteNonzero (pow2 z) = true /\ sub (pow2 z) (of_Z 1) = of_Z (2 ^ z - 1).
Proof.
  intro H. pose proof pow2_check_all as Hall.
  rewrite forallb_forall in Hall.
  assert (Hin : In z (map Z.of_nat (seq 0 54))).
  { rewrite <- (Z2Nat.id z) by lia. apply in_map. apply in_seq. lia. }
  specialize (Hall z Hin). unfold pow2_check in Hall.
  apply andb_prop in Hall. destruct Hall as [H1 H2].
  split; [ assumption | apply num_eqb_eq; assumption ].
Qed.

Lemma pow2_bound (z : Z) : 0 <= z <= 53 -> 0 <= 2 ^ z - 1 < 2 ^ 53.
Proof.
  intro H. assert (0 < 2 ^ z) by (apply Z.pow_pos_nonneg; lia).
  assert (2 ^ z <= 2 ^ 53) by (apply Z.pow_le_mono_r; lia). lia.
Qed.

Lemma isFinite_not_nan (v : num) : isFinite v = true -> isNaN v = false.
Proof. destruct v; cbn; congruence. Qed.

(** [SFcompare] is antisymmetric. *)
Lemma SFcompare_antisym (a b : num) :
  SFcompare b a = option_map CompOpp (SFcompare a b).
Proof.
  destruct a as [sa | sa | | sa ma ea], b as [sb | sb | | sb mb eb];
    cbn [SFcompare option_map]; try reflexivity;
    try (destruct sa; reflexivity); try (destruct sb; reflexivity);
    try (destruct sa, sb; reflexivity).
  destruct sa, sb; cbn [CompOpp]; try reflexivity.
  - rewrite (Z.compare_antisym ea eb).
    destruct (ea ?= eb); cbn [CompOpp]; try reflexivity.
    rewrite (Pos.compare_cont_antisym ma mb Eq). reflexivity.
  - rewrite (Z.compare_antisym ea eb).
    destruct (ea ?= eb); cbn [CompOpp]; try reflexivity.
    rewrite (Pos.compare_cont_antisym ma mb Eq). reflexivity.
Qed.

Lemma SFcompare_some (a b : num) :
  isNaN a = false -> isNaN b = false -> exists c, SFcompare a b = Some c.
Proof.
  destruct a, b; cbn [isNaN SFcompare]; intros; try discriminate; eauto.
Qed.

Lemma SFcompare_refl (a : num) : isNaN a = false -> SFcompare a a = Some Eq.
Proof.
  destruct a as [s | s | | s m e]; cbn [isNaN SFcompare]; intro H;
    try discriminate; try reflexivity.
  - destruct s; reflexivity.
  - rewrite Z.compare_refl, Pos.compare_cont_refl. destruct s; reflexivity.
Qed.

Lemma leb_refl (a : num) : isNaN a = false -> leb a a = true.
Proof. intro H. unfold leb, SFleb. rewrite SFcompare_refl by assumption. reflexivity. Qed.

Lemma Math_min_cases (a b : num) :
  isNaN a = false -> isNaN b = false -> Math_min a b = a \/ Math_min a b = b.
Proof.
  intros Ha Hb. unfold Math_min.
  destruct (SFcompare_some a b Ha Hb) as [[ | | ] ->]; auto.
  destruct a as [[ | ] | | | ]; auto.
Qed.

Lemma Math_max_cases (a b : num) :
  isNaN a = false -> isNaN b = false -> Math_max a b = a \/ Math_max a b = b.
Proof.
  intros Ha Hb. unfold Math_max.
  destruct (SFcompare_some a b Ha Hb) as [[ | | ] ->]; auto.
  destruct a as [[ | ] | | | ]; auto.
Qed.

Lemma Math_min_le_r (a b : num) :
  isNaN a = false -> isNaN b = false -> leb (Math_min a b) b = true.
Proof.
  intros Ha Hb. unfold Math_min.
  destruct (SFcompare_some a b Ha Hb) as [[ | | ] E]; rewrite E.
  - destruct a as [[ | ] | | | ]; try apply leb_refl; try assumption;
      unfold leb, SFleb; rewrite E; reflexivity.
  - unfold leb, SFleb. rewrite E. reflexivity.
  - apply leb_refl. assumption.
Qed.

Lemma Math_max_ge_r (a b : num) :
  isNaN a = false -> isNaN b = false -> leb b (Math_max a b) = true.
Proof.
  intros Ha Hb. unfold Math_max.
  destruct (SFcompare_some a b Ha Hb) as [[ | | ] E]; rewrite E.
  - destruct a as [[ | ] | | | ]; try apply leb_refl; try assumption;
      unfold leb, SFleb; rewrite SFcompare_antisym, E; reflexivity.
  - apply leb_refl. assumption.
  - unfold leb, SFleb. rewrite SFcompare_antisym, E. reflexivity.
Qed.

(** The smaller of [a] and a non-zero [b] above it is [a] itself, and
    likewise for the larger one. *)
Lemma Math_min_absorb (a b : num) :
  leb a b = true -> isFiniteNonzero b = true -> Math_min a b = a.
Proof.
  intros Hle Hb. unfold Math_min. unfold leb, SFleb in Hle.
  destruct (SFcompare a b) as [[ | | ] | ] eqn:E; try discriminate; try reflexivity.
  destruct a as [[ | ] | | | ]; try reflexivity.
  destruct b as [ | | | s m e ]; try discriminate Hb.
  cbn [SFcompare] in E. destruct s; discriminate E.
Qed.

Lemma Math_max_absorb (a b : num) :
  leb b a = true -> isFiniteNonzero b = true -> Math_max a b = a.
Proof.
  intros Hle Hb. unfold Math_max. unfold leb, SFleb in Hle.
  rewrite SFcompare_antisym in Hle.
  destruct (SFcompare a b) as [[ | | ] | ] eqn:E; try discriminate; try reflexivity.
  destruct a as [[ | ] | | | ]; try reflexivity.
  destruct b as [ | | | s m e ]; try discriminate Hb.
  cbn [SFcompare] in E. destruct s; discriminate E.
Qed.

(** [Math.max(a, b)] is never smaller than [b]. *)
Lemma Math_max_not_lt_r (a b : num) : ltb (Math_max a b) b = false.
Proof.
  unfold ltb, SFltb, Math_max.
  destruct (SFcompare a b) as [[ | | ] | ] eqn:E; try reflexivity.
  - destruct (isNaN b) eqn:Hb.
    + destruct b; try discriminate Hb. destruct a as [[ | ] | | | ]; reflexivity.
    + assert (Hbb : SFcompare b b = Some Eq) by (apply SFcompare_refl; exact Hb).
      destruct a as [[ | ] | | | ]; rewrite ?E, ?Hbb; reflexivity.
  - destruct (isNaN b) eqn:Hb.
    + destruct b; try discriminate Hb. reflexivity.
    + rewrite SFcompare_refl by exact Hb. reflexivity.
  - rewrite E. reflexivity.
Qed.

Section ClampLat.
Local Open Scope num_scope.

Lemma clampLat_cases (lat : num) :
  isNaN lat = false ->
  clampLat lat = lat \/ clampLat lat = MAX_LAT \/ clampLat lat = - MAX_LAT.
Proof.
  intro H. unfold clampLat.
  destruct (Math_min_cases lat MAX_LAT H eq_refl) as [E | E]; rewrite E.
  - destruct (Math_max_cases lat (- MAX_LAT) H eq_refl) as [-> | ->]; auto.
  - destruct (Math_max_cases MAX_LAT (- MAX_LAT) eq_refl eq_refl) as [-> | ->]; auto.
Qed.

Lemma clampLat_not_nan (lat : num) :
  isNaN lat = false -> isNaN (clampLat lat) = false.
Proof.
  intro H. destruct (clampLat_cases lat H) as [-> | [-> | ->]];
    [ assumption | reflexivity | reflexivity ].
Qed.

(** [clampLat] keeps a number within the Mercator limits. *)
Lemma clampLat_bounds (lat : num) :
  isNaN lat = false ->
  (- MAX_LAT <=? clampLat lat) = true /\ (clampLat lat <=? MAX_LAT) = true.
Proof.
  intro H. split.
  - unfold clampLat. apply Math_max_ge_r; [ | reflexivity ].
    destruct (Math_min_cases lat MAX_LAT H eq_refl) as [-> | ->];
      [ assumption | reflexivity ].
  - unfold clampLat.
    pose proof (Math_min_le_r lat MAX_LAT H eq_refl) as Hle.
    assert (Hn : isNaN (Math_min lat MAX_LAT) = false).
    { destruct (Math_min_cases lat MAX_LAT H eq_refl) as [-> | ->];
        [ assumption | reflexivity ]. }
    destruct (Math_max_cases (Math_min lat MAX_LAT) (- MAX_LAT) Hn eq_refl)
      as [-> | ->]; [ assumption | reflexivity ].
Qed.

(** Clamping twice is clamping once. *)
Lemma clampLat_idempotent (lat : num) :
  clampLat (clampLat lat) = clampLat lat.
Proof.
  destruct (isNaN lat) eqn:Hn.
  - destruct lat; try discriminate. reflexivity.
  - destruct (clampLat_bounds lat Hn) as [Hlo Hhi].
    unfold clampLat at 1.
    rewrite (Math_min_absorb _ MAX_LAT Hhi) by (vm_compute; reflexivity).
    apply Math_max_absorb; [ exact Hlo | vm_compute; reflexivity ].
Qed.
End ClampLat.

(** ** Tile indices *)

Section TileIndex.
Variable host : Host.
Local Open Scope num_scope.

(** The clamp at the end of [latLonToTile], on a floored number. *)
Lemma tile_clamp (v : num) (zoom : Z) :
  (0 <= zoom <= 53)%Z -> isNaN v = false ->
  exists k, (0 <= k <= 2 ^ zoom - 1)%Z /\
    Math_min (Math_max (Math_floor v) #0) (pow2 zoom - #1) = #k.
Proof.
  intros Hz Hv. destruct (pow2_small zoom Hz) as [_ ->].
  apply clamp_index; [ assumption | apply pow2_bound; assumption ].
Qed.

Lemma tile_x_arg_not_nan (lon : num) (zoom : Z) :
  (0 <= zoom <= 53)%Z -> isNaN lon = false ->
  isNaN (((lon + #180) / #360) * pow2 zoom) = false.
Proof.
  intros Hz Hl. destruct (pow2_small zoom Hz) as [Hp _].
  apply mul_not_nan'; [ | assumption ].
  apply div_not_nan'; [ | reflexivity ].
  apply add_not_nan; [ assumption | reflexivity | ].
  apply orb_true_r.
Qed.

Lemma tile_y_arg_not_nan (l : num) (zoom : Z) :
  (0 <= zoom <= 53)%Z -> isNaN l = false ->
  isNaN ((#1 - l / Math_PI) / #2 * pow2 zoom) = false.
Proof.
  intros Hz Hl. destruct (pow2_small zoom Hz) as [Hp _].
  apply mul_not_nan'; [ | assumption ].
  apply div_not_nan'; [ | reflexivity ].
  apply sub_not_nan; [ reflexivity | | reflexivity ].
  apply div_not_nan'; [ assumption | reflexivity ].
Qed.

(** The tile of a point, when the zoom is at most 53 and no NaN enters. *)
Lemma latLonToTile_index (lat lon : num) (zoom : Z) :
  (0 <= zoom <= 53)%Z -> isNaN lon = false ->
  isNaN (mercatorLog host ((clampLat lat * Math_PI) / #180)) = false ->
  exists kx ky,
    (0 <= kx <= 2 ^ zoom - 1)%Z /\ (0 <= ky <= 2 ^ zoom - 1)%Z /\
    latLonToTile host lat lon zoom = {| x := #kx; y := #ky |}.
Proof.
  intros Hz Hlon Hlog. unfold latLonToTile.
  destruct (tile_clamp _ zoom Hz (tile_x_arg_not_nan lon zoom Hz Hlon))
    as (kx & Hkx & ->).
  destruct (tile_clamp _ zoom Hz (tile_y_arg_not_nan _ zoom Hz Hlog))
    as (ky & Hky & ->).
  exists kx, ky. auto.
Qed.
End TileIndex.

(** C1. For every zoom level from 0 to 53 and all finite [lat] and [lon],
    when the host logarithm is a number at the clamped latitude,
    [latLonToTile] first clamps [lat] to [-85.05112878, 85.05112878] (its
    result is the one at the clamped latitude) and returns a tile whose
    [x] and [y] are integers in [0, 2^zoom - 1]; at zoom 0 the tile is
    x = 0, y = 0.  The function is total: it is a plain function of the
    model, and the theorem gives its value for every such input. *)
Theorem latLonToTile_in_range (host : Host) (lat lon : num) (zoom : Z) :
  0 <= zoom <= 53 ->
  isFinite lat = true -> isFinite lon = true ->
  isNaN (mercatorLog host (clampLat lat * Math_PI / of_Z 180)%num) = false ->
  let t := latLonToTile host lat lon zoom in
  (leb (neg MAX_LAT) (clampLat lat) = true /\ leb (clampLat lat) MAX_LAT = true) /\
  t = latLonToTile host (clampLat lat) lon zoom /\
  (exists kx, 0 <= kx <= 2 ^ zoom - 1 /\ x t = of_Z kx) /\
  (exists ky, 0 <= ky <= 2 ^ zoom - 1 /\ y t = of_Z ky) /\
  (zoom = 0 -> t = {| x := of_Z 0; y := of_Z 0 |}).
Proof.
  intros Hz Hlat Hlon Hlog t.
  pose proof (isFinite_not_nan _ Hlat) as Hlat'.
  pose proof (isFinite_not_nan _ Hlon) as Hlon'.
  destruct (latLonToTile_index host lat lon zoom Hz Hlon' Hlog)
    as (kx & ky & Hkx & Hky & Ht).
  fold t in Ht.
  split; [ apply clampLat_bounds; assumption | ].
  split; [ subst t; unfold latLonToTile; rewrite clampLat_idempotent; reflexivity | ].
  rewrite Ht. cbn [x y].
  split; [ exists kx; auto | ].
  split; [ exists ky; auto | ].
  intros ->. change (2 ^ 0 - 1) with 0 in *.
  replace kx with 0 by lia. replace ky with 0 by lia. reflexivity.
Qed.

(** The tile of San Francisco at zoom 10. *)
Lemma latLonToTile_in_range_witness :
  latLonToTile sampleHost sampleLat sampleLon 10 = {| x := of_Z 163; y := of_Z 395 |} /\
  (exists kx, 0 <= kx <= 2 ^ 10 - 1 /\ x (latLonToTile sampleHost sampleLat sampleLon 10) = of_Z kx) /\
  (exists ky, 0 <= ky <= 2 ^ 10 - 1 /\ y (latLonToTile sampleHost sampleLat sampleLon 10) = of_Z ky).
Proof.
  split; [ vm_compute; reflexivity | ].
  destruct (latLonToTile_in_range sampleHost sampleLat sampleLon 10)
    as (_ & _ & Hx & Hy & _);
    [ lia | vm_compute; reflexivity | vm_compute; reflexivity | vm_compute; reflexivity | ].
  split; assumption.
Defined.

(** At zoom 54 the index of the antimeridian is 2^54, one more than the
    largest index; at zoom 1024 the index is not a number.  This is so on
    every host. *)
Lemma latLonToTile_large_zoom :
  (forall host : Host,
     integerValue (x (latLonToTile host (of_Z 0) (of_Z 180) 54)) = Some (2 ^ 54)) /\
  (forall host : Host,
     x (latLonToTile host (of_Z 0) (neg (of_Z 180)) 1024) = NaN).
Proof. split; intro host; vm_compute; reflexivity. Qed.

(** ** Loops and the rectangle of tiles *)

Lemma rangeInclusive_nil (a b : Z) : b < a -> rangeInclusive a b = [].
Proof.
  intro H. unfold rangeInclusive. replace (Z.to_nat (b - a + 1)) with O by lia. reflexivity.
Qed.

Lemma rangeInclusive_cons (a b : Z) : a <= b -> rangeInclusive a b = a :: rangeInclusive (a + 1) b.
Proof.
  intro H. unfold rangeInclusive.
  replace (Z.to_nat (b - a + 1)) with (S (Z.to_nat (b - (a + 1) + 1))) by lia.
  cbn [seq map]. f_equal; [ lia | ].
  rewrite <- seq_shift, map_map. apply map_ext. intro i. lia.
Qed.

Lemma in_rangeInclusive (a b k : Z) : In k (rangeInclusive a b) <-> a <= k <= b.
Proof.
  unfold rangeInclusive. rewrite in_map_iff. split.
  - intros (i & <- & Hi). apply in_seq in Hi. lia.
  - intro H. exists (Z.to_nat (k - a)). split; [ lia | apply in_seq; lia ].
Qed.

Lemma leb_of_Z (a b : Z) :
  0 <= a <= 2 ^ 53 -> 0 <= b < 2 ^ 53 -> leb (of_Z a) (of_Z b) = (a <=? b).
Proof.
  intros Ha Hb. unfold leb, SFleb.
  destruct (Z.eq_dec a (2 ^ 53)) as [-> | Hne].
  - replace (2 ^ 53 <=? b) with false by (symmetry; apply Z.leb_gt; lia).
    change (of_Z (2 ^ 53)) with (S754_finite false 4503599627370496 1).
    destruct (of_Z_small_shape b Hb) as [-> | (m & e & -> & He)]; [ reflexivity | ].
    cbn [SFcompare].
    replace (1 ?= e) with Gt by (symmetry; apply Z.compare_gt_iff; lia).
    reflexivity.
  - rewrite compare_of_Z by lia. unfold Z.leb. destruct (a ?= b); reflexivity.
Qed.

Lemma succ_of_Z (a : Z) :
  0 <= a < 2 ^ 53 -> add (of_Z a) (of_Z 1) = of_Z (a + 1).
Proof.
  intro H. destruct (Z.eq_dec a (2 ^ 53 - 1)) as [-> | Hne].
  - vm_compute. reflexivity.
  - apply add_of_Z; lia.
Qed.

(** A counting loop between two small integers visits them in order. *)
Lemma forNum_ints {S : Type} (body : num -> S -> option S) (n : nat) :
  forall (a b : Z) (fuel : nat) (st : S),
    0 <= a <= b + 1 -> 0 <= b < 2 ^ 53 ->
    Z.of_nat n = b - a + 1 -> (n < fuel)%nat ->
    forNum fuel (of_Z a) (of_Z b) body st
    = forOf (map of_Z (rangeInclusive a b)) body st.
Proof.
  induction n as [ | n IH ]; intros a b fuel st Ha Hb Hn Hf.
  - destruct fuel as [ | fuel ]; [ lia | ]. cbn [forNum].
    rewrite leb_of_Z by lia.
    replace (a <=? b) with false by (symmetry; apply Z.leb_gt; lia).
    rewrite rangeInclusive_nil by lia. reflexivity.
  - destruct fuel as [ | fuel ]; [ lia | ]. cbn [forNum].
    rewrite leb_of_Z by lia.
    replace (a <=? b) with true by (symmetry; apply Z.leb_le; lia).
    rewrite rangeInclusive_cons by lia. cbn [map forOf].
    destruct (body (of_Z a) st) as [st' | ]; [ | reflexivity ].
    rewrite succ_of_Z by lia. apply IH; lia.
Qed.

Lemma forOf_total {A S : Type} (g : A -> S -> S) (l : list A) (st : S) :
  forOf l (fun a s => Some (g a s)) st = Some (fold_left (fun s a => g a s) l st).
Proof.
  revert st. induction l as [ | a l IH ]; intro st; cbn; [ reflexivity | apply IH ].
Qed.

Lemma forOf_ext {A S : Type} (f g : A -> S -> option S) (l : list A) (st : S) :
  (forall a s, In a l -> f a s = g a s) -> forOf l f st = forOf l g st.
Proof.
  revert st. induction l as [ | a l IH ]; intros st H; cbn; [ reflexivity | ].
  rewrite H by (left; reflexivity).
  destruct (g a st); [ apply IH; intros; apply H; right; assumption | reflexivity ].
Qed.

Lemma fold_left_flat_map {A B S : Type} (g : B -> S -> S) (f : A -> list B)
    (l : list A) (st : S) :
  fold_left (fun s a => fold_left (fun s b => g b s) (f a) s) l st
  = fold_left (fun s b => g b s) (flat_map f l) st.
Proof.
  revert st. induction l as [ | a l IH ]; intro st; cbn; [ reflexivity | ].
  rewrite fold_left_app. apply IH.
Qed.

Section Rectangle.
Variable host : Host.
Context {S : Type}.

(** The walk over the rectangle spanned by two corner tiles with small
    integer indices. *)
Lemma zoomBody_rectangle (fuel : nat) (bbox : BoundingBox) (zoom : Z)
    (tileBody : TileCoord -> S -> S) (st : S) (x1 y1 x2 y2 : Z) :
  latLonToTile host (minLat bbox) (minLon bbox) zoom = {| x := of_Z x1; y := of_Z y1 |} ->
  latLonToTile host (maxLat bbox) (maxLon bbox) zoom = {| x := of_Z x2; y := of_Z y2 |} ->
  0 <= x1 < 2 ^ 53 -> 0 <= x2 < 2 ^ 53 -> 0 <= y1 < 2 ^ 53 -> 0 <= y2 < 2 ^ 53 ->
  Z.abs (x2 - x1) + 1 < Z.of_nat fuel -> Z.abs (y2 - y1) + 1 < Z.of_nat fuel ->
  zoomBody host fuel bbox tileBody zoom st
  = Some (fold_left (fun s t => tileBody t s)
            (rectangle zoom (Z.min x1 x2) (Z.max x1 x2) (Z.min y1 y2) (Z.max y1 y2))
            st).
Proof.
  intros Hsw Hne Hx1 Hx2 Hy1 Hy2 Hfx Hfy.
  unfold zoomBody. rewrite Hsw, Hne. cbn [x y].
  rewrite !Math_min_of_Z, !Math_max_of_Z by lia.
  rewrite (forNum_ints _ (Z.to_nat (Z.max x1 x2 - Z.min x1 x2 + 1))) by lia.
  rewrite (forOf_ext _ (fun xi s =>
             Some (fold_left (fun s t => tileBody t s)
                     (map (fun j => (zoom, xi, of_Z j))
                          (rangeInclusive (Z.min y1 y2) (Z.max y1 y2))) s))).
  - rewrite forOf_total. f_equal. unfold rectangle.
    rewrite <- fold_left_flat_map.
    generalize (rangeInclusive (Z.min x1 x2) (Z.max x1 x2)) as xs. intro xs. revert st.
    induction xs as [ | i xs IH ]; intro st; cbn [map fold_left]; [ reflexivity | apply IH ].
  - intros xi s _.
    rewrite (forNum_ints _ (Z.to_nat (Z.max y1 y2 - Z.min y1 y2 + 1))) by lia.
    rewrite forOf_total. f_equal.
    generalize (rangeInclusive (Z.min y1 y2) (Z.max y1 y2)) as ys. intro ys. revert s.
    induction ys as [ | j ys IH ]; intro s; cbn [map fold_left]; [ reflexivity | apply IH ].
Qed.
End Rectangle.

Lemma fold_left_snoc {A : Type} (l acc : list A) :
  fold_left (fun s t => s ++ [t]) l acc = acc ++ l.
Proof.
  revert acc. induction l as [ | a l IH ]; intro acc; cbn.
  - rewrite app_nil_r. reflexivity.
  - rewrite IH, <- app_assoc. reflexivity.
Qed.

Section ZeroRadius.
Variable host : Host.
Local Open Scope num_scope.

Lemma guarded_cosine_shape (c : num) :
  isNaN c = false ->
  Math_max c (decimal 1 6) = S754_infinity false \/
  exists m e, Math_max c (decimal 1 6) = S754_finite false m e /\ (-72 <= e)%Z.
Proof.
  intro Hc. change (decimal 1 6) with (S754_finite false 4722366482869645 (-72)).
  unfold Math_max.
  destruct c as [s | [ | ] | | [ | ] m e]; try discriminate; cbn [SFcompare];
    try (right; exists 4722366482869645%positive, (-72)%Z; split; [ reflexivity | lia ]).
  - left. reflexivity.
  - destruct (Z.compare_spec e (-72)) as [E | E | E].
    + destruct (Pos.compare_cont Eq m 4722366482869645); right.
      * exists m, e. split; [ reflexivity | lia ].
      * exists 4722366482869645%positive, (-72)%Z. split; [ reflexivity | lia ].
      * exists m, e. split; [ reflexivity | lia ].
    + right. exists 4722366482869645%positive, (-72)%Z. split; [ reflexivity | lia ].
    + right. exists m, e. split; [ reflexivity | lia ].
Qed.

Lemma lonDelta_zero (c : num) :
  isNaN c = false ->
  ((#0 / EARTH_RADIUS_METERS) * #180) / (Math_PI * Math_max c (decimal 1 6))
  = S754_zero false.
Proof.
  intro Hc.
  change ((#0 / EARTH_RADIUS_METERS) * #180) with (S754_zero false).
  destruct (guarded_cosine_shape c Hc) as [-> | (m & e & -> & He)].
  - reflexivity.
  - change Math_PI with (S754_finite false 7074237752028440 (-51)).
    unfold mul, SFmul. cbn [xorb].
    assert (Hbig : (2 ^ 52 <= Zpos (7074237752028440 * m))%Z).
    { rewrite Pos2Z.inj_mul. assert (1 <= Zpos m)%Z by lia.
      change (2 ^ 52)%Z with 4503599627370496%Z. nia. }
    destruct (binary_round_aux_large false (Zpos (7074237752028440 * m)) (-51 + e)
                loc_Exact Hbig ltac:(lia))
      as [-> | (q & e' & -> & _)]; reflexivity.
Qed.

Lemma sub_pos_zero (v : num) : isFinite v = true -> v - S754_zero false = v.
Proof. destruct v as [[ | ] | | | ]; cbn; congruence. Qed.

Lemma add_pos_zero (v : num) :
  isFinite v = true -> v + S754_zero false = v \/ (v = S754_zero true /\ v + S754_zero false = S754_zero false).
Proof. destruct v as [[ | ] | | | ]; cbn; try discriminate; auto. Qed.

Lemma latLonToTile_lon_zero (lat : num) (s : bool) (zoom : Z) :
  latLonToTile host lat (S754_zero s) zoom = latLonToTile host lat (S754_zero false) zoom.
Proof.
  unfold latLonToTile.
  replace (S754_zero s + #180) with (S754_zero false + #180) by (destruct s; reflexivity).
  reflexivity.
Qed.

(** With radius [0] the box is the centre. *)
Lemma computeBoundingBox_zero (lat lon : num) :
  isFinite lat = true -> isFinite lon = true ->
  isNaN (Math_cos host ((lat * Math_PI) / #180)) = false ->
  let bbox := computeBoundingBox host lat lon #0 in
  minLat bbox = lat /\ minLon bbox = lon /\
  (maxLat bbox = lat \/ (lat = S754_zero true /\ maxLat bbox = S754_zero false)) /\
  (maxLon bbox = lon \/ (lon = S754_zero true /\ maxLon bbox = S754_zero false)).
Proof.
  intros Hlat Hlon Hc. unfold computeBoundingBox. cbn [minLat minLon maxLat maxLon].
  rewrite (lonDelta_zero _ Hc).
  change ((#0 / EARTH_RADIUS_METERS) * #180 / Math_PI) with (S754_zero false).
  rewrite !sub_pos_zero by assumption.
  split; [ reflexivity | ]. split; [ reflexivity | ].
  split; apply add_pos_zero; assumption.
Qed.
End ZeroRadius.

Lemma of_Z_inj (a b : Z) :
  Z.abs a < 2 ^ 53 -> Z.abs b < 2 ^ 53 -> of_Z a = of_Z b -> a = b.
Proof.
  intros Ha Hb E. pose proof (compare_of_Z a b Ha Hb) as H.
  rewrite E, SFcompare_refl in H by apply of_Z_not_nan.
  injection H as H. symmetry in H. apply Z.compare_eq. assumption.
Qed.

Lemma rangeInclusive_NoDup (a b : Z) : NoDup (rangeInclusive a b).
Proof.
  unfold rangeInclusive. apply Injective_map_NoDup; [ | apply seq_NoDup ].
  intros i j H. lia.
Qed.

Lemma in_rectangle (zoom x0 x1 y0 y1 : Z) (t : TileCoord) :
  In t (rectangle zoom x0 x1 y0 y1) <->
  exists i j, t = (zoom, of_Z i, of_Z j) /\ x0 <= i <= x1 /\ y0 <= j <= y1.
Proof.
  unfold rectangle. rewrite in_flat_map. split.
  - intros (i & Hi & Ht). apply in_map_iff in Ht. destruct Ht as (j & <- & Hj).
    exists i, j. rewrite in_rangeInclusive in Hi, Hj. auto.
  - intros (i & j & -> & Hi & Hj). exists i. split; [ apply in_rangeInclusive; assumption | ].
    apply in_map_iff. exists j. split; [ reflexivity | apply in_rangeInclusive; assumption ].
Qed.

Lemma rectangle_NoDup (zoom x0 x1 y0 y1 : Z) :
  0 <= x0 -> x1 < 2 ^ 53 -> 0 <= y0 -> y1 < 2 ^ 53 ->
  NoDup (rectangle zoom x0 x1 y0 y1).
Proof.
  intros Hx0 Hx1 Hy0 Hy1. unfold rectangle.
  pose proof (rangeInclusive_NoDup x0 x1) as Hnd.
  assert (Hin : forall i, In i (rangeInclusive x0 x1) -> x0 <= i <= x1)
    by (intro i; apply in_rangeInclusive).
  induction (rangeInclusive x0 x1) as [ | i xs IH ]; cbn [flat_map]; [ constructor | ].
  inversion Hnd as [ | ? ? Hni Hnd' ]; subst.
  apply NoDup_app.
  - apply Injective_map_NoDup_in; [ | apply rangeInclusive_NoDup ].
    intros j j' Hj Hj' E. injection E as E.
    apply in_rangeInclusive in Hj, Hj'. apply of_Z_inj; [ lia | lia | assumption ].
  - apply IH; [ assumption | intros; apply Hin; right; assumption ].
  - intros t Ht Ht'. apply in_map_iff in Ht. destruct Ht as (j & <- & Hj).
    apply in_flat_map in Ht'. destruct Ht' as (i' & Hi' & Ht').
    apply in_map_iff in Ht'. destruct Ht' as (j' & E & Hj').
    injection E as Ei Ej.
    assert (i' = i).
    { apply of_Z_inj; [ | | assumption ].
      - specialize (Hin i' (or_intror Hi')). lia.
      - specialize (Hin i (or_introl eq_refl)). lia. }
    subst i'. contradiction.
Qed.

Lemma forNum_stuck {S : Type} (fuel : nat) (i hi : num)
    (body : num -> S -> option S) (st : S) :
  leb i hi = true -> add i (of_Z 1) = i -> forNum fuel i hi body st = None.
Proof.
  intros Hle Hadd. revert st.
  induction fuel as [ | fuel IH ]; intro st; cbn [forNum]; [ reflexivity | ].
  rewrite Hle. destruct (body i st); [ rewrite Hadd; apply IH | reflexivity ].
Qed.

Lemma enumerateTiles_single (host : Host) (fuel : nat) (bbox : BoundingBox) (zoom : Z) :
  enumerateTiles host fuel bbox [zoom]
  = zoomBody host fuel bbox (fun t acc => acc ++ [t]) zoom [].
Proof.
  unfold enumerateTiles, tileLoop. cbn [forOf].
  destruct (zoomBody _ _ _ _ _ _); reflexivity.
Qed.

(** C2. For every bounding box whose longitudes are numbers and every zoom
    level from 0 to 53, when the host logarithm is a number at the two
    clamped corner latitudes: the enumerator takes the tiles of the two
    opposite corners from [latLonToTile], takes the minimum and the maximum
    of x and of y independently, and with enough fuel for the longer side
    it ends and produces the tiles of that inclusive rectangle, each exactly
    once, in ascending x then ascending y; so a tile is produced if and only
    if it lies in that rectangle. *)
Theorem enumerateTiles_rectangle (host : Host) (bbox : BoundingBox) (zoom : Z) :
  0 <= zoom <= 53 ->
  isNaN (minLon bbox) = false -> isNaN (maxLon bbox) = false ->
  isNaN (mercatorLog host (clampLat (minLat bbox) * Math_PI / of_Z 180)%num) = false ->
  isNaN (mercatorLog host (clampLat (maxLat bbox) * Math_PI / of_Z 180)%num) = false ->
  exists x1 y1 x2 y2 : Z,
    latLonToTile host (minLat bbox) (minLon bbox) zoom = {| x := of_Z x1; y := of_Z y1 |} /\
    latLonToTile host (maxLat bbox) (maxLon bbox) zoom = {| x := of_Z x2; y := of_Z y2 |} /\
    (0 <= x1 <= 2 ^ zoom - 1 /\ 0 <= y1 <= 2 ^ zoom - 1 /\
     0 <= x2 <= 2 ^ zoom - 1 /\ 0 <= y2 <= 2 ^ zoom - 1) /\
    let tiles :=
      rectangle zoom (Z.min x1 x2) (Z.max x1 x2) (Z.min y1 y2) (Z.max y1 y2) in
    (forall fuel : nat,
        Z.abs (x2 - x1) + 1 < Z.of_nat fuel -> Z.abs (y2 - y1) + 1 < Z.of_nat fuel ->
        enumerateTiles host fuel bbox [zoom] = Some tiles) /\
    NoDup tiles /\
    (forall t, In t tiles <->
       exists i j, t = (zoom, of_Z i, of_Z j) /\
                   Z.min x1 x2 <= i <= Z.max x1 x2 /\ Z.min y1 y2 <= j <= Z.max y1 y2).
Proof.
  intros Hz Hlon1 Hlon2 Hlog1 Hlog2.
  destruct (latLonToTile_index host _ _ zoom Hz Hlon1 Hlog1) as (x1 & y1 & Hx1 & Hy1 & Hsw).
  destruct (latLonToTile_index host _ _ zoom Hz Hlon2 Hlog2) as (x2 & y2 & Hx2 & Hy2 & Hne).
  pose proof (pow2_bound zoom Hz) as Hb.
  exists x1, y1, x2, y2.
  split; [ assumption | ]. split; [ assumption | ]. split; [ auto | ].
  split; [ | split ].
  - intros fuel Hfx Hfy. rewrite enumerateTiles_single.
    rewrite (zoomBody_rectangle host fuel bbox zoom _ _ x1 y1 x2 y2) by (assumption || lia).
    rewrite fold_left_snoc. reflexivity.
  - apply rectangle_NoDup; lia.
  - intro t. apply in_rectangle.
Qed.

(** The four tiles around San Francisco at zoom 12. *)
Lemma enumerateTiles_rectangle_witness :
  enumerateTiles sampleHost 10 sampleBox [12]
  = Some [(12, of_Z 654, of_Z 1582); (12, of_Z 654, of_Z 1583);
          (12, of_Z 655, of_Z 1582); (12, of_Z 655, of_Z 1583)] /\
  exists tiles, enumerateTiles sampleHost 10 sampleBox [12] = Some tiles /\ NoDup tiles.
Proof.
  split; [ vm_compute; reflexivity | ].
  destruct (enumerateTiles_rectangle sampleHost sampleBox 12)
    as (x1 & y1 & x2 & y2 & Hsw & Hne & Hb & Henum & Hnd & _);
    [ lia | vm_compute; reflexivity | vm_compute; reflexivity
    | vm_compute; reflexivity | vm_compute; reflexivity | ].
  eexists. split; [ | exact Hnd ].
  assert (Hx1 : x1 = 654).
  { apply (f_equal x) in Hsw. cbn [x] in Hsw.
    apply of_Z_inj; [ lia | lia | ]. rewrite <- Hsw. vm_compute. reflexivity. }
  assert (Hx2 : x2 = 655).
  { apply (f_equal x) in Hne. cbn [x] in Hne.
    apply of_Z_inj; [ lia | lia | ]. rewrite <- Hne. vm_compute. reflexivity. }
  assert (Hy1 : y1 = 1583).
  { apply (f_equal y) in Hsw. cbn [y] in Hsw.
    apply of_Z_inj; [ lia | lia | ]. rewrite <- Hsw. vm_compute. reflexivity. }
  assert (Hy2 : y2 = 1582).
  { apply (f_equal y) in Hne. cbn [y] in Hne.
    apply of_Z_inj; [ lia | lia | ]. rewrite <- Hne. vm_compute. reflexivity. }
  apply Henum; lia.
Defined.

(** At zoom 54 the column counter no longer grows when 1 is added, and the
    enumeration of a one-point box on the antimeridian never ends, on every
    host and whatever the fuel. *)
Lemma enumerateTiles_zoom54_never_ends :
  (forall host : Host,
     let t := latLonToTile host (of_Z 0) (of_Z 180) 54 in
     add (x t) (of_Z 1) = x t /\ leb (x t) (x t) = true) /\
  (forall (host : Host) (fuel : nat),
     enumerateTiles host fuel antimeridianBox [54] = None).
Proof.
  split; [ intro host; split; vm_compute; reflexivity | ].
  intros host fuel. rewrite enumerateTiles_single. unfold zoomBody.
  apply forNum_stuck; vm_compute; reflexivity.
Qed.

Section ZeroLatitude.
Variable host : Host.
Local Open Scope num_scope.

(** The latitude in radians of the two zeros. *)
Lemma latRad_zero (s : bool) :
  (clampLat (S754_zero s) * Math_PI) / #180 = S754_zero s.
Proof. destruct s; vm_compute; reflexivity. Qed.

(** On a host that is exact at the zeros the projection does not tell
    them apart. *)
Lemma exactAtZero_mercatorLog :
  exactAtZero host ->
  mercatorLog host (S754_zero false) = mercatorLog host (S754_zero true).
Proof.
  intro H. unfold mercatorLog.
  destruct (H false) as [-> ->]. destruct (H true) as [-> ->]. reflexivity.
Qed.

Lemma latLonToTile_lat_zero (lon : num) (zoom : Z) :
  mercatorLog host (S754_zero false) = mercatorLog host (S754_zero true) ->
  latLonToTile host (S754_zero false) lon zoom = latLonToTile host (S754_zero true) lon zoom.
Proof.
  intro H. unfold latLonToTile. rewrite !latRad_zero, H. reflexivity.
Qed.
End ZeroLatitude.

(** C7. For every zoom level from 0 to 53 and every finite centre, when
    the host cosine and logarithm are numbers there (and, for the latitude
    -0, when the host's projection term is the same at -0 and +0, as it is
    on a host that is exact at the zeros): with radius 0 the four sides of
    the bounding box are numerically equal to the centre, and the
    enumerator ends and yields exactly one tile, the tile of
    [latLonToTile] at the centre. *)
Theorem zero_radius_single_tile (host : Host) (lat lon : num) (zoom : Z) :
  0 <= zoom <= 53 ->
  isFinite lat = true -> isFinite lon = true ->
  (lat = S754_zero true ->
   mercatorLog host (S754_zero false) = mercatorLog host (S754_zero true)) ->
  isNaN (Math_cos host (lat * Math_PI / of_Z 180)%num) = false ->
  isNaN (mercatorLog host (clampLat lat * Math_PI / of_Z 180)%num) = false ->
  let bbox := computeBoundingBox host lat lon (of_Z 0) in
  let t := latLonToTile host lat lon zoom in
  (SFeqb (minLat bbox) lat = true /\ SFeqb (maxLat bbox) lat = true /\
   SFeqb (minLon bbox) lon = true /\ SFeqb (maxLon bbox) lon = true) /\
  forall fuel : nat, (2 <= fuel)%nat ->
    enumerateTiles host fuel bbox [zoom] = Some [(zoom, x t, y t)].
Proof.
  intros Hz Hlat Hlon Hzero Hcos Hlog bbox t.
  destruct (computeBoundingBox_zero host lat lon Hlat Hlon Hcos)
    as (Hminlat & Hminlon & Hmaxlat & Hmaxlon). fold bbox in Hminlat, Hminlon, Hmaxlat, Hmaxlon.
  pose proof (isFinite_not_nan _ Hlat) as Hlat'.
  pose proof (isFinite_not_nan _ Hlon) as Hlon'.
  assert (Hne : latLonToTile host (maxLat bbox) (maxLon bbox) zoom = t).
  { assert (Hl : forall l, latLonToTile host (maxLat bbox) l zoom = latLonToTile host lat l zoom).
    { intro l. destruct Hmaxlat as [-> | [Hc ->]]; [ reflexivity | ].
      rewrite Hc. apply latLonToTile_lat_zero, Hzero, Hc. }
    rewrite Hl. destruct Hmaxlon as [-> | [-> ->]]; [ reflexivity | ].
    subst t. symmetry. apply latLonToTile_lon_zero. }
  assert (Heq : forall v, isNaN v = false -> SFeqb v v = true).
  { intros v Hv. unfold SFeqb. rewrite SFcompare_refl by assumption. reflexivity. }
  split.
  - rewrite Hminlat, Hminlon.
    split; [ apply Heq; assumption | ].
    split; [ destruct Hmaxlat as [-> | [-> ->]]; [ apply Heq; assumption | reflexivity ] | ].
    split; [ apply Heq; assumption | ].
    destruct Hmaxlon as [-> | [-> ->]]; [ apply Heq; assumption | reflexivity ].
  - intros fuel Hfuel.
    destruct (latLonToTile_index host lat lon zoom Hz Hlon' Hlog) as (kx & ky & Hkx & Hky & Ht).
    fold t in Ht. pose proof (pow2_bound zoom Hz) as Hb.
    rewrite enumerateTiles_single.
    rewrite (zoomBody_rectangle host fuel bbox zoom _ _ kx ky kx ky);
      try lia; [ | rewrite Hminlat, Hminlon; exact Ht | rewrite Hne; exact Ht ].
    rewrite fold_left_snoc, Ht. cbn [x y].
    rewrite !Z.min_id, !Z.max_id. unfold rectangle.
    rewrite !(rangeInclusive_cons _ _ (Z.le_refl _)), !rangeInclusive_nil by lia.
    reflexivity.
Qed.

(** Radius 0 at San Francisco, zoom 10; and at the latitude -0. *)
Lemma zero_radius_single_tile_witness :
  enumerateTiles sampleHost 2 (computeBoundingBox sampleHost sampleLat sampleLon (of_Z 0)) [10]
  = Some [(10, of_Z 163, of_Z 395)] /\
  enumerateTiles sampleHost 2
    (computeBoundingBox sampleHost (S754_zero true) sampleLon (of_Z 0)) [10]
  = Some [(10, of_Z 163, of_Z 512)].
Proof.
  split.
  - destruct (zero_radius_single_tile sampleHost sampleLat sampleLon 10) as [_ H];
      [ lia | vm_compute; reflexivity | vm_compute; reflexivity | discriminate
      | vm_compute; reflexivity | vm_compute; reflexivity | ].
    rewrite (H 2%nat (le_n 2)). vm_compute. reflexivity.
  - destruct (zero_radius_single_tile sampleHost (S754_zero true) sampleLon 10) as [_ H];
      [ lia | vm_compute; reflexivity | vm_compute; reflexivity
      | intros _; vm_compute; reflexivity
      | vm_compute; reflexivity | vm_compute; reflexivity | ].
    rewrite (H 2%nat (le_n 2)). vm_compute. reflexivity.
Defined.

(** With radius 0 no tile is produced at zoom 1024, nor at a latitude so
    large that its product with PI overflows. *)
Lemma zero_radius_no_tile :
  enumerateTiles sampleHost 100
    (computeBoundingBox sampleHost (of_Z 0) (neg (of_Z 180)) (of_Z 0)) [1024] = Some [] /\
  enumerateTiles sampleHost 100
    (computeBoundingBox sampleHost (of_Z (10 ^ 308)) (of_Z 0) (of_Z 0)) [3] = Some [].
Proof. split; vm_compute; reflexivity. Qed.

(** C6. For every centre and radius, [computeBoundingBox] is the box of the
    formula: angularRadius = radiusMeters / 6371008.8, latDelta =
    angularRadius * 180 / PI, lonDelta = angularRadius * 180 /
    (PI * max(cos(latRad), 1e-6)), and the box is lat -/+ latDelta,
    lon -/+ lonDelta; the cosine divisor is never smaller than 1e-6 (it is
    at least 1e-6 whenever the cosine is a number). *)
Theorem computeBoundingBox_formula (host : Host) (lat lon radiusMeters : num) :
  let cosLat := Math_cos host (lat * Math_PI / of_Z 180)%num in
  computeBoundingBox host lat lon radiusMeters
  = boundingBox_spec cosLat lat lon radiusMeters /\
  ltb (Math_max cosLat (decimal 1 6)) (decimal 1 6) = false /\
  (isNaN cosLat = true \/ leb (decimal 1 6) (Math_max cosLat (decimal 1 6)) = true).
Proof.
  intro cosLat. split; [ reflexivity | ]. split.
  - apply Math_max_not_lt_r.
  - destruct (isNaN cosLat) eqn:Hn; [ left; reflexivity | right ].
    apply Math_max_ge_r; [ assumption | vm_compute; reflexivity ].
Qed.

(** ** Zoom levels *)

(** *** Sorting *)

Lemma insertSorted_in (z a : Z) (l : list Z) :
  In a (insertSorted z l) <-> a = z \/ In a l.
Proof.
  induction l as [ | b l IH ]; cbn [insertSorted In].
  - intuition.
  - destruct (z <? b); cbn [In]; [ intuition | rewrite IH; intuition ].
Qed.

Lemma sortAscending_in (a : Z) (l : list Z) :
  In a (sortAscending l) <-> In a l.
Proof.
  induction l as [ | b l IH ]; cbn [sortAscending fold_right In]; [ reflexivity | ].
  fold (sortAscending l). rewrite insertSorted_in, IH. intuition.
Qed.

Lemma insertSorted_strict (z : Z) (l : list Z) :
  StronglySorted Z.lt l -> ~ In z l -> StronglySorted Z.lt (insertSorted z l).
Proof.
  intros Hs. induction Hs as [ | b l Hs IH Hb ]; intro Hn; cbn [insertSorted].
  - constructor; constructor.
  - destruct (Z.ltb_spec z b) as [Hlt | Hge].
    + constructor; [ constructor; assumption | ].
      constructor; [ assumption | ].
      eapply Forall_impl; [ | exact Hb ]. intros c Hc. lia.
    + assert (b < z) by (cbn [In] in Hn; lia).
      constructor; [ apply IH; cbn [In] in Hn; tauto | ].
      apply Forall_forall. intros c Hc. apply insertSorted_in in Hc.
      destruct Hc as [-> | Hc]; [ assumption | ].
      rewrite Forall_forall in Hb. auto.
Qed.

Lemma sortAscending_strict (l : list Z) :
  NoDup l -> StronglySorted Z.lt (sortAscending l).
Proof.
  intro H. induction H as [ | a l Ha _ IH ]; cbn [sortAscending fold_right].
  - constructor.
  - fold (sortAscending l). apply insertSorted_strict; [ exact IH | ].
    rewrite sortAscending_in. exact Ha.
Qed.

(** *** First occurrences *)

Lemma indexOf_nth (z : Z) (arr : list Z) (i : nat) :
  indexOf z arr = Some i -> nth_error arr i = Some z.
Proof.
  revert i. induction arr as [ | a arr IH ]; intros i; cbn [indexOf]; [ discriminate | ].
  destruct (Z.eqb_spec a z) as [-> | Hne].
  - intro H. injection H as <-. reflexivity.
  - destruct (indexOf z arr) as [j | ]; [ | discriminate ].
    cbn [option_map]. intro H. injection H as <-. cbn. apply IH. reflexivity.
Qed.

Lemma indexOf_in (z : Z) (arr : list Z) :
  In z arr -> exists i, indexOf z arr = Some i.
Proof.
  induction arr as [ | a arr IH ]; [ intros [] | ]. intro H. cbn [indexOf].
  destruct (Z.eqb_spec a z) as [-> | Hne]; [ eauto | ].
  destruct H as [H | H]; [ congruence | ].
  destruct (IH H) as (i & ->). cbn. eauto.
Qed.

Lemma in_combine_seq {A : Type} (arr : list A) (start : nat) (a : A) (i : nat) :
  In (a, i) (combine arr (seq start (List.length arr))) <->
  (start <= i)%nat /\ nth_error arr (i - start) = Some a.
Proof.
  revert start. induction arr as [ | b arr IH ]; intro start; cbn [List.length seq combine In].
  - split; [ intros [] | ]. intros [_ H]. destruct (i - start)%nat; discriminate.
  - rewrite IH. split.
    + intros [H | [H1 H2]].
      * injection H as <- <-. rewrite Nat.sub_diag. split; [ lia | reflexivity ].
      * split; [ lia | ].
        replace (i - start)%nat with (S (i - S start)) by lia. exact H2.
    + intros [H1 H2]. destruct (Nat.eq_dec i start) as [-> | Hne].
      * left. rewrite Nat.sub_diag in H2. cbn in H2. congruence.
      * right. split; [ lia | ].
        replace (i - start)%nat with (S (i - S start)) in H2 by lia. exact H2.
Qed.

Lemma combine_seq_NoDup {A : Type} (arr : list A) (start : nat) :
  NoDup (combine arr (seq start (List.length arr))).
Proof.
  revert start. induction arr as [ | b arr IH ]; intro start; cbn [List.length seq combine].
  - constructor.
  - constructor; [ | apply IH ].
    intro H. apply in_combine_seq in H. lia.
Qed.

Lemma keepFirstOccurrences_in (z : Z) (arr : list Z) :
  In z (keepFirstOccurrences arr) <-> In z arr.
Proof.
  unfold keepFirstOccurrences. rewrite in_map_iff. split.
  - intros ([a i] & <- & H). apply filter_In in H. destruct H as [H _].
    apply in_combine_l in H. exact H.
  - intro H. destruct (indexOf_in z arr H) as (i & Hi).
    exists (z, i). split; [ reflexivity | ]. apply filter_In. split.
    + apply in_combine_seq. rewrite Nat.sub_0_r.
      split; [ lia | apply indexOf_nth; exact Hi ].
    + cbn [fst snd]. rewrite Hi. apply Nat.eqb_refl.
Qed.

Lemma keepFirstOccurrences_NoDup (arr : list Z) : NoDup (keepFirstOccurrences arr).
Proof.
  unfold keepFirstOccurrences.
  apply Injective_map_NoDup_in; [ | apply NoDup_filter, combine_seq_NoDup ].
  intros [a i] [b j] Ha Hb E. cbn [fst] in E. subst b.
  apply filter_In in Ha, Hb. destruct Ha as [_ Ha], Hb as [_ Hb]. cbn [fst snd] in Ha, Hb.
  destruct (indexOf a arr) as [k | ]; [ | discriminate ].
  apply Nat.eqb_eq in Ha, Hb. congruence.
Qed.

(** *** Arrays of specifications *)

Lemma flatMap_in {A B X : Type} (f : A -> option (Completion (list B) X))
    (l : list A) (r : list B) :
  flatMap f l = Some (Normal r) ->
  forall z, In z r <-> exists a ra, In a l /\ f a = Some (Normal ra) /\ In z ra.
Proof.
  revert r. induction l as [ | a l IH ]; cbn [flatMap]; intros r H z.
  - injection H as <-. split; [ intros [] | intros (a & ra & [] & _) ].
  - destruct (f a) as [[ra | e] | ] eqn:Ea; try discriminate.
    destruct (flatMap f l) as [[r' | e] | ]; try discriminate.
    injection H as <-.
    rewrite in_app_iff, (IH r' eq_refl z). split.
    + intros [Hz | (b & rb & Hb & Hfb & Hz)].
      * exists a, ra. split; [ left; reflexivity | split; assumption ].
      * exists b, rb. split; [ right; assumption | split; assumption ].
    + intros (b & rb & [<- | Hb] & Hfb & Hz).
      * left. rewrite Ea in Hfb. injection Hfb as ->. exact Hz.
      * right. exists b, rb. split; [ assumption | split; assumption ].
Qed.

Lemma flatMap_returns {A B X : Type} (f : A -> option (Completion (list B) X))
    (l : list A) :
  (forall a, In a l -> exists r, f a = Some (Normal r)) ->
  exists r, flatMap f l = Some (Normal r).
Proof.
  induction l as [ | a l IH ]; cbn [flatMap]; intro H; [ eauto | ].
  destruct (H a (or_introl eq_refl)) as (ra & ->).
  destruct IH as (r' & ->); [ intros b Hb; apply H; right; exact Hb | ]. eauto.
Qed.

Lemma flatMap_ends {A B X : Type} (f : A -> option (Completion (list B) X))
    (l : list A) :
  (forall a, In a l -> f a <> None) -> flatMap f l <> None.
Proof.
  induction l as [ | a l IH ]; cbn [flatMap]; intro H; [ discriminate | ].
  destruct (f a) as [[ra | e] | ] eqn:Ea.
  - destruct (flatMap f l) as [[r' | e] | ]; try discriminate.
    exfalso. apply IH; [ | reflexivity ]. intros b Hb. apply H. right. exact Hb.
  - discriminate.
  - exfalso. apply (H a); [ left; reflexivity | exact Ea ].
Qed.

Lemma parseZooms_array (limit fuel : nat) (l : list value) :
  l <> [] ->
  parseZooms limit fuel (VArray l)
  = match flatMap (parseZooms limit fuel) l with
    | Some (Normal zooms) => Some (Normal (sortAscending (keepFirstOccurrences zooms)))
    | other => other
    end.
Proof. destruct l; [ congruence | reflexivity ]. Qed.

(** X2. An array of zoom specifications is unioned, deduplicated and sorted
    ascending: the result is strictly ascending and holds exactly the zoom
    levels of the elements; and it is parsed whenever each element is. *)
Theorem parseZooms_array_union (limit fuel : nat) (l : list value) :
  l <> [] ->
  (forall zooms, parseZooms limit fuel (VArray l) = Some (Normal zooms) ->
     StronglySorted Z.lt zooms /\
     forall z, In z zooms <->
               exists v r, In v l /\ parseZooms limit fuel v = Some (Normal r) /\ In z r) /\
  ((forall v, In v l -> parseZooms limit fuel v <> None) ->
   parseZooms limit fuel (VArray l) <> None) /\
  ((forall v, In v l -> exists r, parseZooms limit fuel v = Some (Normal r)) ->
   exists zooms, parseZooms limit fuel (VArray l) = Some (Normal zooms)).
Proof.
  intro H. rewrite parseZooms_array by assumption. split; [ | split ].
  - intros zooms Hz.
    destruct (flatMap (parseZooms limit fuel) l) as [[r | e] | ] eqn:E; try discriminate.
    injection Hz as <-. split.
    + apply sortAscending_strict, keepFirstOccurrences_NoDup.
    + intro z. rewrite sortAscending_in, keepFirstOccurrences_in.
      apply (flatMap_in _ _ _ E).
  - intros Hall Hn.
    destruct (flatMap (parseZooms limit fuel) l) as [[r | e] | ] eqn:E; try discriminate.
    exact (flatMap_ends _ _ Hall E).
  - intro Hall. destruct (flatMap_returns _ _ Hall) as (r & ->). eauto.
Qed.

(** X1. The two examples of zoom parsing: the range 12-14 gives 12, 13, 14
    (with fuel for the four tests of the loop and room for three elements),
    and the array of 12, 12, 13 gives 12, 13. *)
Theorem parseZooms_examples (m n : nat) :
  parseZooms (3 + m) (4 + n) (VString "12-14") = Some (Normal [12; 13; 14]) /\
  parseZooms m n (VArray [VString "12"; VString "12"; VString "13"])
  = Some (Normal [12; 13]).
Proof. split; vm_compute; reflexivity. Qed.

(** An array with a repeated entry, out of order. *)
Lemma parseZooms_array_union_witness :
  exists zooms,
    parseZooms 0 0 (VArray [VString "13"; VString "12"; VString "12"]) = Some (Normal zooms) /\
    StronglySorted Z.lt zooms.
Proof.
  exists [12; 13]. split; [ vm_compute; reflexivity | ].
  apply (proj1 (parseZooms_array_union 0 0 [VString "13"; VString "12"; VString "12"]
                  ltac:(discriminate))).
  vm_compute. reflexivity.
Defined.

(** C4. A comma-separated list given as one string is returned as written:
    neither deduplicated nor sorted, and a list that holds a dash is read as
    one range from its first to its last integer. *)
Theorem parseZooms_comma_list_as_written (m n : nat) :
  parseZooms m n (VString "13,12,12") = Some (Normal [13; 12; 12]) /\
  parseZooms m n (VArray [VString "13,12,12"]) = Some (Normal [12; 13]) /\
  parseZooms (5 + m) (6 + n) (VString "10,12-14") = Some (Normal [10; 11; 12; 13; 14]).
Proof. repeat split; vm_compute; reflexivity. Qed.

(** *** Entries of a string *)

Lemma to_Z_of_Z (k : Z) : Z.abs k < 2 ^ 53 -> to_Z (of_Z k) = k.
Proof.
  intro H. rewrite of_Z_canon by assumption. unfold canon.
  destruct (Z.eqb_spec k 0) as [-> | Hk]; [ reflexivity | ].
  assert (Hp : 0 < Z.abs k < 2 ^ 53) by lia.
  pose proof (log2_small _ Hp) as Hl.
  cbn [to_Z]. unfold floorZ, exp53. rewrite mant53_value by assumption.
  replace (Z.log2 (Z.abs k) - 52) with (- (52 - Z.log2 (Z.abs k))) by lia.
  rewrite Z.shiftl_opp_r, Z.shiftr_div_pow2 by lia.
  destruct (Z.ltb_spec k 0) as [Hneg | Hpos]; cbn [cond_Zopp].
  - rewrite <- Z.mul_opp_l, Z.div_mul by (apply Z.pow_nonzero; lia). lia.
  - rewrite Z.div_mul by (apply Z.pow_nonzero; lia). lia.
Qed.

Lemma zoomValues_of_Z (l : list Z) :
  (forall k, In k l -> Z.abs k < 2 ^ 53) -> zoomValues (map of_Z l) = l.
Proof.
  intro H. unfold zoomValues. rewrite map_map.
  rewrite (map_ext_in _ (fun k => k)); [ apply map_id | ].
  intros k Hk. apply to_Z_of_Z, H, Hk.
Qed.

(** *** The loop that fills a range *)

Section RangeLoop.
Variable limit : nat.

(** Every turn of the loop makes the array longer, so the loop ends: by
    its test, or by the error of [push] on a full array. *)
Lemma range_loop_ends (fuel : nat) :
  forall (i hi : num) (range : list num),
    (limit - List.length range < fuel)%nat ->
    forNumT fuel i hi (fun z range => Some (push limit range z)) range <> None.
Proof.
  induction fuel as [ | fuel IH ]; intros i hi range Hf; [ lia | ].
  cbn [forNumT]. destruct (leb i hi); [ | discriminate ].
  unfold push.
  destruct (Nat.ltb_spec (List.length range) limit) as [Hlt | Hge]; [ | discriminate ].
  apply IH. rewrite length_app. cbn [List.length]. lia.
Qed.

(** A counter that no longer grows fills the array until [push] throws. *)
Lemma range_loop_stuck (fuel : nat) (i hi : num) :
  leb i hi = true -> add i (of_Z 1) = i ->
  forall range : list num,
    (limit - List.length range < fuel)%nat ->
    forNumT fuel i hi (fun z range => Some (push limit range z)) range = Some (Throw RangeError).
Proof.
  intros Hle Hadd. induction fuel as [ | fuel IH ]; intros range Hf; [ lia | ].
  cbn [forNumT]. rewrite Hle. unfold push.
  destruct (Nat.ltb_spec (List.length range) limit) as [Hlt | Hge]; [ | reflexivity ].
  rewrite Hadd. apply IH. rewrite length_app. cbn [List.length]. lia.
Qed.

(** Between two small integers the loop collects them in order while
    there is room for them. *)
Lemma range_loop_fits (fuel : nat) (b : Z) :
  0 <= b < 2 ^ 53 ->
  forall (a : Z) (range : list num),
    0 <= a <= b + 1 ->
    b - a + 1 < Z.of_nat fuel ->
    b - a + 1 + Z.of_nat (List.length range) <= Z.of_nat limit ->
    forNumT fuel (of_Z a) (of_Z b) (fun z range => Some (push limit range z)) range
    = Some (Normal (range ++ map of_Z (rangeInclusive a b))).
Proof.
  intro Hb. induction fuel as [ | fuel IH ]; intros a range Ha Hf Hroom; [ lia | ].
  cbn [forNumT]. rewrite leb_of_Z by lia.
  destruct (Z.leb_spec a b) as [Hle | Hgt].
  - unfold push.
    replace (List.length range <? limit)%nat with true
      by (symmetry; apply Nat.ltb_lt; lia).
    rewrite succ_of_Z by lia.
    rewrite IH; [ | lia | lia | rewrite length_app; cbn [List.length]; lia ].
    rewrite (rangeInclusive_cons a b) by lia. cbn [map].
    rewrite <- app_assoc. reflexivity.
  - rewrite rangeInclusive_nil by lia. cbn [map]. rewrite app_nil_r. reflexivity.
Qed.

(** A range with more integers than there is room for ends with the
    error. *)
Lemma range_loop_overflows (fuel : nat) (b : Z) :
  b < 2 ^ 53 ->
  forall (a : Z) (range : list num),
    0 <= a <= b ->
    (List.length range <= limit)%nat ->
    Z.of_nat limit < b - a + 1 + Z.of_nat (List.length range) ->
    (limit - List.length range < fuel)%nat ->
    forNumT fuel (of_Z a) (of_Z b) (fun z range => Some (push limit range z)) range = Some (Throw RangeError).
Proof.
  intro Hb. induction fuel as [ | fuel IH ]; intros a range Ha Hlen Hlong Hf; [ lia | ].
  cbn [forNumT]. unfold push.
  rewrite leb_of_Z by lia.
  replace (a <=? b) with true by (symmetry; apply Z.leb_le; lia).
  destruct (Nat.ltb_spec (List.length range) limit) as [Hlt | Hge]; [ | reflexivity ].
  rewrite succ_of_Z by lia.
  apply IH; rewrite ?length_app; cbn [List.length]; lia.
Qed.
End RangeLoop.

Lemma of_Z_small_finite (k : Z) : 0 <= k < 2 ^ 53 -> isFinite (of_Z k) = true.
Proof.
  intro H. destruct (of_Z_small_shape k H) as [-> | (m & e & -> & _)]; reflexivity.
Qed.

Lemma commaList_in (s : string) (z : Z) :
  In z (commaList s) <->
  exists part, In part (split ","%char s) /\
               isFinite (parseInt (trim part)) = true /\
               to_Z (parseInt (trim part)) = z.
Proof.
  unfold commaList, zoomValues. rewrite in_map_iff. split.
  - intros (v & <- & Hv). apply filter_In in Hv. destruct Hv as [Hv Hfin].
    apply in_map_iff in Hv. destruct Hv as (part & <- & Hpart).
    exists part. split; [ assumption | split; [ assumption | reflexivity ] ].
  - intros (part & Hpart & Hfin & <-). exists (parseInt (trim part)).
    split; [ reflexivity | ]. apply filter_In. split; [ | assumption ].
    apply in_map_iff. exists part. split; [ reflexivity | assumption ].
Qed.

Lemma parseZooms_string (limit fuel : nat) (s : string) :
  isEmpty s = false ->
  parseZooms limit fuel (VString s) = parseZoomString limit fuel (trim s).
Proof. intro H. cbn [parseZooms falsy lengthIsZero]. rewrite H. reflexivity. Qed.

(** Parsing one string ends, given fuel for one test more than the array
    has room. *)
Lemma parseZoomString_ends (limit fuel : nat) (s : string) :
  (limit < fuel)%nat -> parseZoomString limit fuel s <> None.
Proof.
  intro Hf. unfold parseZoomString.
  destruct (includes "-"%char s); [ | discriminate ].
  destruct (map parseInt (split "-"%char s)) as [ | start [ | end_ rest ] ];
    try discriminate.
  destruct (isFinite start && isFinite end_ && leb start end_); [ | discriminate ].
  pose proof (range_loop_ends limit fuel start end_ []) as H.
  cbn [List.length] in H. rewrite Nat.sub_0_r in H. specialize (H Hf).
  destruct (forNumT fuel start end_ _ []) as [[range | e] | ];
    [ discriminate | discriminate | congruence ].
Qed.

Section NoZoom.
Variable host : Host.
Variable E : Environment.
Variable other : num -> string.
Variable cwd scriptDir : string.

Lemma main_no_zoom (fuel : nat) (p : Process) (fs : FS E) :
  parseZooms (maxArrayLength host) fuel (zoomArgument p) = Some (Normal []) ->
  main host E other cwd scriptDir fuel p fs
  = Some (Normal {| exitCode := 1; run := start E fs |}).
Proof.
  intro H. unfold main.
  destruct (negb (Number_isFinite _) || negb (Number_isFinite _)); [ reflexivity | ].
  destruct (parseNumber host (getArg p "lat" "DOWNLOAD_LAT") None); [ | reflexivity ].
  destruct (parseNumber host (getArg p "lon" "DOWNLOAD_LON") None); [ | reflexivity ].
  rewrite H. reflexivity.
Qed.

Lemma script_no_zoom (fuel : nat) (p : Process) (fs : FS E) :
  parseZooms (maxArrayLength host) fuel (zoomArgument p) = Some (Normal []) ->
  script host E other cwd scriptDir fuel p fs
  = Some {| exitCode := 1; run := start E fs |}.
Proof. intro H. unfold script. rewrite (main_no_zoom fuel p fs H). reflexivity. Qed.
End NoZoom.

(** C5. What the code does with malformed entries.  An entry of a
    comma-separated list contributes a zoom level exactly when [parseInt]
    reads a finite number at its start, so an entry without a leading
    integer is dropped, but "12abc" contributes 12; a string is read as that
    list unless it holds a dash and its first two dash-separated parts are
    the ends of an ascending range, so the descending range "14-12" is read
    by the comma rule and contributes 14.  When the resulting zoom set is
    empty the downloader sets exit code 1 and makes no request. *)
Theorem zoom_entries_and_empty_set (host : Host) (E : Environment)
    (other : num -> string) (cwd scriptDir : string) (limit fuel : nat) :
  (forall s z,
     In z (commaList s) <->
     exists part, In part (split ","%char s) /\
                  isFinite (parseInt (trim part)) = true /\
                  to_Z (parseInt (trim part)) = z) /\
  (forall s,
     isEmpty s = false ->
     includes "-"%char (trim s) && ascendingRange (trim s) = false ->
     parseZooms limit fuel (VString s) = Some (Normal (commaList (trim s)))) /\
  (parseZooms limit fuel (VString "abc") = Some (Normal []) /\
   parseZooms limit fuel (VString "12,abc,13") = Some (Normal [12; 13])) /\
  (parseZooms limit fuel (VString "14-12") = Some (Normal [14]) /\
   parseZooms limit fuel (VString "12abc") = Some (Normal [12])) /\
  (forall p fs,
     parseZooms (maxArrayLength host) fuel (zoomArgument p) = Some (Normal []) ->
     script host E other cwd scriptDir fuel p fs
     = Some {| exitCode := 1; run := start E fs |}).
Proof.
  split; [ exact commaList_in | ].
  split; [ | split; [ | split ] ].
  - intros s Hs Hr. rewrite parseZooms_string by assumption.
    unfold parseZoomString, ascendingRange in *.
    destruct (includes "-"%char (trim s)); [ | reflexivity ].
    cbn [andb] in Hr.
    destruct (map parseInt (split "-"%char (trim s))) as [ | start [ | end_ rest ] ];
      try reflexivity.
    rewrite Hr. reflexivity.
  - split; vm_compute; reflexivity.
  - split; vm_compute; reflexivity.
  - intros p fs. apply script_no_zoom.
Qed.

(** X3. A range never keeps the script in its loop: parsing a string ends
    whenever the fuel exceeds the room of an array.  An ascending range
    between integers below 2^53 gives all of them when the array has room
    for them, and ends with RangeError when it has not; and a range that
    starts at 2^53, where adding 1 leaves the counter where it is, fills
    the array until [push] throws RangeError. *)
Theorem parseZooms_range_throws (limit fuel : nat) :
  (limit < fuel)%nat ->
  (forall s, parseZooms limit fuel (VString s) <> None) /\
  (forall s a b rest,
     isEmpty s = false -> includes "-"%char (trim s) = true ->
     map parseInt (split "-"%char (trim s)) = of_Z a :: of_Z b :: rest ->
     0 <= a <= b -> b < 2 ^ 53 ->
     (b - a + 1 <= Z.of_nat limit ->
      parseZooms limit fuel (VString s) = Some (Normal (rangeInclusive a b))) /\
     (Z.of_nat limit < b - a + 1 ->
      parseZooms limit fuel (VString s) = Some (Throw RangeError))) /\
  parseZooms limit fuel (VString "9007199254740992-9007199254740993")
  = Some (Throw RangeError).
Proof.
  intro Hf. split; [ | split ].
  - intro s. destruct (isEmpty s) eqn:Hs.
    + destruct s; [ discriminate | discriminate ].
    + rewrite parseZooms_string by assumption. apply parseZoomString_ends, Hf.
  - intros s a b rest Hs Hd Hp Hab Hb.
    rewrite parseZooms_string by assumption.
    unfold parseZoomString. rewrite Hd, Hp.
    rewrite !of_Z_small_finite by lia. rewrite leb_of_Z by lia.
    replace (a <=? b) with true by (symmetry; apply Z.leb_le; lia).
    cbn [andb]. split; intro Hroom.
    + rewrite (range_loop_fits limit fuel b ltac:(lia) a []); cbn [List.length]; try lia.
      cbn [app]. rewrite zoomValues_of_Z; [ reflexivity | ].
      intros k Hk. apply in_rangeInclusive in Hk. lia.
    + rewrite (range_loop_overflows limit fuel b Hb a []); cbn [List.length]; try lia.
      reflexivity.
  - rewrite parseZooms_string by reflexivity. unfold parseZoomString.
    replace (includes "-"%char (trim "9007199254740992-9007199254740993")) with true
      by (vm_compute; reflexivity).
    replace (map parseInt (split "-"%char (trim "9007199254740992-9007199254740993")))
      with [of_Z (2 ^ 53); of_Z (2 ^ 53)] by (vm_compute; reflexivity).
    replace (isFinite (of_Z (2 ^ 53)) && isFinite (of_Z (2 ^ 53))
             && leb (of_Z (2 ^ 53)) (of_Z (2 ^ 53))) with true by (vm_compute; reflexivity).
    rewrite (range_loop_stuck limit fuel (of_Z (2 ^ 53)) (of_Z (2 ^ 53)));
      [ reflexivity | vm_compute; reflexivity | vm_compute; reflexivity
      | cbn [List.length]; lia ].
Qed.

(** With room for four elements: the range 12-14 is filled, the range
    10-14 is not, and the script ends with exit code 1 before any
    request. *)
Lemma parseZooms_range_throws_witness :
  parseZooms 4 5 (VString "12-14") = Some (Normal [12; 13; 14]) /\
  parseZooms 4 5 (VString "10-14") = Some (Throw RangeError) /\
  parseZooms 4 5 (VString "9007199254740992-9007199254740993") = Some (Throw RangeError).
Proof.
  destruct (parseZooms_range_throws 4 5 ltac:(lia)) as (_ & Hrange & Hstuck).
  split; [ | split; [ | exact Hstuck ] ].
  - apply (proj1 (Hrange "12-14"%string 12 14 [] eq_refl eq_refl eq_refl
                    ltac:(lia) ltac:(lia))). vm_compute. discriminate.
  - apply (proj2 (Hrange "10-14"%string 10 14 [] eq_refl eq_refl eq_refl
                    ltac:(lia) ltac:(lia))). vm_compute. reflexivity.
Defined.

(** ** The batch *)


(** ** Downloading one tile *)

Section Download.
Local Open Scope string_scope.
Local Open Scope Z_scope.

Lemma failed_is_failure (e : JsError) :
  success (failed e) = false /\ exists msg, error (failed e) = Some msg.
Proof. split; [ reflexivity | eexists; reflexivity ]. Qed.

(** C10. [downloadTile] creates the parent directories and writes the tile
    file only after a response with a 2xx status whose body could be read:
    on a transport error, a response outside 2xx or a body that cannot be
    read, it returns a failure with an error message and the file system is
    the one it started from. *)
Theorem downloadTile_writes_only_after_2xx (E : Environment) (n : nat)
    (url outputPath : string) (fs : FS E) :
  (forall e, fetch E n url = FetchRejected e ->
             downloadTile E n url outputPath fs = (fs, failed e)) /\
  (forall status statusText body,
      fetch E n url = FetchResponse status statusText body ->
      responseOk status = false ->
      downloadTile E n url outputPath fs
      = (fs, failed (newError ("HTTP " ++ decimalOfZ status ++ " " ++ statusText)))) /\
  (forall status statusText e,
      fetch E n url = FetchResponse status statusText (BodyError e) ->
      responseOk status = true ->
      downloadTile E n url outputPath fs = (fs, failed e)) /\
  (forall e, success (failed e) = false /\ exists msg, error (failed e) = Some msg) /\
  (forall fs' result,
      downloadTile E n url outputPath fs = (fs', result) ->
      fs' = fs \/
      exists status statusText buffer fs1 r1,
        fetch E n url = FetchResponse status statusText (BodyBytes buffer) /\
        responseOk status = true /\
        mkdirRecursive E (dirname E outputPath) fs = (fs1, r1) /\
        (fs' = fs1 \/
         (r1 = None /\ fs' = fst (writeFile E outputPath buffer fs1)))) /\
  (forall fs' result,
      downloadTile E n url outputPath fs = (fs', result) ->
      success result = true ->
      exists status statusText buffer fs1,
        fetch E n url = FetchResponse status statusText (BodyBytes buffer) /\
        responseOk status = true /\
        mkdirRecursive E (dirname E outputPath) fs = (fs1, None) /\
        writeFile E outputPath buffer fs1 = (fs', None)).
Proof.
  unfold downloadTile.
  split; [ intros e ->; reflexivity | ].
  split; [ intros status statusText body -> ->; reflexivity | ].
  split; [ intros status statusText e -> ->; reflexivity | ].
  split; [ apply failed_is_failure | ].
  split.
  - intros fs' result H.
    destruct (fetch E n url) as [e | status statusText body];
      [ injection H as <- _; left; reflexivity | ].
    destruct (responseOk status) eqn:Hok; cbn [negb] in H;
      [ | injection H as <- _; left; reflexivity ].
    destruct body as [buffer | e]; [ | injection H as <- _; left; reflexivity ].
    right. destruct (mkdirRecursive E (dirname E outputPath) fs) as [fs1 r1] eqn:Hm.
    exists status, statusText, buffer, fs1, r1.
    split; [ reflexivity | ]. split; [ exact Hok | ]. split; [ reflexivity | ].
    destruct r1 as [e | ]; [ injection H as <- _; left; reflexivity | right ].
    split; [ reflexivity | ].
    destruct (writeFile E outputPath buffer fs1) as [fs2 [e | ]];
      injection H as <- _; reflexivity.
  - intros fs' result H Hs.
    destruct (fetch E n url) as [e | status statusText body];
      [ injection H as _ <-; discriminate | ].
    destruct (responseOk status) eqn:Hok; cbn [negb] in H;
      [ | injection H as _ <-; discriminate ].
    destruct body as [buffer | e]; [ | injection H as _ <-; discriminate ].
    destruct (mkdirRecursive E (dirname E outputPath) fs) as [fs1 [e | ]] eqn:Hm;
      [ injection H as _ <-; discriminate | ].
    destruct (writeFile E outputPath buffer fs1) as [fs2 [e | ]] eqn:Hw;
      [ injection H as _ <-; discriminate | ].
    injection H as <- _. exists status, statusText, buffer, fs1. auto.
Qed.

(** A 503 response and a failed connection. *)
Lemma downloadTile_writes_only_after_2xx_witness :
  downloadTile sampleEnvironment 1 "u" "/tiles/1/2/3.png" []
  = ([], failed (newError "HTTP 503 Service Unavailable")) /\
  downloadTile offlineEnvironment 0 "u" "/tiles/1/2/3.png" []
  = ([], failed (newError "fetch failed")).
Proof.
  split.
  - apply (proj1 (proj2 (downloadTile_writes_only_after_2xx sampleEnvironment 1
                           "u" "/tiles/1/2/3.png" []))
             503 "Service Unavailable" (BodyBytes [])); reflexivity.
  - apply (proj1 (downloadTile_writes_only_after_2xx offlineEnvironment 0
                    "u" "/tiles/1/2/3.png" [])). reflexivity.
Defined.

End Download.

(** ** Paths *)

Section Paths.
Local Close Scope Z_scope.
Local Open Scope string_scope.

Lemma string_append_assoc (a b c : string) : (a ++ b) ++ c = a ++ (b ++ c).
Proof. induction a as [ | ch a IH ]; cbn; [ reflexivity | rewrite IH; reflexivity ]. Qed.

Lemma string_append_empty_r (a : string) : a ++ EmptyString = a.
Proof. induction a as [ | ch a IH ]; cbn; [ reflexivity | rewrite IH; reflexivity ]. Qed.

Lemma startsWith_append (a b : string) : startsWith (a ++ b) a = true.
Proof.
  induction a as [ | ch a IH ]; cbn; [ destruct b; reflexivity | ].
  rewrite Ascii.eqb_refl. exact IH.
Qed.

Lemma split_no_sep (sep : ascii) (s : string) :
  includes sep s = false -> split sep s = [s].
Proof.
  induction s as [ | c s IH ]; cbn; [ reflexivity | ].
  intro H. apply orb_false_elim in H. destruct H as [Hc Hs].
  rewrite Hc, (IH Hs). reflexivity.
Qed.

Lemma split_app_sep (sep : ascii) (a b : string) :
  includes sep a = false ->
  split sep (a ++ String sep b) = a :: split sep b.
Proof.
  induction a as [ | c a IH ]; cbn.
  - intros _. rewrite Ascii.eqb_refl. reflexivity.
  - intro H. apply orb_false_elim in H. destruct H as [Hc Ha].
    rewrite Hc, (IH Ha). reflexivity.
Qed.

Lemma split_segments_no_sep (sep : ascii) (s : string) :
  Forall (fun seg => includes sep seg = false) (split sep s).
Proof.
  induction s as [ | c s IH ]; cbn.
  - constructor; [ reflexivity | constructor ].
  - destruct (Ascii.eqb c sep) eqn:E.
    + constructor; [ reflexivity | exact IH ].
    + destruct (split sep s) as [ | h t ]; inversion IH; subst.
      * constructor; [ cbn; rewrite E; reflexivity | constructor ].
      * constructor; [ cbn; rewrite E; assumption | assumption ].
Qed.

Lemma joinStrings_cons (sep a : string) (l : list string) :
  l <> [] -> joinStrings sep (a :: l) = a ++ sep ++ joinStrings sep l.
Proof. destruct l; [ congruence | reflexivity ]. Qed.

Lemma joinStrings_app (sep : string) (l1 l2 : list string) :
  l1 <> [] -> l2 <> [] ->
  joinStrings sep (l1 ++ l2) = joinStrings sep l1 ++ sep ++ joinStrings sep l2.
Proof.
  intros H1 H2. induction l1 as [ | a l1 IH ]; [ congruence | ].
  destruct l1 as [ | b l1 ].
  - cbn [app]. rewrite joinStrings_cons by assumption. reflexivity.
  - change ((a :: b :: l1) ++ l2)%list with (a :: ((b :: l1) ++ l2))%list.
    rewrite joinStrings_cons by (cbn; congruence).
    rewrite IH by congruence.
    rewrite (joinStrings_cons sep a (b :: l1)) by congruence.
    rewrite !string_append_assoc. reflexivity.
Qed.

(** Splitting a joined list of slash-free segments gives the segments. *)
Lemma split_join (segs : list string) :
  segs <> [] -> Forall (fun seg => includes "/"%char seg = false) segs ->
  split "/"%char (joinStrings "/" segs) = segs.
Proof.
  intros Hne H. induction segs as [ | a segs IH ]; [ congruence | ].
  inversion H as [ | ? ? Ha Hs ]; subst.
  destruct segs as [ | b segs ].
  - cbn. apply split_no_sep. assumption.
  - rewrite joinStrings_cons by congruence.
    change ("/" ++ joinStrings "/" (b :: segs)) with (String "/"%char (joinStrings "/" (b :: segs))).
    rewrite split_app_sep by assumption. f_equal. apply IH; [ congruence | assumption ].
Qed.

Lemma plainSegment_no_slash (seg : string) :
  plainSegment seg = true -> includes "/"%char seg = false.
Proof.
  unfold plainSegment. intro H. apply andb_prop in H. destruct H as [_ H].
  apply negb_true_iff in H. assumption.
Qed.

Lemma normalizeStep_plain (b : bool) (stack : list string) (seg : string) :
  plainSegment seg = true -> normalizeStep b stack seg = seg :: stack.
Proof.
  unfold plainSegment, normalizeStep. intro H.
  apply andb_prop in H. destruct H as [H _].
  apply andb_prop in H. destruct H as [H H3].
  apply andb_prop in H. destruct H as [H1 H2].
  apply negb_true_iff in H1, H2, H3. rewrite H1, H2, H3. reflexivity.
Qed.

Lemma normalizeStep_empty (b : bool) (stack : list string) :
  normalizeStep b stack EmptyString = stack.
Proof. reflexivity. Qed.

(** Normalising segments that are plain or empty only drops the empty ones. *)
Lemma normalize_plain_or_empty (b : bool) (segs stack : list string) :
  Forall (fun seg => isEmpty seg = true \/ plainSegment seg = true) segs ->
  fold_left (normalizeStep b) segs stack
  = (rev (filter (fun seg => negb (isEmpty seg)) segs) ++ stack)%list.
Proof.
  intro H. revert stack. induction H as [ | seg segs Hseg _ IH ]; intro stack.
  - reflexivity.
  - cbn [fold_left filter]. destruct Hseg as [He | Hp].
    + destruct seg; [ | discriminate ]. cbn [isEmpty negb].
      rewrite normalizeStep_empty. apply IH.
    + rewrite normalizeStep_plain by assumption.
      assert (isEmpty seg = false).
      { unfold plainSegment in Hp. destruct seg; [ discriminate | reflexivity ]. }
      rewrite H. cbn [negb rev]. rewrite IH, <- app_assoc. reflexivity.
Qed.

Lemma normalizeSegments_plain (b : bool) (segs : list string) :
  Forall (fun seg => isEmpty seg = true \/ plainSegment seg = true) segs ->
  normalizeSegments b segs = filter (fun seg => negb (isEmpty seg)) segs.
Proof.
  intro H. unfold normalizeSegments.
  rewrite normalize_plain_or_empty by assumption.
  rewrite app_nil_r, rev_involutive. reflexivity.
Qed.

(** What normalisation below the root leaves consists of plain segments. *)
Lemma normalizeSegments_are_plain (segs : list string) :
  Forall (fun seg => includes "/"%char seg = false) segs ->
  Forall (fun seg => plainSegment seg = true) (normalizeSegments false segs).
Proof.
  intro H. unfold normalizeSegments. apply Forall_rev.
  assert (Hgen : forall stack, Forall (fun seg => plainSegment seg = true) stack ->
            Forall (fun seg => plainSegment seg = true)
                   (fold_left (normalizeStep false) segs stack)).
  { induction H as [ | seg segs Hseg _ IH ]; intros stack Hst; [ assumption | ].
    cbn [fold_left]. apply IH. unfold normalizeStep.
    destruct (isEmpty seg) eqn:E1; [ assumption | ].
    destruct (String.eqb seg ".") eqn:E2; [ assumption | ].
    cbn [orb]. destruct (String.eqb seg "..") eqn:E3.
    - destruct stack as [ | top rest ]; [ constructor | ].
      inversion Hst; subst. destruct (String.eqb top ".."); assumption.
    - constructor; [ | assumption ].
      unfold plainSegment. rewrite E1, E2, E3, Hseg. reflexivity. }
  apply Hgen. constructor.
Qed.

Lemma plainSegment_not_empty (seg : string) :
  plainSegment seg = true -> isEmpty seg = false.
Proof. destruct seg; [ discriminate | reflexivity ]. Qed.

Lemma isEmpty_append (a b : string) : isEmpty a = false -> isEmpty (a ++ b) = false.
Proof. destruct a; [ discriminate | reflexivity ]. Qed.

Lemma joinStrings_not_empty (sep a : string) (l : list string) :
  isEmpty a = false -> isEmpty (joinStrings sep (a :: l)) = false.
Proof.
  intro H. destruct l; [ exact H | ].
  rewrite joinStrings_cons by congruence. apply isEmpty_append. exact H.
Qed.

Lemma endsWithSlash_append (a b : string) :
  isEmpty b = false -> endsWithSlash (a ++ b) = endsWithSlash b.
Proof.
  intro H. induction a as [ | c a IH ]; [ reflexivity | ].
  cbn [append endsWithSlash]. rewrite IH.
  destruct (a ++ b) eqn:E; [ | reflexivity ].
  destruct a; [ cbn in E; subst b; discriminate | discriminate ].
Qed.

Lemma endsWithSlash_no_slash (s : string) :
  includes "/"%char s = false -> endsWithSlash s = false.
Proof.
  induction s as [ | c s IH ]; [ reflexivity | ].
  cbn [includes endsWithSlash]. intro H. apply orb_false_elim in H.
  destruct H as [Hc Hs]. destruct s; [ exact Hc | apply IH; exact Hs ].
Qed.

Lemma filter_plain (pre segs : list string) :
  Forall (fun seg => isEmpty seg = true) pre ->
  Forall (fun seg => plainSegment seg = true) segs ->
  filter (fun seg => negb (isEmpty seg)) (pre ++ segs) = segs.
Proof.
  intros Hpre Hsegs. rewrite filter_app.
  replace (filter _ pre) with (@nil string).
  - cbn [app]. induction Hsegs as [ | seg segs Hseg _ IH ]; [ reflexivity | ].
    cbn [filter]. rewrite (plainSegment_not_empty seg Hseg). cbn [negb]. rewrite IH. reflexivity.
  - induction Hpre as [ | seg pre Hseg _ IH ]; [ reflexivity | ].
    cbn [filter]. rewrite Hseg. cbn [negb]. exact IH.
Qed.

(** Normalising an absolute path made of empty and plain segments. *)
Lemma path_normalize_segments (s : string) (pre segs : list string) :
  isAbsolute s = true -> endsWithSlash s = false ->
  split "/"%char s = (pre ++ segs)%list ->
  Forall (fun seg => isEmpty seg = true) pre ->
  Forall (fun seg => plainSegment seg = true) segs -> segs <> [] ->
  path_normalize s = "/" ++ joinStrings "/" segs.
Proof.
  intros Habs Hend Hsplit Hpre Hsegs Hne. unfold path_normalize.
  assert (Hs : isEmpty s = false) by (destruct s; [ discriminate | reflexivity ]).
  rewrite Hs, Habs, Hend. cbn [negb]. unfold normalizeString. rewrite Hsplit.
  rewrite normalizeSegments_plain.
  - rewrite filter_plain by assumption.
    destruct segs as [ | a segs ]; [ congruence | ].
    inversion Hsegs; subst.
    rewrite joinStrings_not_empty by (apply plainSegment_not_empty; assumption).
    reflexivity.
  - apply Forall_app. split.
    + eapply Forall_impl; [ | exact Hpre ]. cbn. auto.
    + eapply Forall_impl; [ | exact Hsegs ]. cbn. auto.
Qed.

Lemma Forall_plain_no_slash (segs : list string) :
  Forall (fun seg => plainSegment seg = true) segs ->
  Forall (fun seg => includes "/"%char seg = false) segs.
Proof. intro H. eapply Forall_impl; [ | exact H ]. apply plainSegment_no_slash. Qed.

Lemma last_no_slash (segs : list string) :
  segs <> [] -> Forall (fun seg => plainSegment seg = true) segs ->
  endsWithSlash (joinStrings "/" segs) = false.
Proof.
  intros Hne H. induction H as [ | a segs Ha Hs IH ]; [ congruence | ].
  destruct segs as [ | b segs ].
  - cbn. apply endsWithSlash_no_slash, plainSegment_no_slash. assumption.
  - rewrite joinStrings_cons by congruence.
    rewrite <- string_append_assoc, endsWithSlash_append.
    + apply IH. congruence.
    + inversion Hs; subst. apply joinStrings_not_empty, plainSegment_not_empty. assumption.
Qed.

(** A rooted, normalised path is its own normal form. *)
Lemma path_normalize_rooted (segs : list string) :
  segs <> [] -> Forall (fun seg => plainSegment seg = true) segs ->
  path_normalize ("/" ++ joinStrings "/" segs) = "/" ++ joinStrings "/" segs.
Proof.
  intros Hne H. apply (path_normalize_segments _ [EmptyString]).
  - apply (startsWith_append "/").
  - rewrite endsWithSlash_append.
    + apply last_no_slash; assumption.
    + destruct segs as [ | a segs ]; [ congruence | ]. inversion H; subst.
      apply joinStrings_not_empty, plainSegment_not_empty. assumption.
  - change ("/" ++ joinStrings "/" segs) with (String "/"%char (joinStrings "/" segs)).
    cbn [split]. rewrite Ascii.eqb_refl.
    rewrite split_join by (try assumption; apply Forall_plain_no_slash; assumption).
    reflexivity.
  - constructor; [ reflexivity | constructor ].
  - assumption.
  - assumption.
Qed.

(** Joining plain segments below a rooted, normalised path. *)
Lemma path_join_rooted (rs l : list string) :
  Forall (fun seg => plainSegment seg = true) rs ->
  Forall (fun seg => plainSegment seg = true) l -> l <> [] ->
  path_normalize (("/" ++ joinStrings "/" rs) ++ "/" ++ joinStrings "/" l)
  = "/" ++ joinStrings "/" (rs ++ l).
Proof.
  intros Hrs Hl Hne.
  assert (Hjl : isEmpty (joinStrings "/" l) = false).
  { destruct l as [ | a l ]; [ congruence | ]. inversion Hl; subst.
    apply joinStrings_not_empty, plainSegment_not_empty. assumption. }
  destruct rs as [ | r rs ].
  - cbn [joinStrings app].
    apply (path_normalize_segments _ [EmptyString; EmptyString]).
    + apply (startsWith_append "/" ("/" ++ joinStrings "/" l)).
    + change (("/" ++ EmptyString) ++ "/" ++ joinStrings "/" l) with ("//" ++ joinStrings "/" l).
      rewrite endsWithSlash_append by assumption. apply last_no_slash; assumption.
    + change (("/" ++ EmptyString) ++ "/" ++ joinStrings "/" l)
        with (String "/"%char (String "/"%char (joinStrings "/" l))).
      cbn [split]. rewrite !Ascii.eqb_refl.
      rewrite split_join by (try assumption; apply Forall_plain_no_slash; assumption).
      reflexivity.
    + repeat constructor.
    + assumption.
    + assumption.
  - assert (Hall : Forall (fun seg => plainSegment seg = true) ((r :: rs) ++ l)).
    { apply Forall_app. split; assumption. }
    replace (("/" ++ joinStrings "/" (r :: rs)) ++ "/" ++ joinStrings "/" l)
      with ("/" ++ joinStrings "/" ((r :: rs) ++ l)).
    + apply path_normalize_rooted; [ cbn; congruence | assumption ].
    + rewrite joinStrings_app by congruence. rewrite string_append_assoc. reflexivity.
Qed.

Lemma includes_append (c : ascii) (a b : string) :
  includes c (a ++ b) = includes c a || includes c b.
Proof.
  induction a as [ | d a IH ]; [ reflexivity | ].
  cbn [append includes]. rewrite IH, orb_assoc. reflexivity.
Qed.

Lemma digit_not_slash (c : ascii) : isDigit c = true -> Ascii.eqb c "/"%char = false.
Proof.
  intro H. destruct (Ascii.eqb_spec c "/"%char) as [-> | ]; [ discriminate | reflexivity ].
Qed.

Lemma digit_not_dot (c : ascii) : isDigit c = true -> Ascii.eqb c "."%char = false.
Proof.
  intro H. destruct (Ascii.eqb_spec c "."%char) as [-> | ]; [ discriminate | reflexivity ].
Qed.

Lemma allDigits_no_slash (s : string) :
  allDigits s = true -> includes "/"%char s = false.
Proof.
  induction s as [ | c s IH ]; [ reflexivity | ].
  cbn [allDigits includes]. intro H. apply andb_prop in H. destruct H as [Hc Hs].
  rewrite (digit_not_slash c Hc), (IH Hs). reflexivity.
Qed.

(** A string of digits followed by anything without a slash is plain. *)
Lemma digits_then_plain (v rest : string) :
  isValidCoordinate v = true -> includes "/"%char rest = false ->
  plainSegment (v ++ rest) = true.
Proof.
  unfold isValidCoordinate. intros H Hrest.
  apply andb_prop in H. destruct H as [Hne Hd].
  destruct v as [ | c v ]; [ discriminate | ].
  cbn [allDigits] in Hd. apply andb_prop in Hd. destruct Hd as [Hc Hv].
  unfold plainSegment. cbn [append isEmpty negb andb includes].
  rewrite includes_append.
  rewrite (digit_not_slash c Hc), (allDigits_no_slash v Hv), Hrest.
  cbn [orb negb andb].
  assert (Hdot : forall t, String.eqb (String c t) "." = false /\
                           String.eqb (String c t) ".." = false).
  { intro t. cbn [String.eqb]. rewrite (digit_not_dot c Hc). split; reflexivity. }
  destruct (Hdot (v ++ rest)) as [-> ->]. reflexivity.
Qed.

Lemma coordinate_plain (v : string) :
  isValidCoordinate v = true -> plainSegment v = true.
Proof.
  intro H. rewrite <- (string_append_empty_r v). apply digits_then_plain; [ assumption | reflexivity ].
Qed.

Lemma allowedExtension_cases (e : string) :
  allowedExtension e = true <-> e = "png" \/ e = "jpg" \/ e = "jpeg" \/ e = "webp".
Proof.
  unfold allowedExtension, ALLOWED_EXTENSIONS. cbn [existsb].
  rewrite !orb_true_iff, !String.eqb_eq. intuition congruence.
Qed.

Lemma tile_file_plain (y e : string) :
  isValidCoordinate y = true -> allowedExtension e = true ->
  plainSegment (y ++ "." ++ e) = true.
Proof.
  intros Hy He. apply digits_then_plain; [ assumption | ].
  apply allowedExtension_cases in He.
  destruct He as [-> | [-> | [-> | ->]]]; reflexivity.
Qed.

(** The root directory is a slash followed by plain segments. *)
Lemma TILE_ROOT_shape (srv : Server) :
  exists rs, Forall (fun seg => plainSegment seg = true) rs /\
             TILE_ROOT srv = "/" ++ joinStrings "/" rs.
Proof.
  unfold TILE_ROOT, path_resolve, normalizeString.
  eexists. split; [ | reflexivity ].
  apply normalizeSegments_are_plain, split_segments_no_sep.
Qed.

Section TilePath.
Variable srv : Server.
Variables z x y e : string.
Hypothesis Hz : isValidCoordinate z = true.
Hypothesis Hx : isValidCoordinate x = true.
Hypothesis Hy : isValidCoordinate y = true.
Hypothesis He : allowedExtension e = true.

Lemma tile_path_normal_form :
  exists rs, TILE_ROOT srv = "/" ++ joinStrings "/" rs /\
    path_join [TILE_ROOT srv; z; x; y ++ "." ++ e]
    = "/" ++ joinStrings "/" (rs ++ [z; x; y ++ "." ++ e]) /\
    path_normalize (path_join [TILE_ROOT srv; z; x; y ++ "." ++ e])
    = "/" ++ joinStrings "/" (rs ++ [z; x; y ++ "." ++ e]).
Proof.
  destruct (TILE_ROOT_shape srv) as (rs & Hrs & Hroot).
  exists rs. split; [ exact Hroot | ].
  pose proof (coordinate_plain z Hz) as Pz.
  pose proof (coordinate_plain x Hx) as Px.
  pose proof (tile_file_plain y e Hy He) as Pf.
  assert (Hl : Forall (fun seg => plainSegment seg = true) [z; x; y ++ "." ++ e])
    by (repeat constructor; assumption).
  assert (Hjoin : path_join [TILE_ROOT srv; z; x; y ++ "." ++ e]
                  = "/" ++ joinStrings "/" (rs ++ [z; x; y ++ "." ++ e])).
  { unfold path_join. cbn [filter].
    rewrite (plainSegment_not_empty z Pz), (plainSegment_not_empty x Px),
      (plainSegment_not_empty _ Pf).
    rewrite Hroot at 1. cbn [isEmpty append negb].
    rewrite joinStrings_cons by congruence.
    rewrite isEmpty_append by (rewrite Hroot; reflexivity).
    rewrite Hroot. apply path_join_rooted; [ assumption | assumption | congruence ]. }
  split; [ exact Hjoin | ].
  rewrite Hjoin. apply path_normalize_rooted.
  - destruct rs; cbn; congruence.
  - apply Forall_app. split; assumption.
Qed.

(** The normalised tile path starts with the root directory. *)
Lemma tile_path_within_root :
  startsWith (path_normalize (path_join [TILE_ROOT srv; z; x; y ++ "." ++ e]))
             (TILE_ROOT srv) = true.
Proof.
  destruct tile_path_normal_form as (rs & Hroot & _ & ->). rewrite Hroot.
  destruct rs as [ | r rs ].
  - cbn [joinStrings app]. apply (startsWith_append "/").
  - rewrite joinStrings_app by congruence.
    rewrite <- string_append_assoc. apply startsWith_append.
Qed.
End TilePath.

End Paths.

(** ** The tile server *)

Section TileServer.
Local Open Scope string_scope.
Local Open Scope Z_scope.

Lemma allDigits_spec (v : string) :
  allDigits v = true <-> forall c, In c (list_ascii_of_string v) -> isDigit c = true.
Proof.
  induction v as [ | c v IH ]; cbn [allDigits list_ascii_of_string In].
  - split; [ intros _ c [] | reflexivity ].
  - rewrite andb_true_iff, IH. split.
    + intros [Hc Hv] d [<- | Hd]; auto.
    + intro H. split; [ apply H; left; reflexivity | intros d Hd; apply H; right; exact Hd ].
Qed.

(** C3. For every request z, x, y, ext the checks are made in this order:
    when one of z, x, y is not a non-empty string of decimal digits the
    response is 400; else when ext, lower-cased, is not one of png, jpg,
    jpeg, webp it is 415; else when the normalised path is not within the
    root it is 403; else a missing file gives 404 and any other error of
    [fs.access] 500, each as a JSON error object; and when [fs.access]
    finds the path readable the response is what [res.sendFile] makes of
    it: the bytes with status 200 when the file is sent, a JSON error with
    status 500 when sending fails, but for a directory the 404 page of
    Express, which is not a JSON object. *)
Theorem serveTile_validation_order (srv : Server) (z x y ext : string) :
  let valid := isValidCoordinate z && isValidCoordinate x && isValidCoordinate y in
  let extension := toLowerCase ext in
  let normalized :=
    path_normalize (path_join [TILE_ROOT srv; z; x; y ++ "." ++ extension]) in
  let within := startsWith normalized (TILE_ROOT srv) in
  (valid = false ->
   serveTile srv z x y ext = JsonError 400 "Coordinates must be non-negative integers.") /\
  (valid = true -> allowedExtension extension = false ->
   exists msg, serveTile srv z x y ext = JsonError 415 msg) /\
  (valid = true -> allowedExtension extension = true -> within = false ->
   serveTile srv z x y ext = JsonError 403 "Tile path escapes root directory.") /\
  (valid = true -> allowedExtension extension = true -> within = true ->
   (access srv normalized = AccessError "ENOENT" ->
    serveTile srv z x y ext = JsonError 404 "Tile not found.") /\
   (forall code, access srv normalized = AccessError code -> code <> "ENOENT" ->
    serveTile srv z x y ext = JsonError 500 "Internal server error.") /\
   (access srv normalized = AccessOk ->
    (forall bytes, sendFile srv normalized = SendOk bytes ->
       serveTile srv z x y ext
       = TileBytes 200 bytes "public, max-age=86400, immutable") /\
    (sendFile srv normalized = SendError ->
     serveTile srv z x y ext = JsonError 500 "Internal server error.") /\
    (sendFile srv normalized = SendIsDirectory ->
     serveTile srv z x y ext = HtmlNotFound) /\
    (sendFile srv normalized = SendAborted -> serveTile srv z x y ext = NoResponse))) /\
  ((exists status msg, serveTile srv z x y ext = JsonError status msg /\
                       In status [400; 415; 403; 404; 500]) \/
   (exists bytes cacheControl, serveTile srv z x y ext = TileBytes 200 bytes cacheControl) \/
   (access srv normalized = AccessOk /\
    (sendFile srv normalized = SendIsDirectory /\ serveTile srv z x y ext = HtmlNotFound \/
     sendFile srv normalized = SendAborted /\ serveTile srv z x y ext = NoResponse))) /\
  (forall v, isValidCoordinate v = true <->
             v <> EmptyString /\ forall c, In c (list_ascii_of_string v) -> isDigit c = true) /\
  (allowedExtension extension = true <->
   extension = "png" \/ extension = "jpg" \/ extension = "jpeg" \/ extension = "webp").
Proof.
  intros valid extension normalized within.
  assert (Hcond : negb (isValidCoordinate z) || negb (isValidCoordinate x)
                  || negb (isValidCoordinate y) = negb valid).
  { subst valid. destruct (isValidCoordinate z), (isValidCoordinate x),
      (isValidCoordinate y); reflexivity. }
  unfold serveTile, sendTile. rewrite Hcond. fold extension. fold normalized. fold within.
  split; [ intros ->; reflexivity | ].
  split; [ intros -> ->; cbn [negb]; eauto | ].
  split; [ intros -> -> ->; reflexivity | ].
  split.
  { intros -> -> ->. cbn [negb]. split; [ | split ].
    - intros ->. reflexivity.
    - intros code -> Hne.
      destruct (String.eqb_spec code "ENOENT"); [ contradiction | reflexivity ].
    - intros ->. split; [ | split; [ | split ] ]; [ intros bytes -> | intros -> .. ];
        reflexivity. }
  split.
  { destruct valid; cbn [negb]; [ | left; eexists _, _; split; [ reflexivity | cbn; auto ] ].
    destruct (allowedExtension extension); cbn [negb];
      [ | left; eexists _, _; split; [ reflexivity | cbn; auto ] ].
    destruct within; cbn [negb];
      [ | left; eexists _, _; split; [ reflexivity | cbn; auto ] ].
    destruct (access srv normalized) as [ | code ].
    - destruct (sendFile srv normalized) as [ bytes | | | ].
      + right. left. eauto.
      + right. right. auto.
      + left. eexists _, _. split; [ reflexivity | cbn; auto 6 ].
      + right. right. auto.
    - left. destruct (String.eqb code "ENOENT"); eexists _, _;
        (split; [ reflexivity | cbn; auto 6 ]). }
  split; [ | apply allowedExtension_cases ].
  intro v. unfold isValidCoordinate. rewrite andb_true_iff, allDigits_spec.
  split; intros [Hne Hd]; (split; [ | exact Hd ]).
  - destruct v; [ discriminate | congruence ].
  - destruct v; [ congruence | reflexivity ].
Qed.

(** C9. When z, x and y are all non-empty strings of decimal digits and the
    extension is an allowed one, the normalised path built by joining the
    root with z, x and y.ext starts with the root; so no request is answered
    with 403. *)
Theorem path_escape_unreachable (srv : Server) (z x y ext : string) :
  (isValidCoordinate z = true -> isValidCoordinate x = true ->
   isValidCoordinate y = true -> allowedExtension (toLowerCase ext) = true ->
   startsWith
     (path_normalize (path_join [TILE_ROOT srv; z; x; y ++ "." ++ toLowerCase ext]))
     (TILE_ROOT srv) = true) /\
  (forall msg, serveTile srv z x y ext <> JsonError 403 msg).
Proof.
  split.
  - intros Hz Hx Hy He. apply tile_path_within_root; assumption.
  - intros msg. unfold serveTile.
    destruct (isValidCoordinate z) eqn:Hz; [ | discriminate ].
    destruct (isValidCoordinate x) eqn:Hx; [ | discriminate ].
    destruct (isValidCoordinate y) eqn:Hy; [ | discriminate ].
    cbn [negb orb].
    destruct (allowedExtension (toLowerCase ext)) eqn:He; [ | discriminate ].
    cbn [negb]. rewrite tile_path_within_root by assumption. cbn [negb].
    destruct (access srv _) as [ | code ].
    + unfold sendTile. destruct (sendFile srv _); discriminate.
    + destruct (String.eqb code "ENOENT"); discriminate.
Qed.

(** One request for each of 400, 415, 404 and 200, and the request for a
    tile whose path is a directory. *)
Lemma serveTile_validation_order_witness :
  serveTile sampleServer "5" "10" "abc" "png"
  = JsonError 400 "Coordinates must be non-negative integers." /\
  (exists msg, serveTile sampleServer "0" "0" "0" "bmp" = JsonError 415 msg) /\
  serveTile sampleServer "0" "0" "2" "png" = JsonError 404 "Tile not found." /\
  serveTile sampleServer "0" "0" "0" "PNG"
  = TileBytes 200 [Byte.x89] "public, max-age=86400, immutable" /\
  serveTile sampleServer "0" "0" "1" "png" = HtmlNotFound.
Proof.
  split; [ | split; [ | split; [ | split ] ] ].
  - apply (proj1 (serveTile_validation_order sampleServer "5" "10" "abc" "png")). reflexivity.
  - apply (proj1 (proj2 (serveTile_validation_order sampleServer "0" "0" "0" "bmp")));
      reflexivity.
  - destruct (proj1 (proj2 (proj2 (proj2
               (serveTile_validation_order sampleServer "0" "0" "2" "png"))))
               eq_refl eq_refl eq_refl) as (H404 & _ & _).
    apply H404. reflexivity.
  - destruct (proj1 (proj2 (proj2 (proj2
               (serveTile_validation_order sampleServer "0" "0" "0" "PNG"))))
               eq_refl eq_refl eq_refl) as (_ & _ & H200).
    apply (proj1 (H200 eq_refl)). reflexivity.
  - destruct (proj1 (proj2 (proj2 (proj2
               (serveTile_validation_order sampleServer "0" "0" "1" "png"))))
               eq_refl eq_refl eq_refl) as (_ & _ & H200).
    apply (proj1 (proj2 (proj2 (H200 eq_refl)))). reflexivity.
Defined.

(** The path of a tile of the sample server. *)
Lemma path_escape_unreachable_witness :
  startsWith
    (path_normalize (path_join [TILE_ROOT sampleServer; "12"; "654"; "1582.png"]))
    (TILE_ROOT sampleServer) = true.
Proof.
  apply (proj1 (path_escape_unreachable sampleServer "12" "654" "1582" "png")); reflexivity.
Defined.

End TileServer.

(* ================================================================== *)
(** * Further properties *)
(* ================================================================== *)

(** ** Zoom levels one after the other *)

Lemma forNum_app {T : Type} (body : num -> list T -> option (list T)) :
  (forall i pre acc, body i (pre ++ acc) = option_map (app pre) (body i acc)) ->
  forall (fuel : nat) (i hi : num) (pre acc : list T),
    forNum fuel i hi body (pre ++ acc) = option_map (app pre) (forNum fuel i hi body acc).
Proof.
  intros Hbody fuel. induction fuel as [ | fuel IH ]; intros i hi pre acc; cbn [forNum].
  - reflexivity.
  - destruct (leb i hi); [ | reflexivity ].
    rewrite Hbody. destruct (body i acc) as [acc' | ]; cbn [option_map]; [ apply IH | reflexivity ].
Qed.

Lemma zoomBody_app (host : Host) (fuel : nat) (bbox : BoundingBox) (zoom : Z)
    (pre acc : list TileCoord) :
  zoomBody host fuel bbox (fun t acc => acc ++ [t]) zoom (pre ++ acc)
  = option_map (app pre) (zoomBody host fuel bbox (fun t acc => acc ++ [t]) zoom acc).
Proof.
  unfold zoomBody. apply forNum_app. intros i pre' acc'.
  apply forNum_app. intros j pre'' acc''. cbn [option_map]. rewrite app_assoc. reflexivity.
Qed.

Lemma enumerateTiles_cons (host : Host) (fuel : nat) (bbox : BoundingBox)
    (zoom : Z) (zoomLevels : list Z) :
  enumerateTiles host fuel bbox (zoom :: zoomLevels)
  = match enumerateTiles host fuel bbox [zoom], enumerateTiles host fuel bbox zoomLevels with
    | Some a, Some b => Some (a ++ b)
    | _, _ => None
    end.
Proof.
  rewrite enumerateTiles_single. unfold enumerateTiles, tileLoop. cbn [forOf].
  destruct (zoomBody host fuel bbox (fun t acc => acc ++ [t]) zoom []) as [a | ];
    [ | reflexivity ].
  assert (H : forall l pre acc,
             forOf l (zoomBody host fuel bbox (fun t acc => acc ++ [t])) (pre ++ acc)
             = option_map (app pre)
                 (forOf l (zoomBody host fuel bbox (fun t acc => acc ++ [t])) acc)).
  { induction l as [ | z l IH ]; intros pre acc; cbn [forOf]; [ reflexivity | ].
    rewrite zoomBody_app.
    destruct (zoomBody host fuel bbox _ z acc) as [acc' | ]; cbn [option_map];
      [ apply IH | reflexivity ]. }
  rewrite <- (app_nil_r a) at 1. rewrite H.
  destruct (forOf zoomLevels _ []); reflexivity.
Qed.

(** The tiles of a zoom level carry that zoom level. *)
Lemma forNum_invariant {T : Type} (P : T -> Prop) (body : num -> T -> option T) :
  (forall i s s', P s -> body i s = Some s' -> P s') ->
  forall (fuel : nat) (i hi : num) (s s' : T),
    P s -> forNum fuel i hi body s = Some s' -> P s'.
Proof.
  intros Hbody fuel. induction fuel as [ | fuel IH ]; intros i hi s s' Hs H; cbn [forNum] in H.
  - discriminate.
  - destruct (leb i hi).
    + destruct (body i s) as [s1 | ] eqn:E; [ | discriminate ].
      apply (IH _ _ s1 s' (Hbody i s s1 Hs E) H).
    + injection H as <-. assumption.
Qed.

Lemma enumerateTiles_single_zoom (host : Host) (fuel : nat) (bbox : BoundingBox)
    (zoom : Z) (tiles : list TileCoord) :
  enumerateTiles host fuel bbox [zoom] = Some tiles ->
  forall t, In t tiles -> fst (fst t) = zoom.
Proof.
  rewrite enumerateTiles_single. unfold zoomBody. intro H.
  set (P := fun acc : list TileCoord => forall t, In t acc -> fst (fst t) = zoom).
  refine (forNum_invariant P _ _ _ _ _ _ _ _ H).
  - intros i s s' Hs Hi. refine (forNum_invariant P _ _ _ _ _ _ _ Hs Hi).
    intros j r r' Hr Hj. injection Hj as <-. intros t Ht.
    apply in_app_or in Ht. destruct Ht as [Ht | [<- | []]]; [ apply Hr, Ht | reflexivity ].
  - intros t [].
Qed.

(** X4. Zoom levels are enumerated one after the other, in the order given:
    the tiles of a list of levels followed by another list are the tiles of
    the first followed by the tiles of the second (and the loop returns
    exactly when both do), and every tile carries one of the levels asked
    for. *)
Theorem enumerateTiles_zoom_levels (host : Host) (fuel : nat) (bbox : BoundingBox)
    (zoomLevels more : list Z) :
  enumerateTiles host fuel bbox (zoomLevels ++ more)
  = match enumerateTiles host fuel bbox zoomLevels, enumerateTiles host fuel bbox more with
    | Some a, Some b => Some (a ++ b)
    | _, _ => None
    end
  /\ forall tiles, enumerateTiles host fuel bbox zoomLevels = Some tiles ->
       forall t, In t tiles -> In (fst (fst t)) zoomLevels.
Proof.
  split.
  - induction zoomLevels as [ | z zs IH ].
    + cbn [app]. change (enumerateTiles host fuel bbox []) with (Some (@nil TileCoord)).
      destruct (enumerateTiles host fuel bbox more); reflexivity.
    + change ((z :: zs) ++ more)%list with (z :: (zs ++ more))%list.
      rewrite (enumerateTiles_cons host fuel bbox z (zs ++ more)), IH.
      rewrite (enumerateTiles_cons host fuel bbox z zs).
      destruct (enumerateTiles host fuel bbox [z]) as [a | ]; [ | reflexivity ].
      destruct (enumerateTiles host fuel bbox zs) as [b | ]; [ | reflexivity ].
      destruct (enumerateTiles host fuel bbox more) as [c | ]; [ | reflexivity ].
      rewrite app_assoc. reflexivity.
  - induction zoomLevels as [ | z zs IH ]; intros tiles H t Ht.
    + injection H as <-. destruct Ht.
    + rewrite (enumerateTiles_cons host fuel bbox z zs) in H.
      destruct (enumerateTiles host fuel bbox [z]) as [a | ] eqn:Ea; [ | discriminate ].
      destruct (enumerateTiles host fuel bbox zs) as [b | ]; [ | discriminate ].
      injection H as <-. apply in_app_or in Ht. destruct Ht as [Ht | Ht].
      * left. symmetry. apply (enumerateTiles_single_zoom host fuel bbox z a Ea t Ht).
      * right. apply (IH b eq_refl t Ht).
Qed.

(** ** The sign of the radius *)

Lemma binary_round_aux_opp (s : bool) (m e : Z) (l : location) :
  binary_round_aux prec emax (negb s) m e l = SFopp (binary_round_aux prec emax s m e l).
Proof.
  unfold binary_round_aux.
  destruct (shr_fexp prec emax m e l) as [r1 e1].
  destruct (shr_fexp prec emax _ e1 loc_Exact) as [r2 e2].
  destruct (shr_m r2); [ reflexivity | | reflexivity ].
  destruct (e2 <=? emax - prec); reflexivity.
Qed.

Lemma mul_opp_l (a b : num) : mul (neg a) b = neg (mul a b).
Proof.
  unfold mul, neg.
  destruct a as [sa | sa | | sa ma ea], b as [sb | sb | | sb mb eb];
    cbn [SFopp SFmul]; try reflexivity;
    try (destruct sa, sb; reflexivity).
  rewrite <- binary_round_aux_opp. destruct sa, sb; reflexivity.
Qed.

Lemma div_opp_l (a b : num) : div (neg a) b = neg (div a b).
Proof.
  unfold div, neg.
  destruct a as [sa | sa | | sa ma ea], b as [sb | sb | | sb mb eb];
    cbn [SFopp SFdiv]; try reflexivity;
    try (destruct sa, sb; reflexivity).
  destruct (SFdiv_core_binary prec emax (Zpos ma) ea (Zpos mb) eb) as [[mz ez] lz].
  rewrite <- binary_round_aux_opp. destruct sa, sb; reflexivity.
Qed.

Lemma sub_opp_r (a b : num) : sub a (neg b) = add a b.
Proof.
  unfold sub, add, neg.
  destruct a as [sa | sa | | sa ma ea], b as [sb | sb | | sb mb eb];
    cbn [SFopp SFsub SFadd]; try reflexivity;
    try (destruct sa, sb; reflexivity); try (rewrite negb_involutive; reflexivity).
Qed.

Lemma add_opp_r (a b : num) : add a (neg b) = sub a b.
Proof.
  unfold sub, add, neg.
  destruct a as [sa | sa | | sa ma ea], b as [sb | sb | | sb mb eb];
    cbn [SFopp SFsub SFadd]; try reflexivity;
    try (destruct sa, sb; reflexivity).
Qed.

(** The box of the opposite radius: the same box with its corners swapped. *)
Lemma computeBoundingBox_opp (host : Host) (lat lon radiusMeters : num) :
  computeBoundingBox host lat lon (neg radiusMeters)
  = let b := computeBoundingBox host lat lon radiusMeters in
    {| minLat := maxLat b; maxLat := minLat b; minLon := maxLon b; maxLon := minLon b |}.
Proof.
  unfold computeBoundingBox. cbv zeta. cbn [minLat maxLat minLon maxLon].
  rewrite !div_opp_l, !mul_opp_l, !div_opp_l, !sub_opp_r, !add_opp_r. reflexivity.
Qed.

Lemma SFcompare_eq (a b : num) :
  SFcompare a b = Some Eq ->
  a = b \/ exists s s', a = S754_zero s /\ b = S754_zero s'.
Proof.
  destruct a as [sa | sa | | sa ma ea], b as [sb | sb | | sb mb eb];
    cbn [SFcompare]; try discriminate;
    try (destruct sa; discriminate); try (destruct sb; discriminate).
  - intros _. right. eauto.
  - destruct sa, sb; try discriminate; intros _; left; reflexivity.
  - assert (Hm : Pos.compare_cont Eq ma mb = Eq -> ma = mb) by apply Pos.compare_eq.
    destruct sa, sb; try discriminate;
      (destruct (ea ?= eb) eqn:E; try discriminate;
       apply Z.compare_eq in E; subst eb;
       destruct (Pos.compare_cont Eq ma mb); try discriminate;
       intros _; left; rewrite (Hm eq_refl); reflexivity).
Qed.

Lemma Math_min_comm (a b : num) : Math_min a b = Math_min b a.
Proof.
  unfold Math_min. rewrite (SFcompare_antisym a b).
  destruct (SFcompare a b) as [[ | | ] | ] eqn:E; cbn [option_map CompOpp]; try reflexivity.
  destruct (SFcompare_eq a b E) as [-> | (s & s' & -> & ->)].
  - destruct b as [[ | ] | | | ]; reflexivity.
  - destruct s, s'; reflexivity.
Qed.

Lemma Math_max_comm (a b : num) : Math_max a b = Math_max b a.
Proof.
  unfold Math_max. rewrite (SFcompare_antisym a b).
  destruct (SFcompare a b) as [[ | | ] | ] eqn:E; cbn [option_map CompOpp]; try reflexivity.
  destruct (SFcompare_eq a b E) as [-> | (s & s' & -> & ->)].
  - destruct b as [[ | ] | | | ]; reflexivity.
  - destruct s, s'; reflexivity.
Qed.

Lemma zoomBody_swap (host : Host) {S : Type} (fuel : nat) (b : BoundingBox)
    (tileBody : TileCoord -> S -> S) (zoom : Z) (st : S) :
  zoomBody host fuel
    {| minLat := maxLat b; maxLat := minLat b; minLon := maxLon b; maxLon := minLon b |}
    tileBody zoom st
  = zoomBody host fuel b tileBody zoom st.
Proof.
  unfold zoomBody. cbn [minLat maxLat minLon maxLon]. cbv zeta.
  rewrite (Math_min_comm (x (latLonToTile host (maxLat b) (maxLon b) zoom))).
  rewrite (Math_max_comm (x (latLonToTile host (maxLat b) (maxLon b) zoom))).
  rewrite (Math_min_comm (y (latLonToTile host (maxLat b) (maxLon b) zoom))).
  rewrite (Math_max_comm (y (latLonToTile host (maxLat b) (maxLon b) zoom))).
  reflexivity.
Qed.

(** X5. The sign of the radius is ignored: the bounding box of a negated
    radius is the box of the radius with its corners swapped, and the tile
    loop, which orders the corner tiles by minimum and maximum, enumerates
    the same tiles for both. *)
Theorem radius_sign_is_ignored (host : Host) (lat lon radiusMeters : num) :
  computeBoundingBox host lat lon (neg radiusMeters)
  = (let b := computeBoundingBox host lat lon radiusMeters in
     {| minLat := maxLat b; maxLat := minLat b; minLon := maxLon b; maxLon := minLon b |})
  /\ forall (fuel : nat) (zoomLevels : list Z),
       enumerateTiles host fuel (computeBoundingBox host lat lon (neg radiusMeters)) zoomLevels
       = enumerateTiles host fuel (computeBoundingBox host lat lon radiusMeters) zoomLevels.
Proof.
  split; [ apply computeBoundingBox_opp | ].
  intros fuel zoomLevels. rewrite computeBoundingBox_opp. cbv zeta.
  unfold enumerateTiles, tileLoop. apply forOf_ext.
  intros zoom st _. apply zoomBody_swap.
Qed.

(** ** Nothing to parse *)

Lemma trim_allWhiteSpace (s : string) : allWhiteSpace s = true -> trim s = EmptyString.
Proof.
  unfold trim. induction s as [ | c s IH ]; cbn [allWhiteSpace trimStart]; [ reflexivity | ].
  intro H. apply andb_prop in H. destruct H as [Hc Hs]. rewrite Hc. apply IH, Hs.
Qed.

(** X6. Without a zoom option (undefined, the empty string or an empty
    array) the zoom levels are the default, 12.  A flag without a value
    (the value [true]) and a string of white space give no zoom level, and
    then [main] sets exit code 1 without a request. *)
Theorem parseZooms_nothing_given (host : Host) (E : Environment)
    (other : num -> string) (cwd scriptDir : string) (limit fuel : nat) :
  (parseZooms limit fuel VUndefined = Some (Normal DEFAULT_ZOOMS) /\
   parseZooms limit fuel (VString EmptyString) = Some (Normal DEFAULT_ZOOMS) /\
   parseZooms limit fuel (VArray []) = Some (Normal DEFAULT_ZOOMS)) /\
  parseZooms limit fuel VTrue = Some (Normal []) /\
  (forall s, isEmpty s = false -> allWhiteSpace s = true ->
     parseZooms limit fuel (VString s) = Some (Normal [])) /\
  (forall p fs,
     (zoomArgument p = VTrue \/
      exists s, zoomArgument p = VString s /\ isEmpty s = false /\ allWhiteSpace s = true) ->
     main host E other cwd scriptDir fuel p fs
     = Some (Normal {| exitCode := 1; run := start E fs |})).
Proof.
  assert (Hblank : forall limit s, isEmpty s = false -> allWhiteSpace s = true ->
                                   parseZooms limit fuel (VString s) = Some (Normal [])).
  { intros limit' s Hs Hw. rewrite parseZooms_string by assumption.
    rewrite trim_allWhiteSpace by assumption. reflexivity. }
  split; [ repeat split | split; [ reflexivity | split; [ apply Hblank | ] ] ].
  intros p fs [H | (s & H & Hs & Hw)]; apply main_no_zoom; rewrite H.
  - reflexivity.
  - apply Hblank; assumption.
Qed.

Section TileFiles.
Local Open Scope string_scope.
Local Open Scope Z_scope.

(** ** The file of a request *)



(** The response to a well-formed request is the one of the joined path. *)
Lemma serveTile_joined (srv : Server) (z x y ext : string) :
  isValidCoordinate z = true -> isValidCoordinate x = true ->
  isValidCoordinate y = true -> allowedExtension (toLowerCase ext) = true ->
  serveTile srv z x y ext
  = tileResponse srv (path_join [TILE_ROOT srv; z; x; y ++ "." ++ toLowerCase ext]).
Proof.
  intros Hz Hx Hy He.
  destruct (tile_path_normal_form srv z x y (toLowerCase ext) Hz Hx Hy He)
    as (rs & Hroot & Hjoin & Hnorm).
  unfold serveTile, tileResponse. rewrite Hz, Hx, Hy, He. cbn [negb orb].
  rewrite (tile_path_within_root srv z x y (toLowerCase ext) Hz Hx Hy He). cbn [negb].
  rewrite Hnorm, Hjoin. reflexivity.
Qed.

(** X7. A request with three digit-only coordinates and an allowed
    extension is answered from the file root/z/x/y.ext below the tile
    root, with the extension in lower case: the response is what
    [fs.access] and then [res.sendFile] make of that path (404 when it
    does not exist, 500 on another error, and when it is readable the
    bytes with status 200, the 404 page of Express for a directory, or
    500 when sending fails). *)
Theorem serveTile_file (srv : Server) (z x y ext : string) :
  isValidCoordinate z = true -> isValidCoordinate x = true ->
  isValidCoordinate y = true -> allowedExtension (toLowerCase ext) = true ->
  exists segments,
    TILE_ROOT srv = "/" ++ joinStrings "/" segments /\
    serveTile srv z x y ext
    = tileResponse srv
        ("/" ++ joinStrings "/" (segments ++ [z; x; y ++ "." ++ toLowerCase ext])).
Proof.
  intros Hz Hx Hy He.
  destruct (tile_path_normal_form srv z x y (toLowerCase ext) Hz Hx Hy He)
    as (rs & Hroot & _ & Hnorm).
  exists rs. split; [ exact Hroot | ].
  unfold serveTile, tileResponse. rewrite Hz, Hx, Hy, He. cbn [negb orb].
  rewrite (tile_path_within_root srv z x y (toLowerCase ext) Hz Hx Hy He). cbn [negb].
  rewrite Hnorm. reflexivity.
Qed.

(** The stored tile, asked for with an upper-case extension. *)
Lemma serveTile_file_witness :
  exists segments,
    TILE_ROOT sampleServer = "/" ++ joinStrings "/" segments /\
    serveTile sampleServer "0" "0" "0" "PNG"
    = tileResponse sampleServer
        ("/" ++ joinStrings "/" (segments ++ ["0"; "0"; "0" ++ "." ++ toLowerCase "PNG"])).
Proof. apply serveTile_file; reflexivity. Defined.


End TileFiles.

Section CommandLine.
Local Close Scope Z_scope.
Local Open Scope string_scope.

(** ** The command line *)

Lemma setProperty_notArray (result : Properties) (key : string) (v : value) :
  (forall name, notArray (result name)) -> notArray v ->
  forall name, notArray (setProperty result key v name).
Proof.
  intros Hr Hv name. unfold setProperty.
  destruct (String.eqb key "__proto__"); [ apply Hr | ].
  destruct (String.eqb name key); [ exact Hv | apply Hr ].
Qed.

(** Induction over the arguments, one or two at a time. *)
Lemma args_induction (P : list string -> Prop) :
  P [] -> (forall a, P [] -> P [a]) ->
  (forall a b l, P (b :: l) -> P l -> P (a :: b :: l)) ->
  forall l, P l.
Proof.
  intros H0 H1 H2 l.
  assert (H : P l /\ forall a, P (a :: l)); [ | apply H ].
  induction l as [ | b l [IHl IHbl] ].
  - split; [ exact H0 | intro a; apply H1, H0 ].
  - split; [ apply IHbl | intro a; apply H2; [ apply IHbl | exact IHl ] ].
Qed.

Lemma parseArgsLoop_notArray (args : list string) :
  forall result, (forall name, notArray (result name)) ->
                 forall name, notArray (parseArgsLoop args result name).
Proof.
  induction args as [ | a IH | a b l IHbl IHl ] using args_induction;
    intros result Hr; cbn [parseArgsLoop].
  - exact Hr.
  - destruct (negb (startsWith a "--")); [ exact Hr | ].
    destruct (1 <? _)%nat; apply setProperty_notArray; try assumption;
      unfold notArray; eauto.
  - destruct (negb (startsWith a "--")); [ apply IHbl, Hr | ].
    destruct (1 <? _)%nat.
    + apply IHbl, setProperty_notArray; [ exact Hr | unfold notArray; eauto ].
    + destruct (isEmpty b || startsWith b "--").
      * apply IHbl, setProperty_notArray; [ exact Hr | unfold notArray; eauto ].
      * apply IHl, setProperty_notArray; [ exact Hr | unfold notArray; eauto ].
Qed.

Lemma parseArgsLoop_app (pre suffix : list string) :
  match suffix with [] => True | next :: _ => isFlag next = true end ->
  forall result,
    parseArgsLoop (pre ++ suffix) result = parseArgsLoop suffix (parseArgsLoop pre result).
Proof.
  intro Hs.
  induction pre as [ | a IH | a b l IHbl IHl ] using args_induction; intro result.
  - reflexivity.
  - cbn [app parseArgsLoop].
    destruct (negb (startsWith a "--")); [ reflexivity | ].
    destruct (1 <? _)%nat; [ reflexivity | ].
    destruct suffix as [ | next rest ]; [ reflexivity | ].
    unfold isFlag in Hs. rewrite Hs, orb_true_r. reflexivity.
  - change ((a :: b :: l) ++ suffix)%list with (a :: b :: (l ++ suffix))%list.
    cbn [parseArgsLoop].
    destruct (negb (startsWith a "--")); [ apply (IHbl result) | ].
    destruct (1 <? _)%nat; [ apply IHbl | ].
    destruct (isEmpty b || startsWith b "--"); [ apply IHbl | apply IHl ].
Qed.

Lemma slice_flag (key : string) : slice 2 ("--" ++ key) = key.
Proof. reflexivity. Qed.

Lemma startsWith_flag (key : string) : startsWith ("--" ++ key) "--" = true.
Proof. destruct key; reflexivity. Qed.

Lemma setProperty_same (result : Properties) (key : string) (v : value) :
  String.eqb key "__proto__" = false -> setProperty result key v key = v.
Proof. intro H. unfold setProperty. rewrite H, String.eqb_refl. reflexivity. Qed.

(** Joining what was split gives the string back. *)
Lemma join_split (sep : ascii) (s : string) :
  joinStrings (String sep EmptyString) (split sep s) = s.
Proof.
  induction s as [ | c s IH ]; [ reflexivity | ].
  cbn [split]. destruct (Ascii.eqb_spec c sep) as [-> | Hc].
  - destruct (split sep s) as [ | h t ] eqn:E; [ destruct s; discriminate | ].
    cbn [joinStrings]. cbn [joinStrings] in IH. rewrite IH. reflexivity.
  - destruct (split sep s) as [ | h t ] eqn:E; [ destruct s; discriminate | ].
    destruct t as [ | h' t ]; cbn [joinStrings] in *; rewrite <- IH; reflexivity.
Qed.

Lemma split_key_value (key v : string) :
  includes "="%char key = false ->
  split "="%char (key ++ "=" ++ v) = key :: split "="%char v.
Proof. intro H. apply split_app_sep. exact H. Qed.

Lemma split_length (sep : ascii) (s : string) : (1 <= List.length (split sep s))%nat.
Proof.
  induction s as [ | c s IH ]; cbn [split]; [ cbn; lia | ].
  destruct (Ascii.eqb c sep); [ cbn; lia | ].
  destruct (split sep s); cbn [List.length] in *; lia.
Qed.

Lemma setProperty_other (result : Properties) (key name : string) (v : value) :
  String.eqb key name = false -> setProperty result key v name = result name.
Proof.
  intro H. unfold setProperty. destruct (String.eqb key "__proto__"); [ reflexivity | ].
  rewrite String.eqb_sym, H. reflexivity.
Qed.

Lemma parseArgsLoop_cons (a : string) (rest : list string) (result : Properties) :
  parseArgsLoop (a :: rest) result
  = if negb (startsWith a "--") then parseArgsLoop rest result
    else
      let keyValue := split "="%char (slice 2 a) in
      let key := hd EmptyString keyValue in
      if (1 <? List.length keyValue)%nat then
        parseArgsLoop rest (setProperty result key (VString (joinStrings "=" (tl keyValue))))
      else
        match rest with
        | next :: rest' =>
            if isEmpty next || startsWith next "--" then
              parseArgsLoop rest (setProperty result key VTrue)
            else parseArgsLoop rest' (setProperty result key (VString next))
        | [] => setProperty result key VTrue
        end.
Proof. reflexivity. Qed.

(** Arguments that do not name a key leave it as it is. *)
Lemma parseArgsLoop_frame (key : string) (args : list string) :
  forallb (fun arg => negb (names key arg)) args = true ->
  forall result, parseArgsLoop args result key = result key.
Proof.
  induction args as [ | a IH | a b l IHbl IHl ] using args_induction;
    intros H result.
  - reflexivity.
  - cbn [forallb] in H. rewrite andb_true_r in H. unfold names, isFlag in H.
    rewrite parseArgsLoop_cons. cbv zeta.
    destruct (startsWith a "--"); cbn [negb andb] in *; [ | reflexivity ].
    apply negb_true_iff in H. unfold flagKey in H.
    destruct (1 <? _)%nat; apply setProperty_other; exact H.
  - cbn [forallb] in H. apply andb_prop in H. destruct H as [Ha Hbl].
    assert (Hl : forallb (fun arg => negb (names key arg)) l = true).
    { apply andb_prop in Hbl. apply Hbl. }
    unfold names, isFlag in Ha. rewrite parseArgsLoop_cons. cbv zeta.
    destruct (startsWith a "--"); cbn [negb andb] in Ha |- *;
      [ | apply IHbl; cbn [forallb]; exact Hbl ].
    apply negb_true_iff in Ha. unfold flagKey in Ha.
    assert (Hbl' : forallb (fun arg => negb (names key arg)) (b :: l) = true)
      by (cbn [forallb]; exact Hbl).
    destruct (1 <? _)%nat.
    + rewrite (IHbl Hbl'). apply setProperty_other, Ha.
    + destruct (isEmpty b || startsWith b "--").
      * rewrite (IHbl Hbl'). apply setProperty_other, Ha.
      * rewrite (IHl Hl). apply setProperty_other, Ha.
Qed.

Lemma split_plain_key (key : string) :
  includes "="%char key = false -> split "="%char (slice 2 ("--" ++ key)) = [key].
Proof. intro H. rewrite slice_flag. apply split_no_sep, H. Qed.

(** X9. A flag followed by a value, [--key value]: when no later argument
    names the key, [parseArgs] stores the value (not empty, not a flag
    itself) as a string, whatever came before, so of a repeated flag the
    last one counts; and a flag that is last, or is followed by another
    flag or by an empty argument, is stored as [true]. *)
Theorem parseArgs_flag_value (pre rest : list string) (key : string) :
  includes "="%char key = false -> String.eqb key "__proto__" = false ->
  forallb (fun arg => negb (names key arg)) rest = true ->
  forall node script,
    (forall v, isEmpty v = false -> isFlag v = false ->
       parseArgs (node :: script :: pre ++ ("--" ++ key) :: v :: rest) key = VString v) /\
    (match rest with [] => True | next :: _ => isEmpty next || isFlag next = true end ->
       parseArgs (node :: script :: pre ++ ("--" ++ key) :: rest) key = VTrue).
Proof.
  intros Hk Hp Hrest node script. unfold parseArgs. cbn [skipn]. split.
  - intros v Hv Hf.
    rewrite parseArgsLoop_app by apply startsWith_flag.
    cbn [parseArgsLoop]. rewrite startsWith_flag. cbn [negb].
    rewrite split_plain_key by assumption. cbn [List.length Nat.ltb Nat.leb hd].
    unfold isFlag in Hf. rewrite Hv, Hf. cbn [orb].
    rewrite (parseArgsLoop_frame key rest Hrest). apply setProperty_same, Hp.
  - intro Hnext.
    rewrite parseArgsLoop_app by apply startsWith_flag.
    cbn [parseArgsLoop]. rewrite startsWith_flag. cbn [negb].
    rewrite split_plain_key by assumption. cbn [List.length Nat.ltb Nat.leb hd].
    destruct rest as [ | next rest' ]; [ apply setProperty_same, Hp | ].
    unfold isFlag in Hnext. rewrite Hnext.
    rewrite (parseArgsLoop_frame key _ Hrest). apply setProperty_same, Hp.
Qed.

(** The example: of the two zoom flags the second one counts. *)
Lemma parseArgs_flag_value_witness :
  parseArgs sampleArgv "zoom" = VString "13" /\
  parseZooms 0 0 (zoomArgument (processOf sampleArgv (fun _ => None)))
  = Some (Normal [13%Z]).
Proof.
  split; [ | vm_compute; reflexivity ].
  apply (proj1 (parseArgs_flag_value
                  ["--lat"; "37.7749"; "--lon"; "-122.4194"; "--radius"; "5000";
                   "--zoom"; "12"] [] "zoom" eq_refl eq_refl eq_refl
                  "node" "scripts/download-tiles.js")); reflexivity.
Defined.

(** X10. A flag of the form [--key=value]: when no later argument names
    the key, [parseArgs] stores the text after the first equals sign, as
    it is, equals signs included. *)
Theorem parseArgs_key_value (pre rest : list string) (key v : string) :
  includes "="%char key = false -> String.eqb key "__proto__" = false ->
  forallb (fun arg => negb (names key arg)) rest = true ->
  forall node script,
    parseArgs (node :: script :: pre ++ ("--" ++ key ++ "=" ++ v) :: rest) key = VString v.
Proof.
  intros Hk Hp Hrest node script. unfold parseArgs. cbn [skipn].
  rewrite parseArgsLoop_app by (apply (startsWith_flag (key ++ "=" ++ v))).
  cbn [parseArgsLoop].
  rewrite (startsWith_flag (key ++ "=" ++ v)). cbn [negb].
  rewrite (slice_flag (key ++ "=" ++ v)), split_key_value by assumption.
  pose proof (split_length "="%char v) as Hlen.
  replace (1 <? List.length (key :: split "="%char v))%nat with true
    by (symmetry; apply Nat.ltb_lt; cbn [List.length]; lia).
  cbn [hd tl]. rewrite join_split.
  rewrite (parseArgsLoop_frame key rest Hrest). apply setProperty_same, Hp.
Qed.

(** A template with a query string. *)
Lemma parseArgs_key_value_witness :
  parseArgs ["node"; "scripts/download-tiles.js";
             "--source=https://t/{z}/{x}/{y}.png?key=abc"; "--zoom"; "12"] "source"
  = VString "https://t/{z}/{x}/{y}.png?key=abc".
Proof.
  apply (parseArgs_key_value [] ["--zoom"; "12"] "source" "https://t/{z}/{x}/{y}.png?key=abc"
           eq_refl eq_refl eq_refl "node" "scripts/download-tiles.js").
Defined.

Lemma readProperty_own (result : Properties) (name : string) :
  inherited name = false -> readProperty result name = Value (result name).
Proof.
  intro H. unfold readProperty. rewrite H. destruct (result name); reflexivity.
Qed.

(** X11. [parseArgs] stores strings and [true] only, never an array: what
    is read from its result is such a value, undefined, or a member of
    [Object.prototype].  At a name that no argument gives, the result has
    what [Object.prototype] has under that name, and is undefined for
    every other name; the script reads it at names that [Object.prototype]
    does not define.  So the zoom option, from the command line or the
    environment, is never an array, and for an option that no argument
    gives [getArg] returns the environment variable, or undefined when
    that is not set either. *)
Theorem parseArgs_values (argv : list string) :
  (forall name v, readProperty (parseArgs argv) name = Value v -> notArray v) /\
  (forall key, forallb (fun arg => negb (names key arg)) (skipn 2 argv) = true ->
               readProperty (parseArgs argv) key
               = if inherited key then PrototypeMember else Value VUndefined) /\
  (forall environment name,
      In name OPTION_NAMES ->
      inherited name = false /\
      readProperty (parseArgs argv) name = Value (args (processOf argv environment) name)) /\
  (forall environment l, zoomArgument (processOf argv environment) <> VArray l) /\
  (forall environment key envName,
      inherited key = false -> isEmpty envName = false ->
      forallb (fun arg => negb (names key arg)) (skipn 2 argv) = true ->
      getArg (processOf argv environment) key envName
      = match environment envName with Some s => VString s | None => VUndefined end).
Proof.
  assert (Hkinds : forall name, notArray (parseArgs argv name)).
  { intro name. apply parseArgsLoop_notArray. intro. left. reflexivity. }
  assert (Habsent : forall key,
             forallb (fun arg => negb (names key arg)) (skipn 2 argv) = true ->
             parseArgs argv key = VUndefined).
  { intros key H. unfold parseArgs. rewrite (parseArgsLoop_frame key _ H). reflexivity. }
  split; [ | split; [ | split; [ | split ] ] ].
  - intros name v H. unfold readProperty in H.
    pose proof (Hkinds name) as Hk.
    destruct (parseArgs argv name) as [ | | s | l ].
    + destruct (inherited name); [ discriminate | ]. injection H as <-. exact Hk.
    + injection H as <-. exact Hk.
    + injection H as <-. exact Hk.
    + injection H as <-. exact Hk.
  - intros key H. unfold readProperty. rewrite (Habsent key H). reflexivity.
  - intros environment name Hin.
    assert (Hn : inherited name = false).
    { cbn [OPTION_NAMES In] in Hin.
      destruct Hin as [<- | [<- | [<- | [<- | [<- | [<- | [<- | [<- | []]]]]]]]];
        reflexivity. }
    split; [ exact Hn | ]. apply readProperty_own, Hn.
  - intros environment l. unfold zoomArgument, processOf. cbn [args env].
    destruct (Hkinds "zoom") as [H | [H | (s & H)]]; rewrite H; try discriminate.
    destruct (environment "DOWNLOAD_ZOOM_LEVELS"); discriminate.
  - intros environment key envName _ _ H. unfold getArg, processOf. cbn [args env].
    rewrite (Habsent key H). reflexivity.
Qed.

End CommandLine.

Section Digits.
Local Open Scope string_scope.
Local Open Scope Z_scope.

(** ** Numbers as text *)

Lemma string_of_uint_digits (d : Decimal.uint) : allDigits (NilEmpty.string_of_uint d) = true.
Proof. induction d; cbn [NilEmpty.string_of_uint allDigits isDigit]; try assumption; reflexivity. Qed.

Lemma decimalOfZ_coordinate (k : Z) : 0 <= k -> isValidCoordinate (decimalOfZ k) = true.
Proof.
  intro H. unfold decimalOfZ. destruct k as [ | p | p ]; [ reflexivity | | lia ].
  cbn [Z.to_int NilZero.string_of_int]. unfold NilZero.string_of_uint.
  pose proof (DecimalPos.Unsigned.to_uint_nonnil p) as Hn.
  pose proof (string_of_uint_digits (Pos.to_uint p)) as Hd.
  destruct (Pos.to_uint p); try contradiction; exact Hd.
Qed.

Lemma integerValue_of_Z (k : Z) : Z.abs k < 2 ^ 53 -> integerValue (of_Z k) = Some k.
Proof.
  intro H. rewrite of_Z_canon by assumption. unfold canon.
  destruct (Z.eqb_spec k 0) as [-> | Hk]; [ reflexivity | ].
  assert (Hp : 0 < Z.abs k < 2 ^ 53) by lia.
  pose proof (log2_small _ Hp) as Hl.
  cbn [integerValue]. unfold exp53. rewrite mant53_value by assumption.
  set (n := 52 - Z.log2 (Z.abs k)).
  replace (Z.log2 (Z.abs k) - 52) with (- n) by (unfold n; lia).
  assert (Hn : 0 <= n) by (unfold n; lia).
  assert (Hsign : cond_Zopp (k <? 0) (Z.abs k) = k)
    by (destruct (Z.ltb_spec k 0); cbn [cond_Zopp]; lia).
  destruct (Z.leb_spec 0 (- n)) as [H0 | H0].
  - assert (n = 0) by lia. replace (- n) with 0 by lia. subst n.
    replace (52 - Z.log2 (Z.abs k)) with 0 by lia.
    rewrite Z.pow_0_r, !Z.mul_1_r. f_equal. exact Hsign.
  - rewrite Z.opp_involutive, Z.mod_mul by (apply Z.pow_nonzero; lia).
    cbn [Z.eqb]. rewrite Z.div_mul by (apply Z.pow_nonzero; lia). f_equal. exact Hsign.
Qed.

(** A safe integer prints as its decimal digits. *)
Lemma numberToString_of_Z (other : num -> string) (k : Z) :
  Z.abs k < 2 ^ 53 -> numberToString other (of_Z k) = decimalOfZ k.
Proof.
  intro H. unfold numberToString. rewrite integerValue_of_Z by assumption.
  replace (Z.abs k <? 2 ^ 53) with true by (symmetry; apply Z.ltb_lt; assumption).
  rewrite of_Z_canon by assumption. unfold canon.
  destruct (Z.eqb_spec k 0) as [-> | Hk]; reflexivity.
Qed.

End Digits.

Section Replace.
Local Close Scope Z_scope.
Local Open Scope string_scope.

(** ** Replacing placeholders *)

Lemma getSubstitution_plain (matched before after replacement : string) :
  includes "$"%char replacement = false ->
  getSubstitution matched before after replacement = replacement.
Proof.
  induction replacement as [ | c r IH ]; [ reflexivity | ].
  cbn [includes getSubstitution]. intro H. apply orb_false_elim in H. destruct H as [Hc Hr].
  rewrite Hc, (IH Hr). reflexivity.
Qed.

Section Scan.
Variables (search replaceValue : string) (all : bool).

Lemma replaceScan_skip (u t : string) :
  forall before active,
    replaceScan search replaceValue all before (String.length u) active (u ++ t)
    = replaceScan search replaceValue all (before ++ u) 0 active t.
Proof.
  induction u as [ | c u IH ]; intros before active.
  - cbn [String.length append]. rewrite string_append_empty_r.
    destruct t; reflexivity.
  - cbn [String.length append replaceScan]. rewrite IH, string_append_assoc. reflexivity.
Qed.

(** Text without the first character of the search string is passed
    over. *)
Lemma replaceScan_pass (c0 : ascii) (rest a t : string) :
  search = String c0 rest -> includes c0 a = false ->
  forall before active,
    replaceScan search replaceValue all before 0 active (a ++ t)
    = a ++ replaceScan search replaceValue all (before ++ a) 0 active t.
Proof.
  intros Hs. induction a as [ | c a IH ]; intros Ha before active.
  - cbn [append]. rewrite string_append_empty_r. reflexivity.
  - cbn [includes] in Ha. apply orb_false_elim in Ha. destruct Ha as [Hc Ha].
    cbn [append replaceScan]. rewrite Hs at 1. cbn [startsWith].
    rewrite Ascii.eqb_sym, Hc. cbn [andb]. rewrite andb_false_r.
    rewrite (IH Ha), string_append_assoc. reflexivity.
Qed.

Lemma slice_append (u t : string) : slice (String.length u) (u ++ t) = t.
Proof. induction u as [ | c u IH ]; [ destruct t; reflexivity | exact IH ]. Qed.

(** At an occurrence of the search string. *)
Lemma replaceScan_match (c0 : ascii) (rest t : string) :
  search = String c0 rest ->
  forall before,
    replaceScan search replaceValue all before 0 true (search ++ t)
    = getSubstitution search before t replaceValue
      ++ replaceScan search replaceValue all (before ++ search) 0 all t.
Proof.
  intros Hs before.
  assert (Hst : startsWith (search ++ t) search = true) by apply startsWith_append.
  assert (Hsl : slice (String.length search) (search ++ t) = t) by apply slice_append.
  assert (Hlen : (String.length search - 1)%nat = String.length rest)
    by (rewrite Hs; cbn [String.length]; lia).
  assert (Hcons : search ++ t = String c0 (rest ++ t)) by (rewrite Hs; reflexivity).
  rewrite Hcons at 1. cbn [replaceScan]. rewrite <- Hcons, Hst, Hsl, Hlen. cbn [andb].
  f_equal. rewrite replaceScan_skip, string_append_assoc.
  change (String c0 EmptyString ++ rest) with (String c0 rest). rewrite <- Hs. reflexivity.
Qed.
End Scan.

(** A string without the first character of the search string is left as
    it is. *)
Lemma replaceAll_absent (s search replaceValue : string) (c0 : ascii) (rest : string) :
  search = String c0 rest -> includes c0 s = false ->
  replaceAll s search replaceValue = s.
Proof.
  intros Hs H. unfold replaceAll.
  rewrite <- (string_append_empty_r s) at 1.
  rewrite (replaceScan_pass search replaceValue true c0 rest s EmptyString Hs H).
  cbn [replaceScan]. apply string_append_empty_r.
Qed.

(** One placeholder between two texts without a brace. *)
Lemma replaceAll_placeholder (a name b replaceValue : string) :
  includes "{"%char a = false -> includes "$"%char replaceValue = false ->
  (forall before, replaceScan (String "{" name) replaceValue true before 0 true b = b) ->
  replaceAll (a ++ String "{" name ++ b) (String "{" name) replaceValue
  = a ++ replaceValue ++ b.
Proof.
  intros Ha Hr Hb. unfold replaceAll.
  rewrite (replaceScan_pass _ _ true "{"%char name a _ eq_refl Ha).
  rewrite (replaceScan_match _ _ true "{"%char name b eq_refl).
  rewrite getSubstitution_plain by assumption. rewrite Hb. reflexivity.
Qed.

Lemma startsWith_cons (a b : ascii) (s p : string) :
  startsWith (String b s) (String a p) = Ascii.eqb a b && startsWith s p.
Proof. reflexivity. Qed.

(** A brace that does not open the placeholder looked for. *)
Lemma replaceScan_brace (name replaceValue : string) (all active : bool)
    (c : ascii) (u before : string) :
  startsWith (String c u) name = false ->
  replaceScan (String "{" name) replaceValue all before 0 active (String "{" (String c u))
  = String "{" (replaceScan (String "{" name) replaceValue all
                  (before ++ String "{" EmptyString) 0 active (String c u)).
Proof.
  intro H. cbn [replaceScan]. rewrite startsWith_cons, H, !andb_false_r. reflexivity.
Qed.

Lemma allDigits_excludes (c : ascii) (s : string) :
  isDigit c = false -> allDigits s = true -> includes c s = false.
Proof.
  intro Hc. induction s as [ | d s IH ]; [ reflexivity | ].
  cbn [allDigits includes]. intro H. apply andb_prop in H. destruct H as [Hd Hs].
  rewrite (IH Hs), orb_false_r.
  destruct (Ascii.eqb_spec d c) as [-> | ]; [ congruence | reflexivity ].
Qed.

Lemma decimalOfZ_excludes (c : ascii) (k : Z) :
  isDigit c = false -> Ascii.eqb "-" c = false -> includes c (decimalOfZ k) = false.
Proof.
  intros Hc Hm. unfold decimalOfZ.
  assert (H : forall p, includes c (NilZero.string_of_uint (Pos.to_uint p)) = false).
  { intro p. unfold NilZero.string_of_uint.
    pose proof (string_of_uint_digits (Pos.to_uint p)) as Hd.
    destruct (Pos.to_uint p); apply allDigits_excludes; assumption. }
  destruct k as [ | p | p ]; cbn [Z.to_int NilZero.string_of_int].
  - change (includes c "0" = false). cbn [includes].
    destruct (Ascii.eqb_spec "0" c) as [<- | ]; [ discriminate | reflexivity ].
  - apply H.
  - cbn [includes]. rewrite Hm, H. reflexivity.
Qed.

Section Xyz.
Variable other : num -> string.
Variables A B C D : string.
Hypothesis HA : includes "{"%char A = false.
Hypothesis HB : includes "{"%char B = false.
Hypothesis HC : includes "{"%char C = false.
Hypothesis HD : includes "{"%char D = false.

Lemma scan_end (name r : string) (before : string) :
  replaceScan (String "{" name) r true before 0 true D = D.
Proof.
  rewrite <- (string_append_empty_r D) at 1.
  rewrite (replaceScan_pass _ _ true "{"%char name D EmptyString eq_refl HD).
  cbn [replaceScan]. apply string_append_empty_r.
Qed.

(** The rest of the template after each placeholder holds no earlier
    placeholder. *)
Lemma scan_after_y (name r before : string) :
  replaceScan (String "{" name) r true before 0 true D = D.
Proof. apply scan_end. Qed.

Lemma scan_over_y (name r before : string) :
  startsWith (String "y" (String "}" D)) name = false ->
  replaceScan (String "{" name) r true before 0 true (C ++ "{y}" ++ D) = C ++ "{y}" ++ D.
Proof.
  intro H.
  rewrite (replaceScan_pass _ _ true "{"%char name C _ eq_refl HC).
  f_equal. change ("{y}" ++ D) with (String "{" (String "y" (String "}" D))).
  rewrite replaceScan_brace by exact H.
  f_equal. change (String "y" (String "}" D)) with ("y}" ++ D).
  rewrite (replaceScan_pass _ _ true "{"%char name "y}" _ eq_refl eq_refl).
  rewrite scan_end. reflexivity.
Qed.

Lemma scan_over_x (name r before : string) :
  (forall t, startsWith (String "x" (String "}" t)) name = false) ->
  (forall t, startsWith (String "y" (String "}" t)) name = false) ->
  replaceScan (String "{" name) r true before 0 true (B ++ "{x}" ++ C ++ "{y}" ++ D)
  = B ++ "{x}" ++ C ++ "{y}" ++ D.
Proof.
  intros Hx Hy.
  rewrite (replaceScan_pass _ _ true "{"%char name B _ eq_refl HB).
  f_equal. change ("{x}" ++ C ++ "{y}" ++ D)
    with (String "{" (String "x" (String "}" (C ++ "{y}" ++ D)))).
  rewrite replaceScan_brace by apply Hx.
  f_equal. change (String "x" (String "}" (C ++ "{y}" ++ D))) with ("x}" ++ C ++ "{y}" ++ D).
  rewrite (replaceScan_pass _ _ true "{"%char name "x}" _ eq_refl eq_refl).
  rewrite scan_over_y by apply Hy. reflexivity.
Qed.

(** X12. For a template with the placeholders {z}, {x} and {y} in this
    order and no other opening brace, [renderUrl] gives the template with
    the decimal digits of the zoom level and of the tile indices (integers
    below 2^53 in magnitude) in their places, whatever the subdomain and
    the extension are. *)
Theorem renderUrl_xyz (zoom kx ky : Z) (s : option string) (ext : string) :
  (Z.abs zoom < 2 ^ 53)%Z -> (Z.abs kx < 2 ^ 53)%Z -> (Z.abs ky < 2 ^ 53)%Z ->
  renderUrl other (A ++ "{z}" ++ B ++ "{x}" ++ C ++ "{y}" ++ D)
    zoom (of_Z kx) (of_Z ky) s ext
  = A ++ decimalOfZ zoom ++ B ++ decimalOfZ kx ++ C ++ decimalOfZ ky ++ D.
Proof.
  intros Hz Hx Hy. unfold renderUrl.
  rewrite !numberToString_of_Z by assumption.
  assert (Hb : forall k, includes "{"%char (decimalOfZ k) = false)
    by (intro k; apply decimalOfZ_excludes; reflexivity).
  assert (Hd : forall k, includes "$"%char (decimalOfZ k) = false)
    by (intro k; apply decimalOfZ_excludes; reflexivity).
  rewrite (replaceAll_placeholder A "z}" _ (decimalOfZ zoom) HA (Hd zoom))
    by (intros pre; apply scan_over_x; reflexivity).
  replace (A ++ decimalOfZ zoom ++ B ++ "{x}" ++ C ++ "{y}" ++ D)
    with ((A ++ decimalOfZ zoom ++ B) ++ "{x}" ++ C ++ "{y}" ++ D)
    by (rewrite !string_append_assoc; reflexivity).
  rewrite (replaceAll_placeholder _ "x}" _ (decimalOfZ kx))
    by (rewrite ?includes_append, ?HA, ?HB, ?Hb, ?Hd; try reflexivity;
        intros pre; apply scan_over_y; reflexivity).
  replace ((A ++ decimalOfZ zoom ++ B) ++ decimalOfZ kx ++ C ++ "{y}" ++ D)
    with ((A ++ decimalOfZ zoom ++ B ++ decimalOfZ kx ++ C) ++ "{y}" ++ D)
    by (rewrite !string_append_assoc; reflexivity).
  rewrite (replaceAll_placeholder _ "y}" _ (decimalOfZ ky))
    by (rewrite ?includes_append, ?HA, ?HB, ?HC, ?Hb, ?Hd; try reflexivity;
        intros pre; apply scan_end).
  assert (Hfree : includes "{"%char
            ((A ++ decimalOfZ zoom ++ B ++ decimalOfZ kx ++ C) ++ decimalOfZ ky ++ D) = false)
    by (rewrite !includes_append, HA, HB, HC, HD, !Hb; reflexivity).
  rewrite (replaceAll_absent _ "{s}" _ "{"%char "s}" eq_refl Hfree).
  rewrite (replaceAll_absent _ "{ext}" _ "{"%char "ext}" eq_refl Hfree).
  rewrite !string_append_assoc. reflexivity.
Qed.
End Xyz.

(** The default template. *)
Lemma renderUrl_xyz_witness :
  renderUrl noDigits DEFAULT_SOURCE 12 (of_Z 654) (of_Z 1582) (Some "a") "jpg"
  = "https://tile.openstreetmap.org/12/654/1582.png".
Proof.
  apply (renderUrl_xyz noDigits "https://tile.openstreetmap.org/" "/" "/" ".png"
           eq_refl eq_refl eq_refl eq_refl 12 654 1582 (Some "a") "jpg");
    vm_compute; reflexivity.
Defined.

End Replace.

Section Subdomains.
Local Close Scope Z_scope.
Local Open Scope string_scope.

(** ** Subdomains *)

Lemma indexOfString_nth (v : string) (arr : list string) (i : nat) :
  indexOfString v arr = Some i -> nth_error arr i = Some v.
Proof.
  revert i. induction arr as [ | a arr IH ]; intros i; cbn [indexOfString]; [ discriminate | ].
  destruct (String.eqb_spec a v) as [-> | Hne].
  - intro H. injection H as <-. reflexivity.
  - destruct (indexOfString v arr) as [j | ]; [ | discriminate ].
    cbn [option_map]. intro H. injection H as <-. cbn. apply IH. reflexivity.
Qed.

Lemma indexOfString_in (v : string) (arr : list string) :
  In v arr -> exists i, indexOfString v arr = Some i.
Proof.
  induction arr as [ | a arr IH ]; [ intros [] | ]. intro H. cbn [indexOfString].
  destruct (String.eqb_spec a v) as [-> | Hne]; [ eauto | ].
  destruct H as [H | H]; [ congruence | ].
  destruct (IH H) as (i & ->). cbn. eauto.
Qed.

Lemma unique_in (v : string) (arr : list string) : In v (unique arr) <-> In v arr.
Proof.
  unfold unique. rewrite in_map_iff. split.
  - intros ([a i] & <- & H). apply filter_In in H. destruct H as [H _].
    apply in_combine_l in H. exact H.
  - intro H. destruct (indexOfString_in v arr H) as (i & Hi).
    exists (v, i). split; [ reflexivity | ]. apply filter_In. split.
    + apply in_combine_seq. rewrite Nat.sub_0_r.
      split; [ lia | apply indexOfString_nth; exact Hi ].
    + cbn [fst snd]. rewrite Hi. apply Nat.eqb_refl.
Qed.

Lemma unique_NoDup (arr : list string) : NoDup (unique arr).
Proof.
  unfold unique.
  apply Injective_map_NoDup_in; [ | apply NoDup_filter, combine_seq_NoDup ].
  intros [a i] [b j] Ha Hb E. cbn [fst] in E. subst b.
  apply filter_In in Ha, Hb. destruct Ha as [_ Ha], Hb as [_ Hb]. cbn [fst snd] in Ha, Hb.
  destruct (indexOfString a arr) as [k | ]; [ | discriminate ].
  apply Nat.eqb_eq in Ha, Hb. congruence.
Qed.

(** X13. The subdomains are the comma-separated parts of the option,
    trimmed, without the empty ones and without repetition: the empty
    option gives none and an option without a comma gives its one
    trimmed entry. *)
Theorem subdomainsOf_entries (s : string) :
  NoDup (subdomainsOf s) /\
  (forall v, In v (subdomainsOf s) <->
             v <> EmptyString /\ exists part, In part (split ","%char s) /\ v = trim part) /\
  (subdomainsOf EmptyString = [] /\
   forall t, includes ","%char t = false -> isEmpty (trim t) = false ->
             subdomainsOf t = [trim t]).
Proof.
  split; [ apply unique_NoDup | ]. split.
  - intro v. unfold subdomainsOf. rewrite unique_in, filter_In, in_map_iff. split.
    + intros [(part & <- & Hpart) Hne]. split; [ | eauto ].
      destruct (trim part); [ discriminate | discriminate ].
    + intros [Hne (part & Hpart & ->)]. split; [ eauto | ].
      destruct (trim part); [ congruence | reflexivity ].
  - split; [ reflexivity | ]. intros t Hc Hne. unfold subdomainsOf.
    rewrite split_no_sep by assumption. cbn [map filter]. rewrite Hne. cbn [negb].
    unfold unique. cbn [List.length seq combine filter fst snd indexOfString].
    rewrite String.eqb_refl. reflexivity.
Qed.

End Subdomains.

(** ** The subdomain of a tile *)

(** An integer below 2^53, given with trailing zero bits. *)
Lemma binary_round_shifted (K : Z) (p : positive) (j : Z) :
  0 < K < 2 ^ 53 -> 0 <= j <= 1074 -> Zpos p = K * 2 ^ j ->
  binary_round prec emax false p (- j) = of_Z K.
Proof.
  intros HK Hj Hp.
  assert (Ha : 0 < Z.abs K < 2 ^ 53) by lia.
  pose proof (log2_small K HK) as Hl.
  rewrite of_Z_canon by lia. unfold canon.
  replace (K =? 0) with false by (symmetry; apply Z.eqb_neq; lia).
  replace (K <? 0) with false by (symmetry; apply Z.ltb_ge; lia).
  pose proof (mant53_value K Ha) as Hm. pose proof (mant53_digits K Ha) as Hd.
  rewrite Z.abs_eq in Hm by lia. unfold exp53. rewrite Z.abs_eq by lia.
  destruct (Z_le_gt_dec (52 - Z.log2 K) j) as [Hge | Hlt].
  - rewrite (binary_round_exact false p (mant53 K) (j - (52 - Z.log2 K)) (- j));
      [ f_equal; lia | exact Hd | lia | | lia ].
    rewrite Hp, Hm, <- Z.mul_assoc, <- Z.pow_add_r by lia. f_equal. f_equal. lia.
  - assert (Hlog : Z.log2 (Zpos p) = Z.log2 K + j)
      by (rewrite Hp, Z.log2_mul_pow2 by lia; lia).
    destruct (binary_round_short false p (- j)) as (m & Hm' & ->).
    + rewrite digits2_pos_log2. lia.
    + rewrite digits2_pos_log2. lia.
    + f_equal.
      * apply Pos2Z.inj. rewrite Hm', Hm, Hp, digits2_pos_log2, Hlog.
        rewrite <- Z.mul_assoc, <- Z.pow_add_r by lia. f_equal. f_equal. lia.
      * rewrite digits2_pos_log2, Hlog. lia.
Qed.

Lemma of_Z_pos_shape (k : Z) :
  0 < k < 2 ^ 53 ->
  of_Z k = S754_finite false (mant53 k) (exp53 k) /\
  Zpos (mant53 k) = k * 2 ^ (- exp53 k) /\ -52 <= exp53 k <= 0.
Proof.
  intro H. assert (Ha : 0 < Z.abs k < 2 ^ 53) by lia.
  pose proof (log2_small k H) as Hl.
  rewrite of_Z_canon by lia. unfold canon.
  replace (k =? 0) with false by (symmetry; apply Z.eqb_neq; lia).
  replace (k <? 0) with false by (symmetry; apply Z.ltb_ge; lia).
  split; [ reflexivity | ].
  rewrite mant53_value by assumption. unfold exp53. rewrite Z.abs_eq by lia.
  split; [ f_equal; f_equal; lia | lia ].
Qed.

(** The remainder of two small integers is the remainder in [Z]. *)
Lemma remainder_of_Z (a n : Z) :
  0 <= a < 2 ^ 53 -> 0 < n < 2 ^ 53 ->
  remainder (of_Z a) (of_Z n) = of_Z (a mod n).
Proof.
  intros Ha Hn.
  destruct (of_Z_pos_shape n Hn) as (En & Hmn & Hen).
  destruct (Z.eq_dec a 0) as [-> | Ha0].
  { rewrite En, Z.mod_0_l by lia. reflexivity. }
  destruct (of_Z_pos_shape a ltac:(lia)) as (Ea & Hma & Hea).
  rewrite Ea, En. cbn [remainder].
  set (e := Z.min (exp53 a) (exp53 n)).
  assert (He : -52 <= e <= 0) by (unfold e; lia).
  assert (HA : Zpos (mant53 a) * 2 ^ (exp53 a - e) = a * 2 ^ (- e)).
  { rewrite Hma, <- Z.mul_assoc, <- Z.pow_add_r by (unfold e; lia).
    f_equal. f_equal. lia. }
  assert (HB : Zpos (mant53 n) * 2 ^ (exp53 n - e) = n * 2 ^ (- e)).
  { rewrite Hmn, <- Z.mul_assoc, <- Z.pow_add_r by (unfold e; lia).
    f_equal. f_equal. lia. }
  rewrite HA, HB.
  assert (Hpow : 0 < 2 ^ (- e)) by (apply Z.pow_pos_nonneg; lia).
  rewrite Z.mul_mod_distr_r by lia.
  pose proof (Z.mod_pos_bound a n ltac:(lia)) as Hr.
  destruct (Z.eqb_spec (a mod n * 2 ^ (- e)) 0) as [H0 | H0].
  - assert (a mod n = 0) by nia. replace (a mod n) with 0 by lia. reflexivity.
  - assert (HK : 0 < a mod n) by nia.
    cbn [cond_Zopp].
    destruct (a mod n * 2 ^ (- e)) as [ | p | p ] eqn:Ep; [ congruence | | nia ].
    cbn [binary_normalize].
    replace e with (- (- e)) at 1 by lia.
    apply binary_round_shifted; [ lia | lia | exact (eq_sym Ep) ].
Qed.

(** X14. With at least one subdomain, the subdomain of the tile (x, y) is
    the entry at index (x + y) mod n of the n subdomains, for tile indices
    that are not negative and whose sum is below 2^53: every tile gets one
    of the subdomains. *)
Theorem subdomainOf_rotation (subdomains : list string) (kx ky : Z) :
  subdomains <> [] -> Z.of_nat (List.length subdomains) < 2 ^ 53 ->
  0 <= kx -> 0 <= ky -> kx + ky < 2 ^ 53 ->
  let index := (kx + ky) mod Z.of_nat (List.length subdomains) in
  subdomainOf subdomains (of_Z kx) (of_Z ky) = nth_error subdomains (Z.to_nat index) /\
  exists s, subdomainOf subdomains (of_Z kx) (of_Z ky) = Some s /\ In s subdomains.
Proof.
  intros Hne Hlen Hx Hy Hsum index.
  assert (Hn : 0 < Z.of_nat (List.length subdomains))
    by (destruct subdomains; [ congruence | cbn [List.length]; lia ]).
  pose proof (Z.mod_pos_bound (kx + ky) _ Hn) as Hi. fold index in Hi.
  assert (H : subdomainOf subdomains (of_Z kx) (of_Z ky)
              = nth_error subdomains (Z.to_nat index)).
  { unfold subdomainOf.
    replace (0 <? List.length subdomains)%nat with true
      by (symmetry; apply Nat.ltb_lt; lia).
    rewrite add_of_Z by lia. rewrite remainder_of_Z by lia. fold index.
    unfold elementAt. rewrite integerValue_of_Z by lia.
    replace (0 <=? index) with true by (symmetry; apply Z.leb_le; lia). reflexivity. }
  split; [ exact H | ].
  destruct (nth_error subdomains (Z.to_nat index)) as [s | ] eqn:E.
  - exists s. split; [ exact H | ]. apply (nth_error_In _ _ E).
  - apply nth_error_None in E. lia.
Qed.

(** Three subdomains: the tile (654, 1582) gets the second. *)
Lemma subdomainOf_rotation_witness :
  subdomainOf ["a"; "b"; "c"]%string (of_Z 654) (of_Z 1582) = Some "b"%string.
Proof.
  apply (eq_trans
           (proj1 (subdomainOf_rotation ["a"; "b"; "c"]%string 654 1582
                     ltac:(discriminate) ltac:(vm_compute; reflexivity)
                     ltac:(lia) ltac:(lia) ltac:(vm_compute; reflexivity)))).
  reflexivity.
Defined.

Section Served.
Local Open Scope string_scope.
Local Open Scope Z_scope.

(** ** From the downloader to the server *)

Lemma allowedExtension_lower (e : string) :
  allowedExtension e = true -> toLowerCase e = e.
Proof.
  intro H. apply allowedExtension_cases in H.
  destruct H as [-> | [-> | [-> | ->]]]; reflexivity.
Qed.

(** X15. What the downloader writes is what the tile server reads: when
    the output directory is the tile root and the extension is one the
    server allows, the request for the tile z/x/y is answered from the
    file that the downloader writes for that tile, which lies in the
    output directory; with 200 and its bytes when [fs.access] finds it
    readable and [res.sendFile] sends it. *)
Theorem downloaded_tile_is_served (other : num -> string) (srv : Server)
    (outputDir tileExt : string) (zoom kx ky : Z) :
  TILE_ROOT srv = outputDir ->
  0 <= zoom < 2 ^ 53 -> 0 <= kx < 2 ^ 53 -> 0 <= ky < 2 ^ 53 ->
  allowedExtension tileExt = true ->
  let file := outputPathOf other outputDir tileExt zoom (of_Z kx) (of_Z ky) in
  serveTile srv (decimalOfZ zoom) (decimalOfZ kx) (decimalOfZ ky) tileExt
  = tileResponse srv file /\
  startsWith file outputDir = true /\
  (forall bytes, access srv file = AccessOk -> sendFile srv file = SendOk bytes ->
   serveTile srv (decimalOfZ zoom) (decimalOfZ kx) (decimalOfZ ky) tileExt
   = TileBytes 200 bytes "public, max-age=86400, immutable").
Proof.
  intros Hroot Hz Hx Hy He file.
  assert (Hfile : file = path_join [TILE_ROOT srv; decimalOfZ zoom; decimalOfZ kx;
                                    decimalOfZ ky ++ "." ++ toLowerCase tileExt]).
  { unfold file, outputPathOf. rewrite !numberToString_of_Z by lia.
    rewrite allowedExtension_lower, Hroot by assumption. reflexivity. }
  assert (He' : allowedExtension (toLowerCase tileExt) = true)
    by (rewrite allowedExtension_lower; assumption).
  assert (Hserve : serveTile srv (decimalOfZ zoom) (decimalOfZ kx) (decimalOfZ ky) tileExt
                   = tileResponse srv file).
  { rewrite Hfile. apply serveTile_joined; try (apply decimalOfZ_coordinate; lia). exact He'. }
  split; [ exact Hserve | split ].
  - destruct (tile_path_normal_form srv _ _ _ _
                (decimalOfZ_coordinate zoom (proj1 Hz)) (decimalOfZ_coordinate kx (proj1 Hx))
                (decimalOfZ_coordinate ky (proj1 Hy)) He') as (rs & _ & Hjoin & Hnorm).
    rewrite Hfile, <- Hroot. rewrite <- Hnorm in Hjoin. rewrite Hjoin.
    apply tile_path_within_root; try (apply decimalOfZ_coordinate; lia). exact He'.
  - intros bytes Hok Hsent. rewrite Hserve. unfold tileResponse.
    rewrite Hok, Hsent. reflexivity.
Qed.

(** The tile 0/0/0 of the sample store. *)
Lemma downloaded_tile_is_served_witness :
  serveTile sampleServer (decimalOfZ 0) (decimalOfZ 0) (decimalOfZ 0) "png"
  = tileResponse sampleServer
      (outputPathOf noDigits "/srv/app/tiles" "png" 0 (of_Z 0) (of_Z 0)) /\
  outputPathOf noDigits "/srv/app/tiles" "png" 0 (of_Z 0) (of_Z 0)
  = "/srv/app/tiles/0/0/0.png".
Proof.
  split; [ | vm_compute; reflexivity ].
  apply (downloaded_tile_is_served noDigits sampleServer "/srv/app/tiles" "png" 0 0 0);
    vm_compute; (reflexivity || (split; (reflexivity || discriminate))).
Defined.

End Served.

Section Downloader.
Local Open Scope string_scope.
Local Open Scope Z_scope.

(** ** The script as a whole *)

(** *** Loops whose body does not throw *)





(** *** Parsing the zoom levels ends *)



(** *** The tile loop ends *)




Section TileLoopEnds.
Variable host : Host.


End TileLoopEnds.

(** *** The batch in terms of the downloads *)

Section Requests.
Variable E : Environment.
Variable tileUrl tilePath : TileCoord -> string.


End Requests.

Section ScriptFacts.
Variable host : Host.
Variable E : Environment.
Variable other : num -> string.
Variable cwd scriptDir : string.






End ScriptFacts.



End Downloader.

Section Page.
Local Close Scope Z_scope.
Local Open Scope string_scope.

(** ** The page of the web server *)

Lemma startsWith_split (s p : string) :
  startsWith s p = true -> exists b, s = p ++ b.
Proof.
  revert s. induction p as [ | a p IH ]; intros s H.
  - exists s. reflexivity.
  - destruct s as [ | c s ]; [ discriminate | ].
    cbn [startsWith] in H. apply andb_prop in H. destruct H as [Hc Hs].
    apply Ascii.eqb_eq in Hc. subst c. destruct (IH s Hs) as (b & ->).
    exists b. reflexivity.
Qed.

Lemma startsWith_append_l (t p b : string) :
  startsWith t p = true -> startsWith (t ++ b) p = true.
Proof.
  intro H. destruct (startsWith_split t p H) as (u & ->).
  rewrite string_append_assoc. apply startsWith_append.
Qed.

Lemma includesString_append_l (t p b : string) :
  includesString t p = true -> includesString (t ++ b) p = true.
Proof.
  induction t as [ | c t IH ]; cbn [includesString append].
  - rewrite orb_false_r. intro H. destruct p; [ | discriminate ].
    destruct b; reflexivity.
  - intro H. apply orb_prop in H. destruct H as [H | H].
    + change (String c (t ++ b)) with (String c t ++ b).
      rewrite (startsWith_append_l _ _ b H). reflexivity.
    + rewrite (IH H). apply orb_true_r.
Qed.

Lemma includesString_append_r (a t p : string) :
  includesString t p = true -> includesString (a ++ t) p = true.
Proof.
  intro H. induction a as [ | c a IH ]; [ exact H | ].
  cbn [append includesString]. rewrite IH. apply orb_true_r.
Qed.

(** After the first replacement the rest is copied. *)
Lemma replaceScan_inactive (search replaceValue : string) (s : string) :
  forall before, replaceScan search replaceValue false before 0 false s = s.
Proof.
  induction s as [ | c s IH ]; intros pre; [ reflexivity | ].
  cbn [replaceScan andb]. rewrite IH. reflexivity.
Qed.

(** [replace] either finds no occurrence and returns the string, or
    replaces the first one: the one with the shortest text before it. *)
Lemma replaceFirst_cases (search replaceValue : string) (c0 : ascii) (rest : string) :
  search = String c0 rest ->
  forall s before,
    (includesString s search = false /\
     replaceScan search replaceValue false before 0 true s = s) \/
    (exists a b, s = a ++ search ++ b /\
       (forall a' b', s = a' ++ search ++ b' -> (String.length a <= String.length a')%nat) /\
       replaceScan search replaceValue false before 0 true s
       = a ++ getSubstitution search (before ++ a) b replaceValue ++ b).
Proof.
  intros Hs s. induction s as [ | c s IH ]; intros pre.
  - left. split; [ rewrite Hs; reflexivity | reflexivity ].
  - destruct (startsWith (String c s) search) eqn:Est.
    + right. destruct (startsWith_split _ _ Est) as (b & Hb). exists EmptyString, b.
      split; [ exact Hb | ]. split; [ intros a' b' _; cbn [String.length]; lia | ].
      rewrite Hb.
      rewrite (replaceScan_match search replaceValue false c0 rest b Hs).
      rewrite replaceScan_inactive, string_append_empty_r. reflexivity.
    + cbn [replaceScan]. rewrite Est. cbn [andb].
      destruct (IH (pre ++ String c EmptyString)) as [[Hn Hr] | (a & b & Ha & Hmin & Hr)].
      * left. split; [ cbn [includesString]; rewrite Est, Hn; reflexivity | ].
        rewrite Hr. reflexivity.
      * right. exists (String c a), b. split; [ rewrite Ha; reflexivity | ].
        split.
        { intros a' b' H'. destruct a' as [ | c' a'' ].
          - cbn [append] in H'. rewrite H', startsWith_append in Est. discriminate.
          - cbn [append] in H'. injection H' as _ H'.
            cbn [String.length]. specialize (Hmin a'' b' H'). lia. }
        rewrite Hr, string_append_assoc. reflexivity.
Qed.

(** X18. [injectConfigScript] puts the configuration script in front of
    the first renderer tag and changes nothing else: a page that refers to
    /config.js is returned as it is, and so is a page without a renderer
    tag; otherwise the first renderer tag (the one with the shortest text
    before it) is replaced by the two tags, the text before and after it
    is kept, and the result refers to /config.js; so applying the function
    twice is the same as applying it once. *)
Theorem injectConfigScript_once (html : string) :
  injectConfigScript (injectConfigScript html) = injectConfigScript html /\
  (includesString html "/config.js" = true -> injectConfigScript html = html) /\
  (includesString html "/config.js" = false ->
   includesString html (scriptTag "./renderer.js") = false ->
   injectConfigScript html = html) /\
  (includesString html "/config.js" = false ->
   includesString html (scriptTag "./renderer.js") = true ->
   includesString (injectConfigScript html) "/config.js" = true /\
   exists a b, html = a ++ scriptTag "./renderer.js" ++ b /\
               (forall a' b', html = a' ++ scriptTag "./renderer.js" ++ b' ->
                              (String.length a <= String.length a')%nat) /\
               injectConfigScript html = a ++ CONFIG_AND_RENDERER ++ b).
Proof.
  assert (Hcases :
    includesString html "/config.js" = false ->
    (includesString html (scriptTag "./renderer.js") = false /\
     injectConfigScript html = html) \/
    (includesString (injectConfigScript html) "/config.js" = true /\
     exists a b, html = a ++ scriptTag "./renderer.js" ++ b /\
                 (forall a' b', html = a' ++ scriptTag "./renderer.js" ++ b' ->
                                (String.length a <= String.length a')%nat) /\
                 injectConfigScript html = a ++ CONFIG_AND_RENDERER ++ b)).
  { intro Hc. unfold injectConfigScript. rewrite Hc. unfold replaceFirst.
    destruct (replaceFirst_cases (scriptTag "./renderer.js") CONFIG_AND_RENDERER
                "<"%char _ eq_refl html EmptyString)
      as [[Hn Hr] | (a & b & Ha & Hmin & Hr)].
    - left. split; [ exact Hn | exact Hr ].
    - right. fold CONFIG_AND_RENDERER. rewrite Hr.
      rewrite getSubstitution_plain by (vm_compute; reflexivity).
      split; [ | exists a, b; split; [ exact Ha | split; [ exact Hmin | reflexivity ] ] ].
      apply includesString_append_r, includesString_append_l.
      vm_compute. reflexivity. }
  assert (Hkept : includesString html "/config.js" = true -> injectConfigScript html = html).
  { intro Hc. unfold injectConfigScript. rewrite Hc. reflexivity. }
  split; [ | split; [ exact Hkept | split ] ].
  - destruct (includesString html "/config.js") eqn:Hc.
    + rewrite (Hkept eq_refl). apply Hkept. reflexivity.
    + destruct (Hcases eq_refl) as [[_ Hr] | [Hi _]].
      * rewrite Hr. exact Hr.
      * unfold injectConfigScript at 1. rewrite Hi. reflexivity.
  - intros Hc Hn. destruct (Hcases Hc) as [[_ Hr] | (_ & a & b & Ha & _)]; [ exact Hr | ].
    rewrite Ha in Hn.
    rewrite includesString_append_r in Hn; [ discriminate | ].
    apply includesString_append_l.
    vm_compute. reflexivity.
  - intros Hc Hy. destruct (Hcases Hc) as [[Hn _] | H]; [ congruence | exact H ].
Qed.

End Page.
